(** * GeoluxCamera: a functional model of the HydroCAM serial driver

    The driver (src/GeoluxCamera.cpp) talks to the camera over an Arduino
    [Stream].  This development embeds the driver's control flow as Rocq
    functions over an explicit transport state (first part) and proves
    properties of the response classifier, the info-block scanner, the chunk
    fetcher, the transfer engine and the readiness poller (second part).

    Conventions
    - [int32_t] counters are mathematical integers: signed overflow is
      undefined in C++, and the model describes the executions without it.
    - [uint8_t], [int8_t] and [uint32_t] values are written with their
      wrap-around ([u8], [s8], [u32]).
    - [long] and [unsigned long] are 32 bits wide, as on the Arduino targets.
    - Time is the millisecond counter behind [millis()]; it only moves in the
      busy-wait loops, in [delay] and in the timed reads of [Stream].
      The instructions between two waits take less than a clock tick.
    - The output under [GEOLUX_DEBUG] is left out, with the two counters
      [max_command_response] and [max_char_spacing] that only feed it. *)

From Stdlib Require Import ZArith Bool Lia Ascii String.
From stdpp Require Import base list.

Open Scope Z_scope.

(** ** Machine integers *)

Definition u8 (x : Z) : Z := x mod 256.
Definition u32 (x : Z) : Z := x mod 2 ^ 32.

(** Two's complement reading of the low 8 (resp. 32) bits. *)
Definition s8 (x : Z) : Z := (x + 128) mod 256 - 128.
Definition s32 (x : Z) : Z := (x + 2 ^ 31) mod 2 ^ 32 - 2 ^ 31.

(** ** The C library

    The C standard defines [atol] only for the numbers that fit a [long].
    For the others the libraries of the targets differ: avr-libc wraps
    around, newlib returns [LONG_MAX] or [LONG_MIN].  What [atol] returns
    then is a parameter of the model. *)
Class CLibrary : Type := { atol_out_of_range : list Z -> Z }.

(** ** The transport

    The camera side of the serial line.  [rx] holds the bytes on their way to
    the driver, each with the clock value at which it reaches the receive
    buffer; the buffer is first-in first-out, so a byte can be read once it
    and every byte before it have arrived.  [dev] is the state of the camera;
    it answers a command by queueing more bytes. *)

Inductive command : Type :=
  | get_image (offset length : Z)
  | get_info
  | get_status.

Record World (Dev : Type) : Type := mkWorld {
  now : Z;                 (* milliseconds since power-up *)
  rx : list (Z * Z);       (* (arrival time, byte) *)
  read_timeout : Z;        (* Stream::_timeout *)
  dev : Dev
}.

Arguments mkWorld {Dev}.
Arguments now {Dev}.
Arguments rx {Dev}.
Arguments read_timeout {Dev}.
Arguments dev {Dev}.

Section Driver.

Context {Dev : Type}.
Context {libc : CLibrary}.

(** How the camera answers: new state and the bytes it sends, stamped with
    their arrival times. *)
Variable respond : Dev -> command -> Z -> Dev * list (Z * Z).

Definition set_now (t : Z) (w : World Dev) : World Dev :=
  mkWorld t (rx w) (read_timeout w) (dev w).

Definition set_rx (l : list (Z * Z)) (w : World Dev) : World Dev :=
  mkWorld (now w) l (read_timeout w) (dev w).

(** [millis()] *)
Definition millis (w : World Dev) : Z := u32 (now w).

(** [millis() - start] in [uint32_t] arithmetic. *)
Definition elapsed (w : World Dev) (start : Z) : Z := u32 (millis w - start).

(** [delay(ms)] *)
Definition delay (ms : Z) (w : World Dev) : World Dev := set_now (now w + Z.max 0 ms) w.

(** Number of bytes that have arrived: [Stream::available()]. *)
Fixpoint arrived (t : Z) (l : list (Z * Z)) : nat :=
  match l with
  | (a, _) :: l' => if a <=? t then S (arrived t l') else O
  | [] => O
  end.

Definition available (w : World Dev) : Z := Z.of_nat (arrived (now w) (rx w)).

(** [Stream::read()]: the next byte, or -1 when the buffer is empty. *)
Definition read (w : World Dev) : Z * World Dev :=
  match rx w with
  | (a, c) :: l' => if a <=? now w then (u8 c, set_rx l' w) else (-1, w)
  | [] => (-1, w)
  end.

(** Clock value at which the first [n] bytes to come are all in the buffer:
    the latest of their arrival times. *)
Definition ready_at (n : nat) (l : list (Z * Z)) : option Z :=
  match take n (map fst l) with
  | a :: r => if (S (length r) =? n)%nat then Some (foldr Z.max a r) else None
  | [] => None
  end.

(** The busy-wait [while (available() < n && millis() - start < limit);].
    The loop leaves at the first clock value at which [n] bytes have arrived
    or [limit] milliseconds have passed since [start]. *)
Definition wait_for (n : nat) (start limit : Z) (w : World Dev) : World Dev :=
  if (Z.of_nat n <=? available w) then w
  else if limit <=? elapsed w start then w
  else
    let deadline := now w + (limit - elapsed w start) in
    match ready_at n (rx w) with
    | Some t => if t <=? deadline then set_now (Z.max (now w) t) w
                else set_now deadline w
    | None => set_now deadline w
    end.

(** [sendCommand(...)]: the command line goes out, the camera queues its
    answer. *)
Definition sendCommand (c : command) (w : World Dev) : World Dev :=
  let '(d, answer) := respond (dev w) c (now w) in
  mkWorld (now w) (rx w ++ answer) (read_timeout w) d.

(** [Stream::setTimeout] and [Stream::getTimeout] *)
Definition setTimeout (t : Z) (w : World Dev) : World Dev :=
  mkWorld (now w) (rx w) t (dev w).

Definition getTimeout (w : World Dev) : Z := read_timeout w.

(** [Stream::timedRead()]: polls [read()] until a byte is there or the stream
    timeout has passed. *)
Definition timedRead (w : World Dev) : Z * World Dev :=
  match rx w with
  | (a, c) :: l' =>
      if a <=? now w then (u8 c, set_rx l' w)
      else if a - now w <? read_timeout w then (u8 c, set_rx l' (set_now a w))
      else (-1, set_now (now w + Z.max 0 (read_timeout w)) w)
  | [] => (-1, set_now (now w + Z.max 0 (read_timeout w)) w)
  end.

(** ** The rest of the Arduino [Stream] interface

    These are the library calls the driver makes.  Each one is a loop around
    [timedRead()]; the loops that have no counter are written by recursion on
    the bytes still to come, one [timedRead()] per byte. *)

(** A byte arriving at [a] is caught by a [timedRead()] that starts at [t]. *)
Definition timely (tmo t a : Z) : bool := (a <=? t) || (a - t <? tmo).

(** [Stream::find(target, length)]: reads until the bytes read end with
    [target] (true) or a read times out (false). *)
Fixpoint find_raw (target seen : list Z) (tmo t : Z) (l : list (Z * Z))
  : bool * (Z * list (Z * Z)) :=
  match l with
  | [] => (false, (t + Z.max 0 tmo, []))
  | (a, c) :: l' =>
      if timely tmo t a then
        let seen' := seen ++ [u8 c] in
        if bool_decide (target `suffix_of` seen') then (true, (Z.max t a, l'))
        else find_raw target seen' tmo (Z.max t a) l'
      else (false, (t + Z.max 0 tmo, l))
  end.

Definition find (target : list Z) (w : World Dev) : bool * World Dev :=
  match target with
  | [] => (true, w)
  | _ =>
      let '(r, (t, l)) := find_raw target [] (read_timeout w) (now w) (rx w) in
      (r, set_rx l (set_now t w))
  end.

(** [Stream::readStringUntil(terminator)]: the terminator is read and
    dropped. *)
Fixpoint readStringUntil_raw (terminator tmo t : Z) (l : list (Z * Z))
  : list Z * (Z * list (Z * Z)) :=
  match l with
  | [] => ([], (t + Z.max 0 tmo, []))
  | (a, c) :: l' =>
      if timely tmo t a then
        if u8 c =? terminator then ([], (Z.max t a, l'))
        else
          let '(s, r) := readStringUntil_raw terminator tmo (Z.max t a) l' in
          (u8 c :: s, r)
      else ([], (t + Z.max 0 tmo, l))
  end.

Definition readStringUntil (terminator : Z) (w : World Dev) : list Z * World Dev :=
  let '(s, (t, l)) :=
    readStringUntil_raw terminator (read_timeout w) (now w) (rx w) in
  (s, set_rx l (set_now t w)).

(** [Stream::readBytes(buffer, length)]: the bytes stored in [buffer], in
    order. *)
Fixpoint readBytes (length : nat) (w : World Dev) : list Z * World Dev :=
  match length with
  | O => ([], w)
  | S n =>
      let '(c, w1) := timedRead w in
      if c <? 0 then ([], w1)
      else let '(buf, w2) := readBytes n w1 in (c :: buf, w2)
  end.

(** [Stream::readBytesUntil(terminator, buffer, length)] *)
Fixpoint readBytesUntil (terminator : Z) (length : nat) (w : World Dev)
  : list Z * World Dev :=
  match length with
  | O => ([], w)
  | S n =>
      let '(c, w1) := timedRead w in
      if (c <? 0) || (c =? terminator) then ([], w1)
      else let '(buf, w2) := readBytesUntil terminator n w1 in (c :: buf, w2)
  end.

Definition is_digit (c : Z) : bool := (48 <=? c) && (c <=? 57).

(** [Stream::peekNextDigit(SKIP_ALL, false)]: drops bytes until a digit or a
    minus sign is next. *)
Fixpoint peekNextDigit_raw (tmo t : Z) (l : list (Z * Z))
  : bool * (Z * list (Z * Z)) :=
  match l with
  | [] => (false, (t + Z.max 0 tmo, []))
  | (a, c) :: l' =>
      if timely tmo t a then
        if (u8 c =? 45) || is_digit (u8 c) then (true, (Z.max t a, l))
        else peekNextDigit_raw tmo (Z.max t a) l'
      else (false, (t + Z.max 0 tmo, l))
  end.

(** The [do ... while] of [Stream::parseInt]: [first] is true for the byte
    found by [peekNextDigit]; after it only digits and the ignored byte
    [0x01] continue the number. *)
Fixpoint parseInt_raw (first neg : bool) (value tmo t : Z) (l : list (Z * Z))
  : Z * (Z * list (Z * Z)) :=
  match l with
  | [] => (if neg then - value else value, (t + Z.max 0 tmo, []))
  | (a, c) :: l' =>
      if timely tmo t a then
        let ch := u8 c in
        if first || is_digit ch || (ch =? 1) then
          let neg' := neg || (ch =? 45) in
          let value' := if is_digit ch then value * 10 + ch - 48 else value in
          parseInt_raw false neg' value' tmo (Z.max t a) l'
        else (if neg then - value else value, (Z.max t a, l))
      else (if neg then - value else value, (t + Z.max 0 tmo, l))
  end.

(** [Stream::parseInt()], a 32-bit [long]. *)
Definition parseInt (w : World Dev) : Z * World Dev :=
  let '(found, (t, l)) := peekNextDigit_raw (read_timeout w) (now w) (rx w) in
  if found then
    let '(v, (t', l')) := parseInt_raw true false 0 (read_timeout w) t l in
    (s32 v, set_rx l' (set_now t' w))
  else (0, set_rx l (set_now t w)).

(** C's [atol] on a NUL-terminated buffer.  [atol_number] is the number that
    the text writes: leading white space, an optional sign, then decimal
    digits.  [atol] returns it when it fits a [long]; for the other texts
    the library decides. *)
Definition is_space (c : Z) : bool := (c =? 32) || ((9 <=? c) && (c <=? 13)).

Fixpoint atol_digits (acc : Z) (s : list Z) : Z :=
  match s with
  | c :: s' => if is_digit c then atol_digits (acc * 10 + (c - 48)) s' else acc
  | [] => acc
  end.

Fixpoint atol_number (s : list Z) : Z :=
  match s with
  | c :: s' =>
      if is_space c then atol_number s'
      else if c =? 45 then - atol_digits 0 s'
      else if c =? 43 then atol_digits 0 s'
      else atol_digits 0 s
  | [] => 0
  end.

Definition fits_long (v : Z) : bool := (- 2 ^ 31 <=? v) && (v <? 2 ^ 31).

Definition atol (s : list Z) : Z :=
  let v := atol_number s in
  if fits_long v then v else atol_out_of_range s.

(** ** The driver: [GeoluxCamera.cpp] *)

(** [streamDump()]
<<
    if (!_stream->available()) { delay(25); }
    while (_stream->available()) { _stream->read(); delay(1); }
>> *)
Fixpoint streamDump_raw (t : Z) (l : list (Z * Z)) : Z * list (Z * Z) :=
  match l with
  | (a, c) :: l' => if a <=? t then streamDump_raw (t + 1) l' else (t, l)
  | [] => (t, [])
  end.

Definition streamDump (w : World Dev) : World Dev :=
  let w1 := if available w =? 0 then delay 25 w else w in
  let '(t, l) := streamDump_raw (now w1) (rx w1) in
  set_rx l (set_now t w1).

(** [streamFind(target)] *)
Definition streamFind (target : Z) (w : World Dev) : bool * World Dev :=
  find [target] w.

(** *** The response classifier *)

(** A terminator is a C string or a null pointer ([None]). *)
Definition terminator := option (list Z).

(** [r && data.endsWith(r)] *)
Definition endsWith (data : list Z) (r : terminator) : bool :=
  match r with
  | Some s => bool_decide (s `suffix_of` data)
  | None => false
  end.

(** The [if ... else if] chain after each appended character. *)
Definition match_index (r1 r2 r3 r4 : terminator) (data : list Z) : Z :=
  if endsWith data r1 then 1
  else if endsWith data r2 then 2
  else if endsWith data r3 then 3
  else if endsWith data r4 then 4
  else 0.

(** The inner loop of [waitResponse]:
<<
    while (_stream->available() > 0) {
        int8_t a = _stream->read();
        if (a <= 0) continue;  // Skip 0x00 bytes, just in case
        data += static_cast<char>(a);
        if (r1 && data.endsWith(r1)) { index = 1; goto finish; } ...
    }
>>
    It gives the index, the buffer and the bytes left in the queue. *)
Fixpoint read_available (r1 r2 r3 r4 : terminator) (t : Z) (data : list Z)
    (l : list (Z * Z)) : Z * list Z * list (Z * Z) :=
  match l with
  | [] => (0, data, [])
  | (arrival, c) :: l' =>
      if arrival <=? t then
        let a := s8 (u8 c) in
        if a <=? 0 then read_available r1 r2 r3 r4 t data l'
        else
          let data' := data ++ [a] in
          let index := match_index r1 r2 r3 r4 data' in
          if index =? 0 then read_available r1 r2 r3 r4 t data' l'
          else (index, data', l')
      else (0, data, l)
  end.

(** The [do { ... } while (millis() - startMillis < timeout_ms);] around it.
    Between two passes with nothing to read the clock moves to the next
    arrival or to the deadline, whichever is first. *)
Fixpoint waitResponse_loop (fuel : nat) (startMillis timeout_ms : Z)
    (r1 r2 r3 r4 : terminator) (data : list Z) (w : World Dev)
  : Z * list Z * World Dev :=
  let '(index, data1, l1) := read_available r1 r2 r3 r4 (now w) data (rx w) in
  let w1 := set_rx l1 w in
  if negb (index =? 0) then (index, data1, w1)
  else if elapsed w1 startMillis <? timeout_ms then
    match fuel with
    | O => (0, data1, w1)
    | S fuel' =>
        waitResponse_loop fuel' startMillis timeout_ms r1 r2 r3 r4 data1
          (wait_for 1 startMillis timeout_ms w1)
    end
  else (0, data1, w1).

(** [waitResponse(timeout_ms, data, r1, r2, r3, r4)].  Every pass of the outer
    loop but the first and the last reads at least one byte, so the number of
    bytes still to come bounds the number of passes. *)
Definition waitResponse (timeout_ms : Z) (data : list Z)
    (r1 r2 r3 r4 : terminator) (w : World Dev) : Z * list Z * World Dev :=
  let startMillis := millis w in
  let '(index, data1, w1) :=
    waitResponse_loop (S (length (rx w))) startMillis (u32 timeout_ms)
      r1 r2 r3 r4 data w in
  if index =? 0 then (0, [], w1) else (index, data1, w1).

(** The terminators of [GeoluxCamera.h]. *)
Definition GEOLUX_OK : list Z := [79; 75; 13; 10].
Definition GEOLUX_ERROR : list Z := [69; 82; 82; 13; 10].
Definition GEOLUX_BUSY : list Z := [66; 85; 83; 89; 13; 10].
Definition GEOLUX_NONE : list Z := [78; 79; 78; 69; 13; 10].
Definition STR_READY : list Z := [82; 69; 65; 68; 89].
Definition STR_ERR : list Z := [69; 82; 82].
Definition STR_BUSY : list Z := [66; 85; 83; 89].
Definition STR_NONE : list Z := [78; 79; 78; 69].

(** [geolux_status]; [NO_RESPONSE] is the value 0 that [waitResponse] gives on
    a timeout. *)
Inductive geolux_status : Type := NO_RESPONSE | OK | ERROR | BUSY | NONE.

Definition status_of_index (i : Z) : geolux_status :=
  if i =? 1 then OK else if i =? 2 then ERROR else if i =? 3 then BUSY
  else if i =? 4 then NONE else NO_RESPONSE.

Definition is_ready (s : geolux_status) : bool :=
  match s with OK | NONE => true | _ => false end.

(** [getStatus()] *)
Definition getStatus (w : World Dev) : geolux_status * World Dev :=
  let w := sendCommand get_status w in
  let '(index, _, w) :=
    waitResponse 5000 [] (Some STR_READY) (Some STR_ERR) (Some STR_BUSY)
      (Some STR_NONE) w in
  let '(_, w) := streamFind 10 w in
  (status_of_index index, w).

(** [getImageSize()] *)
Definition getImageSize (w : World Dev) : Z * World Dev :=
  let w := sendCommand get_status w in
  let '(_, _, w) :=
    waitResponse 5000 [] (Some STR_READY) (Some STR_ERR) (Some STR_BUSY)
      (Some STR_NONE) w in
  let '(_, w) := streamFind 44 w in
  let '(resp, w) := parseInt w in
  let '(_, w) := streamFind 10 w in
  (s32 (u32 resp), w).

(** *** The chunk fetcher

    [getImageChunk(buf, offset, length)]: the count returned and the bytes
    stored in [buf], from [buf[0]] on. *)
Definition getImageChunk (offset length : N) (w : World Dev)
  : Z * list Z * World Dev :=
  let w := streamDump w in
  let start_time := millis w in
  let w := sendCommand (get_image (Z.of_N offset) (Z.of_N length)) w in
  let w := wait_for 3 start_time 5000 w in
  if available w =? 0 then (0, [], w)
  else
    (* throw away the first two returned bytes *)
    let w := snd (read w) in
    let w := snd (read w) in
    let prev_timeout := u32 (getTimeout w) in
    let w := setTimeout 15 w in
    let '(buf, w) := readBytes (N.to_nat length) w in
    let bytes_read := u32 (Z.of_nat (List.length buf)) in
    let w := setTimeout prev_timeout w in
    (bytes_read, buf, w).

(** *** The transfer engine *)

(** The locals of [transferImage] that live across chunks, and the bytes
    written to [xferStream] so far. *)
Record xfer : Type := mkXfer {
  total_bytes_read : Z;
  total_bytes_written : Z;
  bytes_remaining : Z;
  chunk_number : Z;
  start_next_chunk : Z;
  prev_bytes : list Z;
  eof : bool;
  sink : list Z
}.

Definition start_data_byte : Z := 2.
Definition extra_read_buff : Z := 12.

Definition xfer_init (image_size : Z) : xfer :=
  mkXfer 0 0 (image_size + start_data_byte + extra_read_buff) 0 0
    [0; 0; 0; 0] false [].

(** [prev_bytes[k]] *)
Definition window_at (pb : list Z) (k : Z) : Z := default 0 (pb !! Z.to_nat k).

(** The body of the [for] loop once byte [b] has been read at position [i] of
    the chunk; [late] is the test [millis() - start_xfer_millis > 120000L].
<<
    if (total_bytes_written >= image_size && b == 0) { eof = true; }
    if (i >= start_data_byte && !eof) {
        xferStream->write(b); bytes_written++; total_bytes_written++;
    }
    if (millis() - start_xfer_millis > 120000L) {
        total_bytes_written = bytes_remaining;
    }
    uint8_t j = total_bytes_read % 4;
    uint8_t k = total_bytes_read % 4 - 1;
    if (k == static_cast<uint8_t>(-1)) { k = 3; }
    prev_bytes[j] = b;
    if ((b == 0xD9) && ((char)prev_bytes[k] == (char)0xFF)) { eof = 1; }
    if ((b == 0xD8) && ((char)prev_bytes[k] == (char)0xFF)) { eof = 0; }
>> *)
Definition process_byte (image_size i b : Z) (late : bool) (s : xfer) : xfer :=
  let tbr := total_bytes_read s + 1 in
  let eof1 := if (image_size <=? total_bytes_written s) && (b =? 0) then true
              else eof s in
  let write := (start_data_byte <=? i) && negb eof1 in
  let sink1 := if write then sink s ++ [b] else sink s in
  let tbw1 := if write then total_bytes_written s + 1
              else total_bytes_written s in
  let tbw2 := if late then bytes_remaining s else tbw1 in
  let j := u8 (Z.rem tbr 4) in
  let k0 := u8 (Z.rem tbr 4 - 1) in
  let k := if k0 =? u8 (-1) then 3 else k0 in
  let pb := <[Z.to_nat j := b]> (prev_bytes s) in
  let eof2 := if (b =? 217) && (s8 (window_at pb k) =? s8 255) then true
              else eof1 in
  let eof3 := if (b =? 216) && (s8 (window_at pb k) =? s8 255) then false
              else eof2 in
  mkXfer tbr tbw2 (bytes_remaining s) (chunk_number s) (start_next_chunk s)
    pb eof3 sink1.

(** The [for (int32_t i = 0; i < bytesToRead + start_data_byte; i++)] loop,
    [n] iterations left; gives the chunk's [bytes_read].
<<
    uint32_t start_avail_time = millis();
    while (!_stream->available() && millis() - start_avail_time < 10);
    if (!_stream->available()) { break; }
    uint8_t b = _stream->read();
    bytes_read++; total_bytes_read++;
>> *)
Fixpoint read_chunk (n : nat) (image_size start_xfer_millis i bytes_read : Z)
    (s : xfer) (w : World Dev) : Z * xfer * World Dev :=
  match n with
  | O => (bytes_read, s, w)
  | S n' =>
      let w1 := wait_for 1 (millis w) 10 w in
      if available w1 =? 0 then (bytes_read, s, w1)
      else
        let '(c, w2) := read w1 in
        let b := u8 c in
        let late := 120000 <? elapsed w2 start_xfer_millis in
        read_chunk n' image_size start_xfer_millis (i + 1) (bytes_read + 1)
          (process_byte image_size i b late s) w2
  end.

(** The bookkeeping after the [for] loop.
<<
    bytes_remaining -= min(bytes_read, bytesToRead);
    start_next_chunk += min(bytes_read, bytesToRead);
    chunk_number++;
>> *)
Definition end_chunk (bytes_read bytesToRead : Z) (s : xfer) : xfer :=
  mkXfer (total_bytes_read s) (total_bytes_written s)
    (bytes_remaining s - Z.min bytes_read bytesToRead)
    (chunk_number s + 1)
    (start_next_chunk s + Z.min bytes_read bytesToRead)
    (prev_bytes s) (eof s) (sink s).

(** The outer loop, at most [fuel] passes; the flag tells whether the loop
    was left.
<<
    while (!eof && millis() - start_xfer_millis < 120000L) {
        int32_t bytesToRead = min(chunk_size, max(bytes_remaining, 1));
        uint32_t start_command_millis = millis();
        sendCommand("get_image", '=', start_next_chunk, ',', bytesToRead, ",RAW");
        while (!_stream->available() && millis() - start_command_millis < 5000L);
        if (!_stream->available()) { continue; }
        for (...) { ... }
        ...
        if (eof) { break; }
    }
>> *)
Fixpoint transfer_loop (fuel : nat) (image_size chunk_size start_xfer_millis : Z)
    (s : xfer) (w : World Dev) : bool * xfer * World Dev :=
  match fuel with
  | O => (false, s, w)
  | S fuel' =>
      if negb (eof s) && (elapsed w start_xfer_millis <? 120000) then
        let bytesToRead := Z.min chunk_size (Z.max (bytes_remaining s) 1) in
        let start_command_millis := millis w in
        let w1 := sendCommand (get_image (start_next_chunk s) bytesToRead) w in
        let w2 := wait_for 1 start_command_millis 5000 w1 in
        if available w2 =? 0 then
          transfer_loop fuel' image_size chunk_size start_xfer_millis s w2
        else
          let '(bytes_read, s1, w3) :=
            read_chunk (Z.to_nat (bytesToRead + start_data_byte)) image_size
              start_xfer_millis 0 0 s w2 in
          let s2 := end_chunk bytes_read bytesToRead s1 in
          if eof s2 then (true, s2, w3)
          else transfer_loop fuel' image_size chunk_size start_xfer_millis s2 w3
      else (true, s, w)
  end.

(** [transferImage(xferStream, image_size, chunk_size)]: when the loop is
    left, the value returned, the bytes written to [xferStream] and the
    transport; [None] while the loop still runs after [fuel] passes. *)
Definition transferImage (fuel : nat) (image_size chunk_size : Z)
    (w : World Dev) : option (Z * list Z * World Dev) :=
  let '(image_size, w) :=
    if image_size =? 0 then getImageSize w else (image_size, w) in
  let start_xfer_millis := millis w in
  let '(finished, s, w') :=
    transfer_loop fuel image_size chunk_size start_xfer_millis
      (xfer_init image_size) w in
  if finished then Some (u32 (total_bytes_written s), sink s, w') else None.

(** *** The info-block scanner *)

(** [for (uint8_t skips = numberSkips; skips; skips--) { _stream->find(...); }] *)
Fixpoint skip_fields (skips : nat) (searchSkipTag : list Z) (w : World Dev)
  : World Dev :=
  match skips with
  | O => w
  | S n => skip_fields n searchSkipTag (snd (find searchSkipTag w))
  end.

(** [while (_stream->find('#')) { _stream->readStringUntil('\n'); }], at most
    [fuel] lines. *)
Fixpoint drain_lines (fuel : nat) (w : World Dev) : World Dev :=
  match fuel with
  | O => w
  | S fuel' =>
      let '(found, w1) := find [35] w in
      if found then drain_lines fuel' (snd (readStringUntil 10 w1)) else w1
  end.

(** Every line read takes its ['#'] from the bytes to come, so their number
    bounds the number of lines. *)
Definition drain_info (w : World Dev) : World Dev :=
  drain_lines (S (length (rx w))) w.

(** [getCameraInfoString(searchStartTag, searchEndTag, numberSkips,
    searchSkipTag)] *)
Definition getCameraInfoString (searchStartTag : list Z) (searchEndTag : Z)
    (numberSkips : Z) (searchSkipTag : list Z) (w : World Dev)
  : list Z * World Dev :=
  let start_time := millis w in
  let w := sendCommand get_info w in
  let w := wait_for 1 start_time 5000 w in
  let '(found, w) := find searchStartTag w in
  if negb found then ([], w)
  else
    let prev_timeout := u32 (getTimeout w) in
    let w := setTimeout 15 w in
    let w := skip_fields (Z.to_nat (u8 numberSkips)) searchSkipTag w in
    let '(resp, w) := readStringUntil searchEndTag w in
    let w := drain_info w in
    let w := setTimeout prev_timeout w in
    (resp, w).

(** [getCameraInfoInt(searchStartTag, searchEndTag, numberSkips,
    searchSkipTag)]; [resp] is a [uint32_t], the value returned a 32-bit
    [long].
<<
    char   buf[11];
    size_t bytes_read = _stream->readBytesUntil(searchEndTag, buf, 11);
    // if we read 11 or more bytes, it's an overflow
    if (bytes_read && bytes_read < 11) {
        buf[bytes_read] = '\0';
        resp            = atol(buf);
    }
>> *)
Definition getCameraInfoInt (searchStartTag : list Z) (searchEndTag : Z)
    (numberSkips : Z) (searchSkipTag : list Z) (w : World Dev)
  : Z * World Dev :=
  let start_time := millis w in
  let w := sendCommand get_info w in
  let w := wait_for 1 start_time 5000 w in
  let resp := u32 (-1) in
  let '(found, w) := find searchStartTag w in
  if negb found then (s32 resp, w)
  else
    let prev_timeout := u32 (getTimeout w) in
    let w := setTimeout 15 w in
    let w := skip_fields (Z.to_nat (u8 numberSkips)) searchSkipTag w in
    let '(buf, w) := readBytesUntil searchEndTag 11 w in
    let bytes_read := Z.of_nat (length buf) in
    let resp := if (0 <? bytes_read) && (bytes_read <? 11)
                then u32 (atol buf) else resp in
    let w := drain_info w in
    let w := setTimeout prev_timeout w in
    (s32 resp, w).

(** *** The readiness poller

    The [while] loop of [waitForReady], at most [fuel] polls; the flag tells
    whether the loop was left.
<<
    while (camera_status != OK && camera_status != NONE &&
           millis() - start_millis < timeout) {
        camera_status = getStatus();
        if (camera_status != OK && camera_status != NONE) { delay(100); }
    }
>> *)
Fixpoint poll_loop (fuel : nat) (start_millis timeout : Z)
    (camera_status : geolux_status) (w : World Dev)
  : bool * geolux_status * World Dev :=
  if negb (is_ready camera_status) && (elapsed w start_millis <? timeout) then
    match fuel with
    | O => (false, camera_status, w)
    | S fuel' =>
        let '(camera_status, w) := getStatus w in
        let w := if negb (is_ready camera_status) then delay 100 w else w in
        poll_loop fuel' start_millis timeout camera_status w
    end
  else (true, camera_status, w).

(** [waitForReady(initial_delay, timeout)]: the value returned, with the last
    status seen; [None] while the loop still runs after [fuel] polls. *)
Definition waitForReady (fuel : nat) (initial_delay timeout : Z)
    (w : World Dev) : option (Z * geolux_status * World Dev) :=
  let start_millis := millis w in
  let w := delay (u32 initial_delay) w in
  let '(finished, camera_status, w) :=
    poll_loop fuel start_millis (u32 timeout) NO_RESPONSE w in
  if finished then
    if is_ready camera_status then Some (elapsed w start_millis, camera_status, w)
    else Some (0, camera_status, w)
  else None.

End Driver.

(** ** Notions used in the statements *)

(** *** Bytes and arrival times *)

(** A value of [uint8_t]. *)
Definition is_byte (b : Z) : Prop := 0 <= b < 256.

(** The bytes of the receive queue as [read()] returns them. *)
Definition rx_bytes (l : list (Z * Z)) : list Z := map (fun p => u8 (snd p)) l.

(** The character codes of a text. *)
Definition bytes_of (s : string) : list Z :=
  map (fun a => Z.of_nat (nat_of_ascii a)) (list_ascii_of_string s).

(** The bytes [l], read one [timedRead()] after the other from time [t] on
    with stream timeout [tmo], all come in time. *)
Fixpoint prompt (tmo t : Z) (l : list (Z * Z)) : bool :=
  match l with
  | (a, _) :: l' => timely tmo t a && prompt tmo (Z.max t a) l'
  | [] => true
  end.

(** *** The classifier *)

(** The characters that [waitResponse] appends to its buffer when it reads
    the bytes [l]: the accumulated stream. *)
Fixpoint accepted (l : list (Z * Z)) : list Z :=
  match l with
  | (_, c) :: l' =>
      if s8 (u8 c) <=? 0 then accepted l' else s8 (u8 c) :: accepted l'
  | [] => []
  end.

(** Neither of two terminators is a suffix of the other. *)
Definition apart (a b : terminator) : bool :=
  match a, b with
  | Some s, Some t =>
      negb (bool_decide (s `suffix_of` t)) && negb (bool_decide (t `suffix_of` s))
  | _, _ => true
  end.

Fixpoint apart_from (r : terminator) (rs : list terminator) : bool :=
  match rs with
  | r' :: rs' => apart r r' && apart_from r rs'
  | [] => true
  end.

Fixpoint pairwise_non_suffix (rs : list terminator) : bool :=
  match rs with
  | r :: rs' => apart_from r rs' && pairwise_non_suffix rs'
  | [] => true
  end.

(** No terminator ends the buffer after any of the characters [acc] appended
    to [data]. *)
Definition no_match (r1 r2 r3 r4 : terminator) (data acc : list Z) : Prop :=
  forall k, (0 < k <= length acc)%nat ->
    match_index r1 r2 r3 r4 (data ++ take k acc) = 0.

(** What a scan of the characters [acc] gives: [index] and the buffer. *)
Definition classified (r1 r2 r3 r4 : terminator) (data acc : list Z)
    (index : Z) (data' : list Z) : Prop :=
  data' = data ++ acc /\
  (index = 0 -> no_match r1 r2 r3 r4 data acc) /\
  (index <> 0 ->
   exists acc' a, acc = acc' ++ [a] /\ no_match r1 r2 r3 r4 data acc' /\
                  match_index r1 r2 r3 r4 (data ++ acc) = index).

(** With [fuel] passes of the outer loop of [waitResponse] to go, the passes
    cannot run out before the deadline: bytes to come are fewer than the
    passes, or as many with one already there, or the deadline is reached
    with nothing to read. *)
Definition enough_passes {Dev : Type} (fuel : nat) (start timeout : Z)
    (w : World Dev) : Prop :=
  (length (rx w) < fuel)%nat \/
  ((length (rx w) <= fuel)%nat /\ (0 < arrived (now w) (rx w))%nat) \/
  (elapsed w start = timeout /\ arrived (now w) (rx w) = 0%nat).

(** *** The transfer engine *)

(** The byte read last: the slot of the window written by the previous
    iteration. *)
Definition last_byte (s : xfer) : Z :=
  window_at (prev_bytes s) (Z.rem (total_bytes_read s) 4).

(** What holds of the locals of [transferImage] all along: the read counter
    has not gone negative and the window is the 4-byte array of the source,
    holding bytes. *)
Definition xfer_ok (s : xfer) : Prop :=
  0 <= total_bytes_read s /\
  length (prev_bytes s) = 4%nat /\
  Forall (fun x => 0 <= x < 256) (prev_bytes s).

(** No start tag [0xFF 0xD8] in the bytes [l] read after the byte [prev]. *)
Fixpoint no_start_tag (prev : Z) (l : list Z) : bool :=
  match l with
  | b :: l' => negb ((prev =? 255) && (b =? 216)) && no_start_tag b l'
  | [] => true
  end.

(** No end tag [0xFF 0xD9] in the bytes [l] read after the byte [prev]. *)
Fixpoint no_end_tag (prev : Z) (l : list Z) : bool :=
  match l with
  | b :: l' => negb ((prev =? 255) && (b =? 217)) && no_end_tag b l'
  | [] => true
  end.

(** The invariant of the outer loop: what has been written and what may
    still be requested add up to at most the declared size plus the slack. *)
Definition within_budget (image_size : Z) (s : xfer) : Prop :=
  Z.of_nat (length (sink s)) + bytes_remaining s
  <= image_size + start_data_byte + extra_read_buff.

(** The write counter is the number of bytes written to the sink. *)
Definition counted (s : xfer) : Prop :=
  total_bytes_written s = Z.of_nat (length (sink s)).

(** The [for] loop on bytes that are all in the buffer, before the global
    deadline: [process_byte] on each, at the positions from [i] on. *)
Fixpoint feed (image_size i : Z) (bs : list Z) (s : xfer) : xfer :=
  match bs with
  | b :: bs' => feed image_size (i + 1) bs' (process_byte image_size i b false s)
  | [] => s
  end.

(** Header bytes that cannot be part of an end tag: the first is not [0xD9]
    (after a payload byte [0xFF]), the second not [0xFF] (before a payload
    byte [0xD9]), and the two are not [0xFF 0xD9]. *)
Definition header_neutral (h1 h2 : Z) : bool :=
  negb (h1 =? 217) && negb (h2 =? 255) && negb ((h1 =? 255) && (h2 =? 217)).

(** *** Replies that arrive in one piece *)

(** The bytes [bs], all arriving at time [a]. *)
Definition stamped (a : Z) (bs : list Z) : list (Z * Z) :=
  map (fun b => (a, b)) bs.

(** The number written by the decimal digits [ds]. *)
Definition decimal (ds : list Z) : Z :=
  fold_left (fun v c => v * 10 + (c - 48)) ds 0.

(** The text made of the lines [ls], each closed by the bytes [eol]. *)
Definition lines_with (eol : list Z) (ls : list (list Z)) : list Z :=
  concat (map (fun l => l ++ eol) ls).

(** What is still to come arrives without a gap as long as the stream
    timeout. *)
Definition flowing {Dev : Type} (w : World Dev) : Prop :=
  prompt (read_timeout w) (now w) (rx w) = true.

(** ** More of the driver, and a caller *)

Section Callers.

Context {Dev : Type}.
Context {libc : CLibrary}.
Variable respond : Dev -> command -> Z -> Dev * list (Z * Z).

(** [getCameraSerialNumber()]
<<
    uint32_t serial_number = getCameraInfoInt("#serial_id:");
    if (serial_number != static_cast<uint32_t>(-1)) { return serial_number; }
    return 0;
>> *)
Definition getCameraSerialNumber (w : World Dev) : Z * World Dev :=
  let '(r, w) :=
    getCameraInfoInt respond (bytes_of "#serial_id:") 13 0 (bytes_of ",") w in
  let serial_number := u32 r in
  (if negb (serial_number =? u32 (-1)) then serial_number else 0, w).

(** [printCameraInfo(outStream)]: the bytes written to [outStream];
    [println] ends each line with CR LF.
<<
    uint32_t start_time = millis();
    sendCommand(GF("get_info"));
    while (!_stream->available() && millis() - start_time < 5000L);
    while (_stream->available()) {
        outStream->println(_stream->readStringUntil('\n'));
        delay(2);
    }
>>
    Every pass of the loop takes at least the byte that is available, so
    the bytes to come bound the number of passes. *)
Fixpoint print_lines (fuel : nat) (out : list Z) (w : World Dev)
  : list Z * World Dev :=
  if available w =? 0 then (out, w)
  else
    match fuel with
    | O => (out, w)
    | S fuel' =>
        let '(line, w) := readStringUntil 10 w in
        print_lines fuel' (out ++ line ++ [13; 10]) (delay 2 w)
    end.

Definition printCameraInfo (w : World Dev) : list Z * World Dev :=
  let start_time := millis w in
  let w := sendCommand respond get_info w in
  let w := wait_for 1 start_time 5000 w in
  print_lines (length (rx w)) [] w.

End Callers.

(** ** The chunk loop of [examples/read_by_chunk]

    The sketch fetches the image with [getImageChunk] and writes each chunk
    to a file on the SD card; [imgFile] is the content of that file, and
    [imgFile.write(buffer, n)] appends the first [n] bytes of the buffer.
    The [size_t] arguments of [getImageChunk] are 32 bits wide.
<<
    int32_t total_bytes_read = 0, total_bytes_written = 0;
    int32_t bytes_remaining = image_size, chunk_number = 0, chunk_size = 512;
    start_millis = millis();
    while (total_bytes_read < image_size && millis() - start_millis < 120000L) {
        uint8_t buffer[chunk_size];
        int32_t bytesToRead = min(chunk_size, max(bytes_remaining, 1));
        bytes_read = camera.getImageChunk(buffer, total_bytes_read, bytesToRead);
        bytes_written = imgFile.write(buffer, bytes_read);
        if (millis() - start_millis > 120000L) { break; }
        bytes_remaining -= bytes_read;
        total_bytes_read += bytes_read;
        total_bytes_written += bytes_written;
        chunk_number++;
    }
>> *)
Module ReadByChunk.

Section Loop.

Context {Dev : Type}.
Variable respond : Dev -> command -> Z -> Dev * list (Z * Z).

Record locals : Type := mkLocals {
  total_bytes_read : Z;
  total_bytes_written : Z;
  bytes_remaining : Z;
  chunk_number : Z;
  imgFile : list Z
}.

Definition chunk_size : Z := 512.

(** At most [fuel] passes; the flag tells whether the loop was left. *)
Fixpoint chunk_loop (fuel : nat) (image_size start_millis : Z) (s : locals)
    (w : World Dev) : bool * locals * World Dev :=
  if (total_bytes_read s <? image_size) && (elapsed w start_millis <? 120000)
  then
    match fuel with
    | O => (false, s, w)
    | S fuel' =>
        let bytesToRead := Z.min chunk_size (Z.max (bytes_remaining s) 1) in
        let '(count, buffer, w) :=
          getImageChunk respond (Z.to_N (u32 (total_bytes_read s)))
            (Z.to_N (u32 bytesToRead)) w in
        let bytes_read := s32 count in
        let written := take (Z.to_nat bytes_read) buffer in
        let bytes_written := Z.of_nat (length written) in
        if 120000 <? elapsed w start_millis then
          (true,
           mkLocals (total_bytes_read s) (total_bytes_written s)
             (bytes_remaining s) (chunk_number s) (imgFile s ++ written), w)
        else
          chunk_loop fuel' image_size start_millis
            (mkLocals (total_bytes_read s + bytes_read)
               (total_bytes_written s + bytes_written)
               (bytes_remaining s - bytes_read) (chunk_number s + 1)
               (imgFile s ++ written)) w
    end
  else (true, s, w).

Definition read_image (fuel : nat) (image_size : Z) (w : World Dev)
  : bool * locals * World Dev :=
  chunk_loop fuel image_size (millis w) (mkLocals 0 0 image_size 0 []) w.

End Loop.

End ReadByChunk.

(** ** Synthetic transports *)

(** A line with nothing at the other end. *)
Definition no_camera (d : unit) (c : command) (t : Z) : unit * list (Z * Z) :=
  (d, []).

(** A camera that never answers and keeps a log of the requests it gets
    and of when it gets them. *)
Definition logging_camera : list (command * Z) -> command -> Z
    -> list (command * Z) * list (Z * Z) :=
  fun log c t => (log ++ [(c, t)], []).

(** Bytes already in the receive buffer at time 0. *)
Definition preloaded (bytes : list Z) : World unit :=
  mkWorld 0 (map (fun b => (0, b)) bytes) 1000 tt.

(** Nothing received yet, at time 0. *)
Definition idle_world : World unit := mkWorld 0 [] 1000 tt.

(** A camera holding the image [payload]: it answers each ranged read at once
    with the two header bytes [h1 h2] and the next [length] bytes of the
    image, and sends nothing after the image. *)
Definition synthetic_camera (h1 h2 : Z) (payload : list Z) (c : command)
    (t : Z) : list Z * list (Z * Z) :=
  match c with
  | get_image _ len =>
      (drop (Z.to_nat len) payload,
       map (fun b => (t, b)) (h1 :: h2 :: take (Z.to_nat len) payload))
  | _ => (payload, [])
  end.

Definition synthetic_world (payload : list Z) : World (list Z) :=
  mkWorld 0 [] 1000 payload.

(** A camera that honours the range of a request: it answers a ranged read
    at once with the two header bytes [h1 h2] and the bytes of [image] from
    [offset] on, at most [length] of them. *)
Definition ranged_camera (h1 h2 : Z) (image : list Z) (d : unit) (c : command)
    (t : Z) : unit * list (Z * Z) :=
  match c with
  | get_image offset len =>
      (d, stamped t (h1 :: h2 :: take (Z.to_nat len)
                                   (drop (Z.to_nat offset) image)))
  | _ => (d, [])
  end.

(** Two C libraries: avr-libc, whose [atol] wraps around, and newlib, whose
    [atol] stops at the largest and the smallest [long]. *)
Definition avr_libc : CLibrary :=
  {| atol_out_of_range := fun s => s32 (atol_number s) |}.

Definition newlib : CLibrary :=
  {| atol_out_of_range :=
       fun s => if atol_number s <? 0 then - 2 ^ 31 else 2 ^ 31 - 1 |}.

(** A camera that answers [get_info] at once with the text [info]. *)
Definition info_camera (info : list Z) (d : unit) (c : command) (t : Z)
  : unit * list (Z * Z) :=
  match c with
  | get_info => (d, map (fun b => (t, b)) info)
  | _ => (d, [])
  end.

(** The info line of the quality setting, and one with three sub-fields. *)
Definition quality_info : list Z := bytes_of "#quality:77" ++ [13; 10].
Definition wb_offset_info : list Z := bytes_of "#wb_offset:10,20,30" ++ [13; 10].
Definition serial_info : list Z := bytes_of "#serial_id:12345678901" ++ [13; 10].

(** An info line with a text field, and one whose field is empty. *)
Definition firmware_info : list Z := bytes_of "#firmware:1.2.3" ++ [13; 10].
Definition empty_quality_info : list Z := bytes_of "#quality:" ++ [13; 10].

(** A camera that is ready: it answers [get_status] within the same clock
    tick. *)
Definition ready_camera (d : unit) (c : command) (t : Z) : unit * list (Z * Z) :=
  match c with
  | get_status => (d, map (fun b => (t, b)) (bytes_of "READY,1234" ++ [13; 10]))
  | _ => (d, [])
  end.

(** A camera that is busy for the next [d] status queries and answers each
    query after 3 ms. *)
Definition busy_camera (d : nat) (c : command) (t : Z) : nat * list (Z * Z) :=
  match c with
  | get_status =>
      match d with
      | S d' => (d', map (fun b => (t + 3, b)) (bytes_of "BUSY" ++ [13; 10]))
      | O => (O, map (fun b => (t + 3, b)) (bytes_of "READY,1234" ++ [13; 10]))
      end
  | _ => (d, [])
  end.

(** The state of the transfer after the header [07 07] and an end tag. *)
Definition after_end_tag : xfer :=
  snd (fst (read_chunk 4 100 0 0 0 (xfer_init 100)
              (preloaded [7; 7; 255; 217; 255; 216; 65]))).

Definition rest_after_end_tag : World unit :=
  snd (read_chunk 4 100 0 0 0 (xfer_init 100)
         (preloaded [7; 7; 255; 217; 255; 216; 65])).

(** The camera after [n] requests [c], the first at time [t] and each one
    [gap] milliseconds after the one before. *)
Fixpoint asked {Dev : Type} (respond : Dev -> command -> Z -> Dev * list (Z * Z))
    (n : nat) (c : command) (gap t : Z) (d : Dev) : Dev :=
  match n with
  | O => d
  | S n' => asked respond n' c gap (t + gap) (fst (respond d c t))
  end.

(** * Properties *)

Ltac xfer_ok_by_computation :=
  unfold xfer_ok; simpl;
  split; [lia | split; [reflexivity | repeat constructor; lia]].

(** [H] equates a closed list with [pre ++ tag ++ post] for a tag that does
    not occur in it. *)
Ltac not_a_substring H pre :=
  vm_compute in H;
  repeat (destruct pre as [|? pre]; simpl in H;
          [congruence | injection H as _ H]);
  destruct pre; discriminate H.

(** The side conditions of a status word read from a reply in one piece. *)
Ltac status_word_conditions :=
  first
    [ reflexivity
    | cbn [now]; lia
    | cbn [now]; change (u32 5000) with 5000; lia
    | repeat constructor; lia
    | intros k Hk; simpl in Hk;
      destruct k as [|[|[|[|[|k]]]]]; try lia; vm_compute; reflexivity
    | vm_compute; discriminate ].

Section Properties.

Context {Dev : Type}.
Context {libc : CLibrary}.
Variable respond : Dev -> command -> Z -> Dev * list (Z * Z).

(** ** Machine integers *)

Lemma u8_range x : 0 <= u8 x < 256.
Proof. unfold u8. apply Z.mod_pos_bound. lia. Qed.

Lemma u32_range x : 0 <= u32 x < 2 ^ 32.
Proof. unfold u32. apply Z.mod_pos_bound. lia. Qed.

Lemma u8_small x : 0 <= x < 256 -> u8 x = x.
Proof. intros. unfold u8. apply Z.mod_small. lia. Qed.

Lemma u32_small x : 0 <= x < 2 ^ 32 -> u32 x = x.
Proof. intros. unfold u32. apply Z.mod_small. lia. Qed.

Lemma s8_byte_eq x y : 0 <= x < 256 -> 0 <= y < 256 -> s8 x = s8 y -> x = y.
Proof.
  unfold s8. intros Hx Hy H.
  destruct (Z_lt_dec x 128), (Z_lt_dec y 128).
  - rewrite !Z.mod_small in H by lia. lia.
  - rewrite (Z.mod_small (x + 128)) in H by lia.
    replace (y + 128) with (y - 128 + 1 * 256) in H by lia.
    rewrite Z.mod_add, Z.mod_small in H by lia. lia.
  - rewrite (Z.mod_small (y + 128)) in H by lia.
    replace (x + 128) with (x - 128 + 1 * 256) in H by lia.
    rewrite Z.mod_add, Z.mod_small in H by lia. lia.
  - replace (x + 128) with (x - 128 + 1 * 256) in H by lia.
    replace (y + 128) with (y - 128 + 1 * 256) in H by lia.
    rewrite !Z.mod_add, !Z.mod_small in H by lia. lia.
Qed.

Lemma s8_is_ff x : 0 <= x < 256 -> (s8 x =? s8 255) = (x =? 255).
Proof.
  intros Hx. destruct (Z.eqb_spec x 255) as [->|Hne].
  - apply Z.eqb_refl.
  - apply Z.eqb_neq. intros H. apply Hne. apply s8_byte_eq; [lia | lia | exact H].
Qed.

(** ** The marker window *)

Lemma xfer_init_ok image_size : xfer_ok (xfer_init image_size).
Proof.
  unfold xfer_ok, xfer_init. simpl. split; [lia|]. split; [reflexivity|].
  repeat constructor; lia.
Qed.

Lemma window_at_range pb k :
  Forall (fun x => 0 <= x < 256) pb -> 0 <= window_at pb k < 256.
Proof.
  intros H. unfold window_at.
  destruct (pb !! Z.to_nat k) as [x|] eqn:E; simpl; [|lia].
  eapply Forall_lookup_1 in H; eauto.
Qed.

(** The slot written and the slot compared, from the read counter. *)
Lemma window_slots tbr :
  0 <= tbr ->
  let j := u8 (Z.rem (tbr + 1) 4) in
  let k0 := u8 (Z.rem (tbr + 1) 4 - 1) in
  let k := if k0 =? u8 (-1) then 3 else k0 in
  j = (tbr + 1) mod 4 /\ k = tbr mod 4 /\ j <> k /\ 0 <= j < 4 /\ 0 <= k < 4.
Proof.
  intros H j k0 k. subst j k0 k.
  rewrite Z.rem_mod_nonneg by lia.
  assert (Hr : 0 <= tbr mod 4 < 4) by (apply Z.mod_pos_bound; lia).
  assert (Hs : (tbr + 1) mod 4 = (tbr mod 4 + 1) mod 4).
  { rewrite Z.add_mod by lia. rewrite (Z.mod_small 1 4) by lia. reflexivity. }
  rewrite Hs.
  assert (C : tbr mod 4 = 0 \/ tbr mod 4 = 1 \/ tbr mod 4 = 2 \/ tbr mod 4 = 3)
    by lia.
  destruct C as [C|[C|[C|C]]]; rewrite C; vm_compute; repeat split; congruence.
Qed.

Lemma window_insert_other pb j k b :
  0 <= j -> 0 <= k -> j <> k ->
  window_at (<[Z.to_nat j := b]> pb) k = window_at pb k.
Proof.
  intros Hj Hk Hne. unfold window_at.
  rewrite list_lookup_insert_ne; [reflexivity|]. lia.
Qed.

Lemma window_insert_same pb j b :
  0 <= j -> (Z.to_nat j < length pb)%nat ->
  window_at (<[Z.to_nat j := b]> pb) j = b.
Proof.
  intros Hj Hlen. unfold window_at.
  rewrite list_lookup_insert_eq; [reflexivity | exact Hlen].
Qed.

(** The byte the tag tests look at is the byte read just before. *)
Lemma compared_byte s b :
  xfer_ok s ->
  let tbr := total_bytes_read s + 1 in
  let k0 := u8 (Z.rem tbr 4 - 1) in
  let k := if k0 =? u8 (-1) then 3 else k0 in
  window_at (<[Z.to_nat (u8 (Z.rem tbr 4)) := b]> (prev_bytes s)) k
  = last_byte s.
Proof.
  intros (Hr & Hl & Hb) tbr k0 k.
  destruct (window_slots (total_bytes_read s) Hr) as (Hj & Hk & Hne & Hjr & Hkr).
  cbv zeta in Hj, Hk, Hne, Hjr, Hkr. fold tbr in Hj, Hk, Hne, Hjr, Hkr.
  fold k0 in Hk, Hne, Hkr. fold k in Hk, Hne, Hkr.
  rewrite window_insert_other by lia.
  unfold last_byte. rewrite Z.rem_mod_nonneg by lia. rewrite Hk. reflexivity.
Qed.

(** The effect of one byte on the flag, in terms of the byte before. *)
Lemma process_byte_eof image_size i b late s :
  xfer_ok s ->
  eof (process_byte image_size i b late s) =
    if (b =? 216) && (last_byte s =? 255) then false
    else if (b =? 217) && (last_byte s =? 255) then true
    else if (image_size <=? total_bytes_written s) && (b =? 0) then true
    else eof s.
Proof.
  intros Hok. unfold process_byte. cbv zeta. simpl eof.
  rewrite (compared_byte s b Hok).
  assert (Hlb : 0 <= last_byte s < 256).
  { apply window_at_range. apply Hok. }
  rewrite (s8_is_ff _ Hlb).
  destruct (Z.eqb_spec b 216) as [->|H216]; simpl.
  - destruct (last_byte s =? 255); reflexivity.
  - reflexivity.
Qed.

Lemma process_byte_last image_size i b late s :
  xfer_ok s -> last_byte (process_byte image_size i b late s) = b.
Proof.
  intros (Hr & Hl & Hb). unfold last_byte, process_byte. cbv zeta. simpl.
  destruct (window_slots (total_bytes_read s) Hr) as (Hj & _ & _ & Hjr & _).
  cbv zeta in Hj, Hjr.
  assert (Hm : 0 <= (total_bytes_read s + 1) mod 4 < 4)
    by (apply Z.mod_pos_bound; lia).
  rewrite Hj. rewrite (Z.rem_mod_nonneg (total_bytes_read s + 1) 4) by lia.
  apply window_insert_same; [lia|]. rewrite Hl. lia.
Qed.

Lemma process_byte_ok image_size i b late s :
  xfer_ok s -> 0 <= b < 256 -> xfer_ok (process_byte image_size i b late s).
Proof.
  intros (Hr & Hl & Hb) Hbr. unfold xfer_ok, process_byte. cbv zeta. simpl.
  split; [lia|]. split.
  - rewrite length_insert. exact Hl.
  - apply Forall_insert; assumption.
Qed.

Lemma end_chunk_ok br btr s : xfer_ok s -> xfer_ok (end_chunk br btr s).
Proof. intros H. exact H. Qed.

(** ** Reading from the transport *)

Lemma wait_for_rx n start limit (w : World Dev) :
  rx (wait_for n start limit w) = rx w.
Proof.
  unfold wait_for.
  destruct (Z.of_nat n <=? available w); [reflexivity|].
  destruct (limit <=? elapsed w start); [reflexivity|].
  destruct (ready_at n (rx w)) as [t|]; [|reflexivity].
  destruct (t <=? _); reflexivity.
Qed.

Lemma wait_for_timeout n start limit (w : World Dev) :
  read_timeout (wait_for n start limit w) = read_timeout w.
Proof.
  unfold wait_for.
  destruct (Z.of_nat n <=? available w); [reflexivity|].
  destruct (limit <=? elapsed w start); [reflexivity|].
  destruct (ready_at n (rx w)) as [t|]; [|reflexivity].
  destruct (t <=? _); reflexivity.
Qed.

(** When a byte is available, [read()] takes the head of the queue. *)
Lemma read_available_byte (w : World Dev) :
  (available w =? 0) = false ->
  exists a c l, rx w = (a, c) :: l /\ read w = (u8 c, set_rx l w).
Proof.
  unfold available, read. intros H.
  destruct (rx w) as [|[a c] l]; simpl in H; [discriminate|].
  destruct (a <=? now w); [|discriminate].
  exists a, c, l. split; reflexivity.
Qed.

(** ** End of frame and the sink *)

(** While the flag is set a byte is not written, and only a start tag clears
    the flag. *)
Lemma process_byte_eof_set image_size i b late s :
  xfer_ok s -> eof s = true ->
  sink (process_byte image_size i b late s) = sink s /\
  (eof (process_byte image_size i b late s) = false ->
   last_byte s = 255 /\ b = 216).
Proof.
  intros Hok He. split.
  - unfold process_byte. cbv zeta. simpl sink. rewrite He.
    destruct ((image_size <=? total_bytes_written s) && (b =? 0));
      rewrite andb_false_r; reflexivity.
  - rewrite (process_byte_eof _ _ _ _ _ Hok), He.
    destruct (Z.eqb_spec b 216) as [->|]; simpl.
    + destruct (Z.eqb_spec (last_byte s) 255); [intros _; split; auto|].
      destruct ((image_size <=? total_bytes_written s) && false); discriminate.
    + destruct ((b =? 217) && (last_byte s =? 255)); [discriminate|].
      destruct ((image_size <=? total_bytes_written s) && (b =? 0)); discriminate.
Qed.

Lemma read_chunk_eof_set n : forall image_size start i bytes_read s (w : World Dev),
  xfer_ok s -> eof s = true ->
  no_start_tag (last_byte s) (rx_bytes (rx w)) = true ->
  sink (snd (fst (read_chunk n image_size start i bytes_read s w))) = sink s /\
  eof (snd (fst (read_chunk n image_size start i bytes_read s w))) = true.
Proof.
  induction n as [|n IH]; intros image_size start i bytes_read s w Hok He Hns.
  - simpl. auto.
  - simpl. set (w1 := wait_for 1 (millis w) 10 w).
    destruct (available w1 =? 0) eqn:Hav; [simpl; auto|].
    destruct (read_available_byte w1 Hav) as (a & c & l & Hrx & Hrd).
    rewrite Hrd.
    assert (Hrxw : rx w = (a, c) :: l).
    { rewrite <- Hrx. subst w1. symmetry. apply wait_for_rx. }
    rewrite Hrxw in Hns. simpl in Hns. apply andb_true_iff in Hns as [Hh Ht].
    set (b := u8 (u8 c)). set (late := 120000 <? _).
    assert (Hb : b = u8 c).
    { subst b. apply u8_small. apply u8_range. }
    destruct (process_byte_eof_set image_size i b late s Hok He) as [Hs Hc].
    assert (He' : eof (process_byte image_size i b late s) = true).
    { destruct (eof (process_byte image_size i b late s)) eqn:E; [reflexivity|].
      destruct (Hc eq_refl) as [H1 H2]. rewrite H1, <- Hb, H2 in Hh.
      discriminate. }
    assert (Hok' : xfer_ok (process_byte image_size i b late s)).
    { apply process_byte_ok; [exact Hok|]. rewrite Hb. apply u8_range. }
    destruct (IH image_size start (i + 1) (bytes_read + 1)
                (process_byte image_size i b late s) (set_rx l w1) Hok' He')
      as [IH1 IH2].
    + rewrite process_byte_last by exact Hok. simpl. rewrite Hb. exact Ht.
    + rewrite IH1, IH2, Hs. auto.
Qed.

(** ** The request budget *)

Lemma process_byte_sink_length image_size i b late s :
  Z.of_nat (length (sink (process_byte image_size i b late s)))
  <= Z.of_nat (length (sink s)) + (if 2 <=? i then 1 else 0).
Proof.
  unfold process_byte. cbv zeta. simpl sink. unfold start_data_byte.
  destruct (2 <=? i); simpl.
  - destruct (negb _); [rewrite length_app; simpl|]; lia.
  - lia.
Qed.

Lemma process_byte_remaining image_size i b late s :
  bytes_remaining (process_byte image_size i b late s) = bytes_remaining s.
Proof. reflexivity. Qed.

(** A chunk reads at most [n] bytes and writes at most those at positions 2
    and up. *)
Lemma read_chunk_budget n : forall image_size start i bytes_read s (w : World Dev),
  let r := read_chunk n image_size start i bytes_read s w in
  let d := fst (fst r) - bytes_read in
  0 <= d <= Z.of_nat n /\
  bytes_remaining (snd (fst r)) = bytes_remaining s /\
  Z.of_nat (length (sink (snd (fst r))))
  <= Z.of_nat (length (sink s)) + Z.max 0 (i + d - Z.max i 2).
Proof.
  induction n as [|n IH]; intros image_size start i bytes_read s w.
  - simpl. repeat split; lia.
  - cbv zeta. simpl read_chunk. set (w1 := wait_for 1 (millis w) 10 w).
    destruct (available w1 =? 0) eqn:Hav.
    + simpl. repeat split; lia.
    + destruct (read_available_byte w1 Hav) as (a & c & l & Hrx & Hrd).
      rewrite Hrd.
      set (late := 120000 <? _).
      specialize (IH image_size start (i + 1) (bytes_read + 1)
                    (process_byte image_size i (u8 (u8 c)) late s) (set_rx l w1)).
      cbv zeta in IH. destruct IH as (Hd & Hrem & Hlen).
      pose proof (process_byte_sink_length image_size i (u8 (u8 c)) late s) as Hp.
      rewrite process_byte_remaining in Hrem.
      split; [lia|]. split; [exact Hrem|].
      destruct (Z.leb_spec 2 i); lia.
Qed.

Lemma transfer_loop_budget fuel : forall image_size chunk_size start s (w : World Dev),
  0 <= chunk_size ->
  within_budget image_size s ->
  within_budget image_size
    (snd (fst (transfer_loop respond fuel image_size chunk_size start s w))).
Proof.
  induction fuel as [|fuel IH]; intros image_size chunk_size start s w Hc Hinv.
  - exact Hinv.
  - simpl transfer_loop.
    destruct (negb (eof s) && (elapsed w start <? 120000)); [|exact Hinv].
    set (btr := Z.min chunk_size (Z.max (bytes_remaining s) 1)).
    set (w2 := wait_for 1 (millis w) 5000 _).
    destruct (available w2 =? 0); [apply IH; assumption|].
    pose proof (read_chunk_budget (Z.to_nat (btr + start_data_byte)) image_size
                  start 0 0 s w2) as Hb.
    cbv zeta in Hb.
    destruct (read_chunk (Z.to_nat (btr + start_data_byte)) image_size start 0 0 s w2)
      as [[br s1] w3].
    simpl in Hb. destruct Hb as (Hd & Hrem & Hlen).
    assert (Hinv2 : within_budget image_size (end_chunk br btr s1)).
    { unfold within_budget, end_chunk in *. simpl.
      unfold start_data_byte in *. subst btr. lia. }
    change (eof (end_chunk br btr s1)) with (eof s1).
    destruct (eof s1); [exact Hinv2|].
    apply IH; assumption.
Qed.

(** C1 (amended).  A set end-of-frame flag stops the writes only for as long
    as it stays set.  From a state with the flag set: the next byte is not
    written, and it clears the flag only if it is the [0xD8] of a start tag
    [0xFF 0xD8]; if no start tag follows in the bytes to come, the rest of the
    chunk writes nothing and leaves the flag set; and the outer loop is left
    as soon as it sees the flag, so no later chunk is read. *)
Theorem no_write_while_end_of_frame n image_size start i bytes_read s
    (w : World Dev) :
  xfer_ok s -> eof s = true ->
  (forall b late,
     sink (process_byte image_size i b late s) = sink s /\
     (eof (process_byte image_size i b late s) = false ->
      last_byte s = 255 /\ b = 216)) /\
  (no_start_tag (last_byte s) (rx_bytes (rx w)) = true ->
   sink (snd (fst (read_chunk n image_size start i bytes_read s w))) = sink s /\
   eof (snd (fst (read_chunk n image_size start i bytes_read s w))) = true) /\
  (forall fuel chunk_size,
     transfer_loop respond (S fuel) image_size chunk_size start s w
     = (true, s, w)).
Proof.
  intros Hok He. split; [|split].
  - intros b late. apply process_byte_eof_set; assumption.
  - intros Hns. apply read_chunk_eof_set; assumption.
  - intros fuel chunk_size. simpl. rewrite He. reflexivity.
Qed.

(** The marker window does not tell header bytes from payload bytes.  The
    window, the read counter and the flag after a byte do not depend on the
    position [i] of the byte in its chunk; [end_chunk] leaves them alone; so
    after a byte [0xFF] at any position, a byte [0xD9] at any position of
    the same or of the next chunk sets the flag and a byte [0xD8] clears it,
    also at the header positions 0 and 1, whose bytes are not written. *)
Lemma marker_window_ignores_position image_size s i1 i2 late1 late2
    bytes_read bytesToRead :
  xfer_ok s ->
  let s1 := process_byte image_size i1 255 late1 s in
  let s2 := end_chunk bytes_read bytesToRead s1 in
  (forall b i i' late late',
     prev_bytes (process_byte image_size i b late s)
       = prev_bytes (process_byte image_size i' b late' s) /\
     total_bytes_read (process_byte image_size i b late s)
       = total_bytes_read (process_byte image_size i' b late' s) /\
     eof (process_byte image_size i b late s)
       = eof (process_byte image_size i' b late' s)) /\
  (prev_bytes s2 = prev_bytes s1 /\ total_bytes_read s2 = total_bytes_read s1 /\
   eof s2 = eof s1 /\ last_byte s2 = 255) /\
  eof (process_byte image_size i2 217 late2 s1) = true /\
  eof (process_byte image_size i2 217 late2 s2) = true /\
  eof (process_byte image_size i2 216 late2 s1) = false /\
  eof (process_byte image_size i2 216 late2 s2) = false /\
  (i1 < 2 -> sink s1 = sink s) /\
  (i2 < 2 -> sink (process_byte image_size i2 217 late2 s2) = sink s2).
Proof.
  intros Hok s1 s2.
  assert (Hok1 : xfer_ok s1) by (apply process_byte_ok; [exact Hok | lia]).
  assert (Hok2 : xfer_ok s2) by exact Hok1.
  assert (Hl1 : last_byte s1 = 255) by (apply process_byte_last; exact Hok).
  assert (Hl2 : last_byte s2 = 255) by exact Hl1.
  assert (Hhdr : forall i b late t, i < 2 ->
            sink (process_byte image_size i b late t) = sink t).
  { intros i b late t Hi. unfold process_byte. cbv zeta. simpl sink.
    unfold start_data_byte.
    destruct (Z.leb_spec 2 i); [lia|]. reflexivity. }
  split; [|split; [|split; [|split; [|split; [|split; [|split]]]]]].
  - intros b i i' late late'.
    rewrite !(process_byte_eof _ _ _ _ _ Hok). repeat split; reflexivity.
  - repeat split; try reflexivity. exact Hl2.
  - rewrite (process_byte_eof _ _ _ _ _ Hok1), Hl1. reflexivity.
  - rewrite (process_byte_eof _ _ _ _ _ Hok2), Hl2. reflexivity.
  - rewrite (process_byte_eof _ _ _ _ _ Hok1), Hl1. reflexivity.
  - rewrite (process_byte_eof _ _ _ _ _ Hok2), Hl2. reflexivity.
  - intros Hi. apply Hhdr. exact Hi.
  - intros Hi. apply Hhdr. exact Hi.
Qed.

(** C4 (amended).  For a chunk size that is not negative, at the end of every
    pass of the outer loop the number of bytes written to the sink plus the
    request budget [bytes_remaining] is at most [image_size + 14], whatever
    the transport sends and whenever it sends it.  So the sink holds at most
    [image_size + 14] bytes for as long as the budget is not overdrawn. *)
Theorem sink_within_request_budget fuel image_size chunk_size start
    (w : World Dev) :
  0 <= chunk_size ->
  let s := snd (fst (transfer_loop respond fuel image_size chunk_size start
                       (xfer_init image_size) w)) in
  Z.of_nat (length (sink s)) + bytes_remaining s <= image_size + 14 /\
  (0 <= bytes_remaining s -> Z.of_nat (length (sink s)) <= image_size + 14).
Proof.
  intros Hc s.
  assert (H : within_budget image_size s).
  { apply transfer_loop_budget; [exact Hc|].
    unfold within_budget, xfer_init, start_data_byte, extra_read_buff. simpl. lia. }
  unfold within_budget, start_data_byte, extra_read_buff in H. lia.
Qed.

(** ** The stream timeout *)

Lemma sendCommand_timeout c (w : World Dev) :
  read_timeout (sendCommand respond c w) = read_timeout w.
Proof. unfold sendCommand. destruct (respond _ _ _). reflexivity. Qed.

Lemma streamDump_timeout (w : World Dev) :
  read_timeout (streamDump w) = read_timeout w.
Proof.
  unfold streamDump.
  destruct (available w =? 0); destruct (streamDump_raw _ _); reflexivity.
Qed.

Lemma read_timeout_kept (w : World Dev) :
  read_timeout (snd (read w)) = read_timeout w.
Proof.
  unfold read. destruct (rx w) as [|[a c] l]; [reflexivity|].
  destruct (a <=? now w); reflexivity.
Qed.

Lemma timedRead_timeout (w : World Dev) :
  read_timeout (snd (timedRead w)) = read_timeout w.
Proof.
  unfold timedRead. destruct (rx w) as [|[a c] l]; [reflexivity|].
  destruct (a <=? now w); [reflexivity|].
  destruct (a - now w <? read_timeout w); reflexivity.
Qed.

Lemma readBytes_timeout n : forall w : World Dev,
  read_timeout (snd (readBytes n w)) = read_timeout w.
Proof.
  induction n as [|n IH]; intros w; simpl; [reflexivity|].
  pose proof (timedRead_timeout w) as Ht.
  destruct (timedRead w) as [c w1]. simpl in Ht.
  destruct (c <? 0); [exact Ht|].
  specialize (IH w1). destruct (readBytes n w1) as [buf w2]. simpl in *.
  congruence.
Qed.

Lemma readBytesUntil_timeout e n : forall w : World Dev,
  read_timeout (snd (readBytesUntil e n w)) = read_timeout w.
Proof.
  induction n as [|n IH]; intros w; simpl; [reflexivity|].
  pose proof (timedRead_timeout w) as Ht.
  destruct (timedRead w) as [c w1]. simpl in Ht.
  destruct ((c <? 0) || (c =? e)); [exact Ht|].
  specialize (IH w1). destruct (readBytesUntil e n w1) as [buf w2]. simpl in *.
  congruence.
Qed.

Lemma find_timeout target (w : World Dev) :
  read_timeout (snd (find target w)) = read_timeout w.
Proof.
  unfold find. destruct target; [reflexivity|].
  destruct (find_raw _ _ _ _ _) as [r [t l]]. reflexivity.
Qed.

Lemma readStringUntil_timeout e (w : World Dev) :
  read_timeout (snd (readStringUntil e w)) = read_timeout w.
Proof.
  unfold readStringUntil.
  destruct (readStringUntil_raw _ _ _ _) as [r [t l]]. reflexivity.
Qed.

Lemma skip_fields_timeout n tag : forall w : World Dev,
  read_timeout (skip_fields n tag w) = read_timeout w.
Proof.
  induction n as [|n IH]; intros w; simpl; [reflexivity|].
  rewrite IH. apply find_timeout.
Qed.

Lemma drain_lines_timeout fuel : forall w : World Dev,
  read_timeout (drain_lines fuel w) = read_timeout w.
Proof.
  induction fuel as [|fuel IH]; intros w; cbn [drain_lines]; [reflexivity|].
  pose proof (find_timeout [35] w) as Hf.
  destruct (find [35] w) as [found w1]. simpl in Hf.
  destruct found; [|exact Hf].
  rewrite IH, readStringUntil_timeout. exact Hf.
Qed.

Lemma readBytes_length n : forall w : World Dev,
  (length (fst (readBytes n w)) <= n)%nat.
Proof.
  induction n as [|n IH]; intros w; simpl; [lia|].
  destruct (timedRead w) as [c w1].
  destruct (c <? 0); [simpl; lia|].
  specialize (IH w1). destruct (readBytes n w1) as [buf w2]. simpl in *. lia.
Qed.

(** C6.  [getImageChunk] stores at most [length] bytes in the buffer and the
    count it returns, which is the number of bytes stored, is at most
    [length]. *)
Theorem getImageChunk_at_most_length (offset length : N) (w : World Dev) :
  let '(count, buf, _) := getImageChunk respond offset length w in
  (List.length buf <= N.to_nat length)%nat /\
  count <= Z.of_N length /\
  count = u32 (Z.of_nat (List.length buf)).
Proof.
  unfold getImageChunk.
  set (w1 := wait_for 3 _ 5000 _).
  destruct (available w1 =? 0).
  - simpl. split; [lia|]. split; [lia | reflexivity].
  - set (w2 := setTimeout 15 _).
    pose proof (readBytes_length (N.to_nat length) w2) as Hl.
    destruct (readBytes (N.to_nat length) w2) as [buf w3]. simpl in Hl.
    split; [exact Hl|]. split; [|reflexivity].
    pose proof (u32_range (Z.of_nat (List.length buf))) as Hr.
    unfold u32 in *.
    pose proof (Z.mod_le (Z.of_nat (List.length buf)) (2 ^ 32)). lia.
Qed.

(** C9.  [getImageChunk], [getCameraInfoString] and [getCameraInfoInt] return
    with the stream timeout they were called with: the paths that set the
    15 ms timeout put the saved value back, and the early returns come
    before the timeout is touched.  The timeout is an [unsigned long] of 32
    bits. *)
Theorem read_timeout_restored (w : World Dev) :
  0 <= read_timeout w < 2 ^ 32 ->
  (forall offset length,
     read_timeout (snd (getImageChunk respond offset length w))
     = read_timeout w) /\
  (forall searchStartTag searchEndTag numberSkips searchSkipTag,
     read_timeout (snd (getCameraInfoString respond searchStartTag searchEndTag
                          numberSkips searchSkipTag w)) = read_timeout w) /\
  (forall searchStartTag searchEndTag numberSkips searchSkipTag,
     read_timeout (snd (getCameraInfoInt respond searchStartTag searchEndTag
                          numberSkips searchSkipTag w)) = read_timeout w).
Proof.
  intros Hr. split; [|split].
  - intros offset length. unfold getImageChunk.
    set (w1 := wait_for 3 _ 5000 _).
    assert (H1 : read_timeout w1 = read_timeout w).
    { subst w1. rewrite wait_for_timeout, sendCommand_timeout.
      apply streamDump_timeout. }
    destruct (available w1 =? 0); [exact H1|].
    destruct (readBytes _ _) as [buf w3]. simpl.
    unfold getTimeout. rewrite !read_timeout_kept, H1. apply u32_small. exact Hr.
  - intros tag e k skip. unfold getCameraInfoString.
    set (w1 := wait_for 1 _ 5000 _).
    assert (H1 : read_timeout w1 = read_timeout w).
    { subst w1. rewrite wait_for_timeout. apply sendCommand_timeout. }
    pose proof (find_timeout tag w1) as Hf.
    destruct (find tag w1) as [found w2]. simpl in Hf.
    destruct found; cbn [negb]; [|simpl; congruence].
    destruct (readStringUntil e _) as [resp w3]. cbn [snd].
    unfold getTimeout, setTimeout. cbn [read_timeout].
    rewrite Hf, H1. apply u32_small. exact Hr.
  - intros tag e k skip. unfold getCameraInfoInt.
    set (w1 := wait_for 1 _ 5000 _).
    assert (H1 : read_timeout w1 = read_timeout w).
    { subst w1. rewrite wait_for_timeout. apply sendCommand_timeout. }
    pose proof (find_timeout tag w1) as Hf.
    destruct (find tag w1) as [found w2]. simpl in Hf.
    destruct found; cbn [negb]; [|simpl; congruence].
    destruct (readBytesUntil e 11 _) as [buf w3]. cbn [snd].
    unfold getTimeout, setTimeout. cbn [read_timeout].
    rewrite Hf, H1. apply u32_small. exact Hr.
Qed.

(** ** The integer field of the info block *)

Lemma s32_u32 x : s32 (u32 x) = s32 x.
Proof.
  unfold s32, u32. rewrite Zplus_mod_idemp_l. reflexivity.
Qed.

Lemma set_now_same (w : World Dev) : set_now (now w) w = w.
Proof. destruct w; reflexivity. Qed.

Lemma timedRead_prompt t tmo (d : Dev) a c l :
  timely tmo t a = true ->
  timedRead (mkWorld t ((a, c) :: l) tmo d) = (u8 c, mkWorld (Z.max t a) l tmo d).
Proof.
  intros Ht. unfold timedRead, timely, set_rx, set_now in *. simpl.
  destruct (Z.leb_spec a t).
  - rewrite Z.max_l by lia. reflexivity.
  - simpl in Ht. rewrite Ht. rewrite Z.max_r by lia. reflexivity.
Qed.

(** A field shorter than the buffer that ends with the delimiter is read
    whole. *)
Lemma readBytesUntil_field e : forall fl n t tmo (d : Dev) a_e c_e rest,
  prompt tmo t (fl ++ [(a_e, c_e)]) = true ->
  Forall (fun p => u8 (snd p) <> e) fl ->
  u8 c_e = e ->
  (length fl < n)%nat ->
  fst (readBytesUntil e n (mkWorld t (fl ++ (a_e, c_e) :: rest) tmo d))
  = rx_bytes fl.
Proof.
  induction fl as [|[a c] fl IH]; intros n t tmo d a_e c_e rest Hp Hne He Hn;
    (destruct n as [|n]; [simpl in Hn; lia|]);
    simpl in Hp; apply andb_true_iff in Hp as [Hp Hp'];
    cbn [readBytesUntil app]; rewrite timedRead_prompt by exact Hp.
  - rewrite He, Z.eqb_refl, orb_true_r. reflexivity.
  - inversion Hne as [|? ? Hc Hne']; subst. simpl in Hc.
    pose proof (u8_range c) as Hr.
    destruct (Z.ltb_spec (u8 c) 0); [lia|].
    destruct (Z.eqb_spec (u8 c) (u8 c_e)); [contradiction|]. cbn [orb].
    specialize (IH n (Z.max t a) tmo d a_e c_e rest Hp' Hne' eq_refl).
    destruct (readBytesUntil (u8 c_e) n _) as [buf w2].
    simpl in *. rewrite IH by lia. reflexivity.
Qed.

(** A field that fills the buffer is cut at the buffer size. *)
Lemma readBytesUntil_full e : forall fl t tmo (d : Dev) rest,
  prompt tmo t fl = true ->
  Forall (fun p => u8 (snd p) <> e) fl ->
  fst (readBytesUntil e (length fl) (mkWorld t (fl ++ rest) tmo d))
  = rx_bytes fl.
Proof.
  induction fl as [|[a c] fl IH]; intros t tmo d rest Hp Hne; [reflexivity|].
  simpl in Hp. apply andb_true_iff in Hp as [Hp Hp'].
  cbn [readBytesUntil app length]. rewrite timedRead_prompt by exact Hp.
  inversion Hne as [|? ? Hc Hne']; subst. simpl in Hc.
  pose proof (u8_range c) as Hr.
  destruct (Z.ltb_spec (u8 c) 0); [lia|].
  destruct (Z.eqb_spec (u8 c) e); [contradiction|]. cbn [orb].
  specialize (IH (Z.max t a) tmo d rest Hp' Hne').
  destruct (readBytesUntil e (length fl) _) as [buf w2].
  simpl in *. rewrite IH. reflexivity.
Qed.

Lemma rx_bytes_length l : length (rx_bytes l) = length l.
Proof. unfold rx_bytes. apply length_map. Qed.

(** A field that fills the buffer: the bytes are taken off the queue. *)
Lemma readBytesUntil_full_world e : forall fl t tmo (d : Dev) rest,
  prompt tmo t fl = true ->
  Forall (fun p => u8 (snd p) <> e) fl ->
  readBytesUntil e (length fl) (mkWorld t (fl ++ rest) tmo d)
  = (rx_bytes fl,
     mkWorld (fold_left (fun t p => Z.max t (fst p)) fl t) rest tmo d).
Proof.
  induction fl as [|[a c] fl IH]; intros t tmo d rest Hp Hne; [reflexivity|].
  simpl in Hp. apply andb_true_iff in Hp as [Hp Hp'].
  cbn [readBytesUntil app length]. rewrite timedRead_prompt by exact Hp.
  inversion Hne as [|? ? Hc Hne']; subst. simpl in Hc.
  pose proof (u8_range c) as Hr.
  destruct (Z.ltb_spec (u8 c) 0); [lia|].
  destruct (Z.eqb_spec (u8 c) e); [contradiction|]. cbn [orb].
  rewrite (IH (Z.max t a) tmo d rest Hp' Hne'). reflexivity.
Qed.

(** ** The number that [atol] reads *)

Lemma atol_digits_decimal : forall ds acc,
  Forall (fun c => is_digit c = true) ds ->
  atol_digits acc ds = fold_left (fun v c => v * 10 + (c - 48)) ds acc.
Proof.
  induction ds as [|c ds IH]; intros acc Hds; [reflexivity|].
  inversion Hds as [|? ? Hc Hds']; subst. simpl. rewrite Hc. apply IH. exact Hds'.
Qed.

Lemma atol_number_decimal ds :
  ds <> [] -> Forall (fun c => is_digit c = true) ds ->
  atol_number ds = decimal ds.
Proof.
  intros Hne Hds. destruct ds as [|c ds]; [contradiction|].
  pose proof Hds as Hall.
  inversion Hds as [|? ? Hc _]; subst.
  unfold is_digit in Hc. apply andb_true_iff in Hc as [H1 H2].
  apply Z.leb_le in H1, H2.
  cbn [atol_number]. unfold is_space.
  destruct (Z.eqb_spec c 32); [lia|].
  destruct (Z.leb_spec 9 c); [|lia]. destruct (Z.leb_spec c 13); [lia|].
  cbn [andb orb].
  destruct (Z.eqb_spec c 45); [lia|]. destruct (Z.eqb_spec c 43); [lia|].
  apply atol_digits_decimal. exact Hall.
Qed.

Lemma atol_number_signed (negative : bool) ds :
  ds <> [] -> Forall (fun c => is_digit c = true) ds ->
  atol_number ((if negative then [45] else []) ++ ds)
  = if negative then - decimal ds else decimal ds.
Proof.
  intros Hne Hds. destruct negative; [|apply atol_number_decimal; assumption].
  cbn [app atol_number]. change (is_space 45) with false.
  change (45 =? 45) with true. cbv iota.
  rewrite atol_digits_decimal by exact Hds. reflexivity.
Qed.

(** A number that fits a [long] is what [atol] returns, whatever the
    library. *)
Lemma atol_fits s :
  - 2 ^ 31 <= atol_number s < 2 ^ 31 -> atol s = atol_number s.
Proof.
  intros H. unfold atol, fits_long.
  destruct (Z.leb_spec (- 2 ^ 31) (atol_number s)); [|lia].
  destruct (Z.ltb_spec (atol_number s) (2 ^ 31)); [|lia]. reflexivity.
Qed.

Lemma s32_fits v : - 2 ^ 31 <= v < 2 ^ 31 -> s32 v = v.
Proof. intros H. unfold s32. rewrite Z.mod_small by lia. lia. Qed.

(** C7.  Once the start label has been found and the sub-fields skipped, a
    field of 1 to 10 bytes that comes in time and is closed by the end
    delimiter is handed to [atol] and returned as a signed 32-bit integer:
    for a field made of an optional minus sign and decimal digits whose
    number fits a [long], the value returned is that number.  When 11 bytes
    come before any end delimiter the buffer is full, nothing is parsed, the
    sentinel -1 is returned and the 11 bytes are gone: the drain loop starts
    on the bytes behind them. *)
Theorem getCameraInfoInt_field_width searchStartTag searchEndTag numberSkips
    searchSkipTag (w w1 : World Dev) :
  let w0 := wait_for 1 (millis w) 5000 (sendCommand respond get_info w) in
  let w2 := skip_fields (Z.to_nat (u8 numberSkips)) searchSkipTag
              (setTimeout 15 w1) in
  let result := fst (getCameraInfoInt respond searchStartTag searchEndTag
                       numberSkips searchSkipTag w) in
  let after := snd (getCameraInfoInt respond searchStartTag searchEndTag
                      numberSkips searchSkipTag w) in
  find searchStartTag w0 = (true, w1) ->
  (forall field a_e c_e rest,
     rx w2 = field ++ (a_e, c_e) :: rest ->
     prompt 15 (now w2) (field ++ [(a_e, c_e)]) = true ->
     Forall (fun p => u8 (snd p) <> searchEndTag) field ->
     u8 c_e = searchEndTag ->
     (1 <= length field <= 10)%nat ->
     result = s32 (atol (rx_bytes field)) /\
     (forall (negative : bool) ds,
        rx_bytes field = (if negative then [45] else []) ++ ds ->
        ds <> [] -> Forall (fun c => is_digit c = true) ds ->
        let v := if negative then - decimal ds else decimal ds in
        - 2 ^ 31 <= v < 2 ^ 31 ->
        result = v)) /\
  (forall field rest,
     rx w2 = field ++ rest ->
     prompt 15 (now w2) field = true ->
     Forall (fun p => u8 (snd p) <> searchEndTag) field ->
     length field = 11%nat ->
     result = -1 /\
     after = setTimeout (u32 (read_timeout w1))
               (drain_info
                  (mkWorld (fold_left (fun t p => Z.max t (fst p)) field (now w2))
                     rest 15 (dev w2)))).
Proof.
  intros w0 w2 result after Hfind.
  assert (Ht : read_timeout w2 = 15).
  { subst w2. rewrite skip_fields_timeout. reflexivity. }
  assert (Hres : (result, after) =
    let '(buf, w3) := readBytesUntil searchEndTag 11 w2 in
    let bytes_read := Z.of_nat (length buf) in
    (s32 (if (0 <? bytes_read) && (bytes_read <? 11) then u32 (atol buf)
          else u32 (-1)),
     setTimeout (u32 (read_timeout w1)) (drain_info w3))).
  { subst result after. unfold getCameraInfoInt. fold w0. rewrite Hfind.
    cbn [negb]. fold w2.
    destruct (readBytesUntil searchEndTag 11 w2) as [buf w3]. reflexivity. }
  split.
  - intros field a_e c_e rest Hrx Hp Hne He Hlen.
    assert (Hr : result = s32 (atol (rx_bytes field))).
    { apply (f_equal fst) in Hres. cbn [fst] in Hres. rewrite Hres.
      destruct w2 as [t l tmo d]. simpl in Hrx, Ht, Hp. subst l tmo.
      pose proof (readBytesUntil_field searchEndTag field 11 t 15 d a_e c_e
                    rest Hp Hne He ltac:(lia)) as Hf.
      destruct (readBytesUntil searchEndTag 11 _) as [buf w3].
      cbn [fst] in Hf |- *. subst buf. rewrite rx_bytes_length.
      destruct (Z.ltb_spec 0 (Z.of_nat (length field))); [|lia].
      destruct (Z.ltb_spec (Z.of_nat (length field)) 11); [|lia].
      simpl. apply s32_u32. }
    split; [exact Hr|].
    intros negative ds Hfield Hds Hdig v Hv. rewrite Hr, Hfield.
    pose proof (atol_number_signed negative ds Hds Hdig) as Hn. fold v in Hn.
    rewrite atol_fits by (rewrite Hn; exact Hv).
    rewrite Hn. apply s32_fits. exact Hv.
  - intros field rest Hrx Hp Hne Hlen.
    destruct w2 as [t l tmo d]. simpl in Hrx, Ht, Hp. subst l tmo.
    cbn [now dev].
    pose proof (readBytesUntil_full_world searchEndTag field t 15 d rest Hp Hne)
      as Hf.
    rewrite Hlen in Hf. rewrite Hf in Hres.
    rewrite rx_bytes_length, Hlen in Hres. cbn [length] in Hres.
    injection Hres as -> ->. split; reflexivity.
Qed.

(** ** Classification of responses *)

Lemma no_match_nil r1 r2 r3 r4 data : no_match r1 r2 r3 r4 data [].
Proof. intros k Hk. simpl in Hk. lia. Qed.

Lemma no_match_app r1 r2 r3 r4 data a1 a2 :
  no_match r1 r2 r3 r4 data a1 ->
  no_match r1 r2 r3 r4 (data ++ a1) a2 ->
  no_match r1 r2 r3 r4 data (a1 ++ a2).
Proof.
  intros H1 H2 k Hk. rewrite length_app in Hk.
  destruct (le_lt_dec k (length a1)) as [Hle|Hgt].
  - rewrite take_app_le by exact Hle. apply H1. lia.
  - rewrite take_app_ge by lia. rewrite app_assoc. apply H2. lia.
Qed.

Lemma no_match_cons r1 r2 r3 r4 data a acc :
  match_index r1 r2 r3 r4 (data ++ [a]) = 0 ->
  no_match r1 r2 r3 r4 (data ++ [a]) acc ->
  no_match r1 r2 r3 r4 data (a :: acc).
Proof.
  intros H1 H2. change (a :: acc) with ([a] ++ acc).
  apply no_match_app; [|exact H2].
  intros k Hk. simpl in Hk. assert (k = 1%nat) as -> by lia. exact H1.
Qed.

Lemma classified_app r1 r2 r3 r4 data a1 data1 a2 index data2 :
  classified r1 r2 r3 r4 data a1 0 data1 ->
  classified r1 r2 r3 r4 data1 a2 index data2 ->
  classified r1 r2 r3 r4 data (a1 ++ a2) index data2.
Proof.
  intros (E1 & N1 & _) (E2 & N2 & M2). subst data1.
  split; [rewrite E2, app_assoc; reflexivity|]. split.
  - intros Hi. apply no_match_app; [apply N1; reflexivity | apply N2; exact Hi].
  - intros Hi. destruct (M2 Hi) as (acc' & a & Ea & Hn & Hm).
    exists (a1 ++ acc'), a. split; [rewrite Ea, app_assoc; reflexivity|].
    split; [apply no_match_app; [apply N1; reflexivity | exact Hn]|].
    rewrite app_assoc. exact Hm.
Qed.

(** One pass of the inner loop. *)
Lemma read_available_spec r1 r2 r3 r4 t : forall l data,
  let '(index, data', l') := read_available r1 r2 r3 r4 t data l in
  exists consumed,
    l = consumed ++ l' /\
    classified r1 r2 r3 r4 data (accepted consumed) index data' /\
    (index = 0 -> arrived t l' = 0%nat) /\
    (length l' <= length l)%nat /\
    ((0 < arrived t l)%nat -> (length l' < length l)%nat).
Proof.
  induction l as [|[arrival c] l IH]; intros data.
  - simpl. exists []. repeat split; simpl; try lia.
    + rewrite app_nil_r. reflexivity.
    + intros _. apply no_match_nil.
  - simpl. destruct (Z.leb_spec arrival t) as [Ha|Ha].
    + destruct (Z.leb_spec (s8 (u8 c)) 0) as [Hs|Hs].
      * specialize (IH data).
        destruct (read_available r1 r2 r3 r4 t data l) as [[index data'] l'].
        destruct IH as (consumed & El & Hc & Harr & Hlen & _).
        exists ((arrival, c) :: consumed). simpl.
        destruct (Z.leb_spec (s8 (u8 c)) 0); [|lia].
        repeat split; try assumption; try lia; try apply Hc.
        rewrite El. reflexivity.
      * destruct (Z.eqb_spec (match_index r1 r2 r3 r4 (data ++ [s8 (u8 c)])) 0)
          as [Hm|Hm].
        -- specialize (IH (data ++ [s8 (u8 c)])).
           destruct (read_available r1 r2 r3 r4 t (data ++ [s8 (u8 c)]) l)
             as [[index data'] l'].
           destruct IH as (consumed & El & (E & N & M) & Harr & Hlen & _).
           exists ((arrival, c) :: consumed). simpl.
           destruct (Z.leb_spec (s8 (u8 c)) 0); [lia|].
           split; [rewrite El; reflexivity|]. split; [|repeat split; try assumption; lia].
           split; [rewrite E, <- app_assoc; reflexivity|]. split.
           ++ intros Hi. apply no_match_cons; [exact Hm | apply N; exact Hi].
           ++ intros Hi. destruct (M Hi) as (acc' & a & Ea & Hn & Hx).
              exists (s8 (u8 c) :: acc'), a. split; [rewrite Ea; reflexivity|].
              split; [apply no_match_cons; assumption|].
              rewrite <- Hx, <- app_assoc. reflexivity.
        -- exists [(arrival, c)]. simpl.
           destruct (Z.leb_spec (s8 (u8 c)) 0); [lia|].
           split; [reflexivity|]. split; [|repeat split; try lia; intros; contradiction].
           split; [reflexivity|]. split; [intros; contradiction|].
           intros _. exists [], (s8 (u8 c)). split; [reflexivity|].
           split; [apply no_match_nil | reflexivity].
    + exists []. simpl. split; [reflexivity|]. split.
      * split; [rewrite app_nil_r; reflexivity|].
        split; [intros _; apply no_match_nil | intros; contradiction].
      * destruct (Z.leb_spec arrival t); [lia|]. repeat split; lia.
Qed.

Lemma accepted_app l1 l2 : accepted (l1 ++ l2) = accepted l1 ++ accepted l2.
Proof.
  induction l1 as [|[a c] l1 IH]; simpl; [reflexivity|].
  destruct (s8 (u8 c) <=? 0); rewrite IH; reflexivity.
Qed.

(** All the passes of the outer loop together. *)
Lemma waitResponse_loop_spec r1 r2 r3 r4 start timeout :
  forall fuel data (w : World Dev),
  let '(index, data', w') :=
    waitResponse_loop fuel start timeout r1 r2 r3 r4 data w in
  exists consumed,
    rx w = consumed ++ rx w' /\
    classified r1 r2 r3 r4 data (accepted consumed) index data'.
Proof.
  induction fuel as [|fuel IH]; intros data w; cbn [waitResponse_loop];
    pose proof (read_available_spec r1 r2 r3 r4 (now w) (rx w) data) as Hp;
    destruct (read_available r1 r2 r3 r4 (now w) data (rx w))
      as [[index data1] l1];
    destruct Hp as (consumed & El & Hc & _);
    (destruct (Z.eqb_spec index 0) as [Hi|Hi]; cbn [negb];
     [subst index | exists consumed; split; assumption]).
  - destruct (elapsed (set_rx l1 w) start <? timeout);
      exists consumed; split; assumption.
  - destruct (elapsed (set_rx l1 w) start <? timeout);
      [|exists consumed; split; assumption].
    specialize (IH data1 (wait_for 1 start timeout (set_rx l1 w))).
    destruct (waitResponse_loop fuel start timeout r1 r2 r3 r4 data1 _)
      as [[index data2] w2].
    destruct IH as (consumed2 & El2 & Hc2).
    rewrite wait_for_rx in El2. simpl in El2.
    exists (consumed ++ consumed2). split.
    + rewrite El, El2, app_assoc. reflexivity.
    + rewrite accepted_app. eapply classified_app; eassumption.
Qed.

Lemma elapsed_at_deadline (w : World Dev) start limit :
  0 <= limit < 2 ^ 32 ->
  elapsed (set_now (now w + (limit - elapsed w start)) w) start = limit.
Proof.
  intros Hl. unfold elapsed, millis, u32. simpl.
  rewrite !Zminus_mod_idemp_l.
  replace (now w + (limit - (now w - start) mod 2 ^ 32) - start)
    with (limit + ((now w - start) / 2 ^ 32) * 2 ^ 32).
  - rewrite Z_mod_plus_full. apply Z.mod_small. exact Hl.
  - pose proof (Z_div_mod_eq_full (now w - start) (2 ^ 32)). lia.
Qed.

Lemma arrived_head t a c (l : list (Z * Z)) :
  a <= t -> (0 < arrived t ((a, c) :: l))%nat.
Proof. intros H. simpl. destruct (Z.leb_spec a t); lia. Qed.

(** The passes do not run out: a scan that finds nothing ends at the
    deadline. *)
Lemma waitResponse_loop_deadline r1 r2 r3 r4 start timeout :
  0 <= timeout < 2 ^ 32 ->
  forall fuel data (w : World Dev),
  enough_passes fuel start timeout w ->
  let '(index, _, w') :=
    waitResponse_loop fuel start timeout r1 r2 r3 r4 data w in
  index = 0 -> timeout <= elapsed w' start.
Proof.
  intros Ht.
  induction fuel as [|fuel IH]; intros data w Hinv; cbn [waitResponse_loop];
    pose proof (read_available_spec r1 r2 r3 r4 (now w) (rx w) data) as Hp;
    destruct (read_available r1 r2 r3 r4 (now w) data (rx w))
      as [[index data1] l1];
    destruct Hp as (consumed & El & Hc & Harr & Hlen & Hlt);
    (destruct (Z.eqb_spec index 0) as [Hi|Hi]; cbn [negb];
     [subst index | intros; contradiction]);
    specialize (Harr eq_refl);
    (destruct (Z.ltb_spec (elapsed (set_rx l1 w) start) timeout) as [He|He];
     [|intros _; exact He]).
  - exfalso. destruct Hinv as [H|[[H1 H2]|[H1 H2]]].
    + lia.
    + specialize (Hlt H2). lia.
    + change (elapsed (set_rx l1 w) start) with (elapsed w start) in He. lia.
  - assert (Hl1 : (length l1 <= fuel)%nat \/ elapsed w start = timeout).
    { destruct Hinv as [H|[[H1 H2]|[H1 H2]]];
        [left; lia | left; specialize (Hlt H2); lia | right; exact H1]. }
    destruct Hl1 as [Hl1|Hl1];
      [|change (elapsed (set_rx l1 w) start) with (elapsed w start) in He; lia].
    set (w1 := set_rx l1 w) in *.
    assert (Hav : available w1 = 0).
    { unfold available. subst w1. simpl. rewrite Harr. reflexivity. }
    assert (Hnext : enough_passes fuel start timeout
                      (wait_for 1 start timeout w1)).
    { unfold wait_for. rewrite Hav. simpl (Z.of_nat 1 <=? 0).
      destruct (Z.leb_spec timeout (elapsed w1 start)); [lia|].
      assert (Hdl : enough_passes fuel start timeout
                 (set_now (now w1 + (timeout - elapsed w1 start)) w1) \/
               exists a c l', l1 = (a, c) :: l' /\
                 a <= now w1 + (timeout - elapsed w1 start)).
      { destruct l1 as [|[a c] l'] eqn:E1.
        - left. right. right. split; [apply elapsed_at_deadline; exact Ht|].
          reflexivity.
        - destruct (Z.leb_spec a (now w1 + (timeout - elapsed w1 start))).
          + right. exists a, c, l'. split; [reflexivity | assumption].
          + left. right. right.
            split; [apply elapsed_at_deadline; exact Ht|].
            subst w1. simpl.
            destruct (Z.leb_spec a (now w + (timeout - elapsed (set_rx ((a, c) :: l') w) start)));
              [|reflexivity].
            simpl in *. lia. }
      destruct Hdl as [Hdl|(a & c & l' & E1 & Ha)].
      - destruct (ready_at 1 (rx w1)) as [t|] eqn:Er; [|exact Hdl].
        destruct (Z.leb_spec t (now w1 + (timeout - elapsed w1 start)));
          [|exact Hdl].
        subst w1. simpl in Er. destruct l1 as [|[a c] l']; [discriminate|].
        unfold ready_at in Er. simpl in Er. injection Er as <-.
        right. left. split; [exact Hl1|].
        apply (arrived_head _ a c l'). simpl. lia.
      - subst l1. subst w1. unfold ready_at. simpl.
        destruct (Z.leb_spec a (now w + (timeout - elapsed (set_rx ((a, c) :: l') w) start)));
          [|simpl in *; lia].
        right. left. split; [exact Hl1|].
        apply (arrived_head _ a c l'). simpl. lia. }
    specialize (IH data1 _ Hnext).
    destruct (waitResponse_loop fuel start timeout r1 r2 r3 r4 data1 _)
      as [[index data2] w2].
    exact IH.
Qed.

Lemma endsWith_false data s : endsWith data (Some s) = false -> ~ s `suffix_of` data.
Proof. unfold endsWith. apply bool_decide_eq_false. Qed.

Lemma endsWith_true data r :
  endsWith data r = true -> exists s, r = Some s /\ s `suffix_of` data.
Proof.
  destruct r as [s|]; [|discriminate]. unfold endsWith.
  intros H. apply bool_decide_eq_true in H. eauto.
Qed.

Lemma match_index_zero r1 r2 r3 r4 data :
  match_index r1 r2 r3 r4 data = 0 ->
  forall j s, [r1; r2; r3; r4] !! j = Some (Some s) -> ~ s `suffix_of` data.
Proof.
  unfold match_index.
  destruct (endsWith data r1) eqn:E1; [discriminate|].
  destruct (endsWith data r2) eqn:E2; [discriminate|].
  destruct (endsWith data r3) eqn:E3; [discriminate|].
  destruct (endsWith data r4) eqn:E4; [discriminate|].
  intros _ j s Hj.
  destruct j as [|[|[|[|j]]]]; simpl in Hj; try discriminate;
    injection Hj as ->; apply endsWith_false; assumption.
Qed.

Lemma match_index_pos r1 r2 r3 r4 data :
  match_index r1 r2 r3 r4 data <> 0 ->
  1 <= match_index r1 r2 r3 r4 data <= 4 /\
  exists s,
    [r1; r2; r3; r4] !! Z.to_nat (match_index r1 r2 r3 r4 data - 1)
      = Some (Some s) /\
    s `suffix_of` data.
Proof.
  unfold match_index.
  destruct (endsWith data r1) eqn:E1;
    [|destruct (endsWith data r2) eqn:E2;
      [|destruct (endsWith data r3) eqn:E3;
        [|destruct (endsWith data r4) eqn:E4; [|intros H; contradiction]]]];
    intros _; (split; [lia|]);
    match goal with
    | H : endsWith data ?r = true |- _ =>
        destruct (endsWith_true _ _ H) as (s & -> & Hs); exists s;
        split; [reflexivity | exact Hs]
    end.
Qed.

Lemma apart_sym a b : apart a b = apart b a.
Proof. destruct a, b; simpl; try reflexivity. apply andb_comm. Qed.

Lemma apart_from_lookup r rs j r' :
  apart_from r rs = true -> rs !! j = Some r' -> apart r r' = true.
Proof.
  revert j. induction rs as [|x rs IH]; intros j H Hj; [destruct j; discriminate|].
  simpl in H. apply andb_true_iff in H as [H1 H2].
  destruct j as [|j]; simpl in Hj.
  - injection Hj as ->. exact H1.
  - eapply IH; eassumption.
Qed.

Lemma pairwise_lookup rs : forall i j a b,
  pairwise_non_suffix rs = true -> (i < j)%nat ->
  rs !! i = Some a -> rs !! j = Some b -> apart a b = true.
Proof.
  induction rs as [|x rs IH]; intros i j a b H Hij Hi Hj;
    [destruct i; discriminate|].
  simpl in H. apply andb_true_iff in H as [H1 H2].
  destruct j as [|j]; [lia|]. simpl in Hj.
  destruct i as [|i]; simpl in Hi.
  - injection Hi as ->. eapply apart_from_lookup; eassumption.
  - apply (IH i j); [assumption | lia | assumption | assumption].
Qed.

(** With terminators that are pairwise not suffixes of each other, at most one
    of them ends a given buffer. *)
Lemma one_terminator_matches rs i j s t data :
  pairwise_non_suffix rs = true ->
  rs !! i = Some (Some s) -> rs !! j = Some (Some t) ->
  s `suffix_of` data -> t `suffix_of` data -> i = j.
Proof.
  intros Hp Hi Hj Hs Ht.
  destruct (lt_eq_lt_dec i j) as [[Hlt|Heq]|Hgt]; [|exact Heq|]; exfalso.
  - pose proof (pairwise_lookup rs i j _ _ Hp Hlt Hi Hj) as Ha.
    simpl in Ha. apply andb_true_iff in Ha as [Ha1 Ha2].
    apply negb_true_iff, bool_decide_eq_false in Ha1.
    apply negb_true_iff, bool_decide_eq_false in Ha2.
    destruct (suffix_weak_total _ _ _ Hs Ht); contradiction.
  - pose proof (pairwise_lookup rs j i _ _ Hp Hgt Hj Hi) as Ha.
    simpl in Ha. apply andb_true_iff in Ha as [Ha1 Ha2].
    apply negb_true_iff, bool_decide_eq_false in Ha1.
    apply negb_true_iff, bool_decide_eq_false in Ha2.
    destruct (suffix_weak_total _ _ _ Hs Ht); contradiction.
Qed.

Lemma elapsed_shift (w : World Dev) start delta :
  elapsed (set_now (now w + delta) w) start = u32 (elapsed w start + delta).
Proof.
  unfold elapsed, millis. cbn [now set_now]. unfold u32.
  rewrite Zminus_mod_idemp_l, Zplus_mod_idemp_l.
  replace (now w mod 2 ^ 32 - start + delta)
    with (now w mod 2 ^ 32 + (delta - start)) by lia.
  rewrite Zplus_mod_idemp_l. f_equal. lia.
Qed.

(** A busy-wait moves the clock forward, by no more than what is left of its
    limit. *)
Lemma wait_for_shift n start limit (w : World Dev) :
  exists delta,
    wait_for n start limit w = set_now (now w + delta) w /\
    0 <= delta /\
    (0 < delta -> elapsed w start < limit /\ delta <= limit - elapsed w start).
Proof.
  unfold wait_for.
  destruct (Z.of_nat n <=? available w).
  { exists 0. rewrite Z.add_0_r, set_now_same. repeat split; lia. }
  destruct (Z.leb_spec limit (elapsed w start)).
  { exists 0. rewrite Z.add_0_r, set_now_same. repeat split; lia. }
  assert (Hd : exists delta,
             set_now (now w + (limit - elapsed w start)) w
             = set_now (now w + delta) w /\ 0 <= delta /\
             (0 < delta -> elapsed w start < limit /\
                           delta <= limit - elapsed w start)).
  { exists (limit - elapsed w start). repeat split; lia. }
  destruct (ready_at n (rx w)) as [t|]; [|exact Hd].
  destruct (Z.leb_spec t (now w + (limit - elapsed w start))); [|exact Hd].
  exists (Z.max (now w) t - now w).
  replace (now w + (Z.max (now w) t - now w)) with (Z.max (now w) t) by lia.
  repeat split; lia.
Qed.

Lemma waitResponse_loop_bounded r1 r2 r3 r4 start timeout now0 :
  0 <= timeout < 2 ^ 32 ->
  forall fuel data (w : World Dev),
  elapsed w start = now w - now0 ->
  0 <= now w - now0 <= timeout ->
  let w' := snd (waitResponse_loop fuel start timeout r1 r2 r3 r4 data w) in
  now w <= now w' <= now0 + timeout.
Proof.
  intros Ht.
  induction fuel as [|fuel IH]; intros data w He Hn; cbn [waitResponse_loop];
    destruct (read_available r1 r2 r3 r4 (now w) data (rx w))
      as [[index data1] l1];
    destruct (negb (index =? 0)); try (simpl; lia);
    change (elapsed (set_rx l1 w) start) with (elapsed w start);
    destruct (Z.ltb_spec (elapsed w start) timeout); try (simpl; lia).
  destruct (wait_for_shift 1 start timeout (set_rx l1 w))
    as (delta & Hw & Hd0 & Hd).
  rewrite Hw.
  change (elapsed (set_rx l1 w) start) with (elapsed w start) in Hd.
  assert (Hdl : delta <= timeout - elapsed w start).
  { destruct (Z.eq_dec delta 0); [lia|]. apply Hd. lia. }
  cbv zeta in IH.
  specialize (IH data1 (set_now (now (set_rx l1 w) + delta) (set_rx l1 w))).
  simpl now in IH. 
  assert (He' : elapsed (set_now (now w + delta) (set_rx l1 w)) start
                = now w + delta - now0).
  { change (now w) with (now (set_rx l1 w)) at 1.
    rewrite elapsed_shift.
    change (elapsed (set_rx l1 w) start) with (elapsed w start).
    rewrite He. rewrite u32_small by lia. lia. }
  specialize (IH He' ltac:(lia)). simpl now. lia.
Qed.

Lemma elapsed_since (w : World Dev) t0 :
  0 <= now w - t0 < 2 ^ 32 -> elapsed w (u32 t0) = now w - t0.
Proof.
  intros H. unfold elapsed, millis, u32.
  rewrite <- Zminus_mod. apply Z.mod_small. exact H.
Qed.

(** One pass of the inner loop reads bytes that have arrived and stops right
    after the byte that completes a terminator. *)
Lemma read_available_exact r1 r2 r3 r4 t : forall l data,
  let '(index, data', l') := read_available r1 r2 r3 r4 t data l in
  exists consumed,
    l = consumed ++ l' /\
    Forall (fun p => fst p <= t) consumed /\
    (index <> 0 ->
     exists pre a c, consumed = pre ++ [(a, c)] /\ 0 < s8 (u8 c)) /\
    (index = 0 -> arrived t l' = 0%nat).
Proof.
  induction l as [|[arrival c] l IH]; intros data.
  - simpl. exists []. repeat split; [constructor | intros H; congruence].
  - simpl. destruct (Z.leb_spec arrival t) as [Ha|Ha].
    + destruct (Z.leb_spec (s8 (u8 c)) 0) as [Hs|Hs].
      * specialize (IH data).
        destruct (read_available r1 r2 r3 r4 t data l) as [[index data'] l'].
        destruct IH as (consumed & El & Harr & Hend & Hidle).
        exists ((arrival, c) :: consumed).
        split; [rewrite El; reflexivity|].
        split; [constructor; [exact Ha | exact Harr]|].
        split; [|exact Hidle].
        intros Hi. destruct (Hend Hi) as (pre & a' & c' & -> & Hc').
        exists ((arrival, c) :: pre), a', c'. split; [reflexivity | exact Hc'].
      * destruct (Z.eqb_spec (match_index r1 r2 r3 r4 (data ++ [s8 (u8 c)])) 0)
          as [Hm|Hm].
        -- specialize (IH (data ++ [s8 (u8 c)])).
           destruct (read_available r1 r2 r3 r4 t (data ++ [s8 (u8 c)]) l)
             as [[index data'] l'].
           destruct IH as (consumed & El & Harr & Hend & Hidle).
           exists ((arrival, c) :: consumed).
           split; [rewrite El; reflexivity|].
           split; [constructor; [exact Ha | exact Harr]|].
           split; [|exact Hidle].
           intros Hi. destruct (Hend Hi) as (pre & a' & c' & -> & Hc').
           exists ((arrival, c) :: pre), a', c'.
           split; [reflexivity | exact Hc'].
        -- exists [(arrival, c)].
           split; [reflexivity|].
           split; [constructor; [exact Ha | constructor]|].
           split; [|intros H; contradiction].
           intros _. exists [], arrival, c. split; [reflexivity | exact Hs].
    + exists []. split; [reflexivity|]. split; [constructor|].
      split; [intros H; congruence|]. intros _. simpl.
      destruct (Z.leb_spec arrival t); [lia | reflexivity].
Qed.

(** All the passes: what was read had arrived when the loop was left, a
    match ends the reading, and a loop left without a match leaves nothing
    that has arrived. *)
Lemma waitResponse_loop_exact r1 r2 r3 r4 start timeout :
  forall fuel data (w : World Dev),
  let '(index, data', w') :=
    waitResponse_loop fuel start timeout r1 r2 r3 r4 data w in
  exists consumed,
    rx w = consumed ++ rx w' /\
    Forall (fun p => fst p <= now w') consumed /\
    now w <= now w' /\
    (index <> 0 ->
     exists pre a c, consumed = pre ++ [(a, c)] /\ 0 < s8 (u8 c)) /\
    (index = 0 -> arrived (now w') (rx w') = 0%nat).
Proof.
  assert (Hdone : forall data (w : World Dev) index data1 l1,
            read_available r1 r2 r3 r4 (now w) data (rx w) = (index, data1, l1) ->
            exists consumed,
              rx w = consumed ++ rx (set_rx l1 w) /\
              Forall (fun p => fst p <= now (set_rx l1 w)) consumed /\
              now w <= now (set_rx l1 w) /\
              (index <> 0 ->
               exists pre a c, consumed = pre ++ [(a, c)] /\ 0 < s8 (u8 c)) /\
              (index = 0 -> arrived (now (set_rx l1 w)) (rx (set_rx l1 w)) = 0%nat)).
  { intros data w index data1 l1 E.
    pose proof (read_available_exact r1 r2 r3 r4 (now w) (rx w) data) as H.
    rewrite E in H. destruct H as (consumed & El & Harr & Hend & Hidle).
    exists consumed. cbn [set_rx rx now]. repeat split; try assumption. lia. }
  induction fuel as [|fuel IH]; intros data w; cbn [waitResponse_loop];
    destruct (read_available r1 r2 r3 r4 (now w) data (rx w))
      as [[index data1] l1] eqn:E;
    pose proof (Hdone data w index data1 l1 E) as Hd;
    (destruct (Z.eqb_spec index 0) as [Hi|Hi]; cbn [negb];
     [subst index | exact Hd]).
  - destruct (elapsed (set_rx l1 w) start <? timeout); exact Hd.
  - destruct (elapsed (set_rx l1 w) start <? timeout); [|exact Hd].
    specialize (IH data1 (wait_for 1 start timeout (set_rx l1 w))).
    pose proof (wait_for_rx 1 start timeout (set_rx l1 w)) as Hwrx.
    pose proof (wait_for_shift 1 start timeout (set_rx l1 w))
      as (delta & Hw & Hd0 & _).
    assert (Hwnow : now (set_rx l1 w)
                    <= now (wait_for 1 start timeout (set_rx l1 w)))
      by (rewrite Hw; simpl; lia).
    destruct (waitResponse_loop fuel start timeout r1 r2 r3 r4 data1 _)
      as [[index2 data2] w2].
    destruct Hd as (consumed & El & Harr & Hmono & _ & _).
    destruct IH as (consumed2 & El2 & Harr2 & Hmono2 & Hend2 & Hidle2).
    rewrite Hwrx in El2. cbn [set_rx rx now] in *.
    exists (consumed ++ consumed2).
    split; [rewrite El, El2, app_assoc; reflexivity|].
    split.
    { apply Forall_app. split; [|exact Harr2].
      eapply Forall_impl; [exact Harr|]. simpl. intros. lia. }
    split; [lia|]. split; [|exact Hidle2].
    intros Hi2. destruct (Hend2 Hi2) as (pre & a & c & -> & Hc).
    exists (consumed ++ pre), a, c. rewrite app_assoc. split; [reflexivity|exact Hc].
Qed.

Lemma match_index_none r1 r2 r3 r4 data :
  (forall j s, [r1; r2; r3; r4] !! j = Some (Some s) -> ~ s `suffix_of` data) ->
  match_index r1 r2 r3 r4 data = 0.
Proof.
  intros H. unfold match_index.
  destruct (endsWith data r1) eqn:E1;
    [destruct (endsWith_true _ _ E1) as (s & -> & Hs);
     exfalso; exact (H 0%nat s eq_refl Hs)|].
  destruct (endsWith data r2) eqn:E2;
    [destruct (endsWith_true _ _ E2) as (s & -> & Hs);
     exfalso; exact (H 1%nat s eq_refl Hs)|].
  destruct (endsWith data r3) eqn:E3;
    [destruct (endsWith_true _ _ E3) as (s & -> & Hs);
     exfalso; exact (H 2%nat s eq_refl Hs)|].
  destruct (endsWith data r4) eqn:E4;
    [destruct (endsWith_true _ _ E4) as (s & -> & Hs);
     exfalso; exact (H 3%nat s eq_refl Hs)|].
  reflexivity.
Qed.

Lemma no_match_prefix r1 r2 r3 r4 data l1 l2 :
  no_match r1 r2 r3 r4 data (l1 ++ l2) -> l1 <> [] ->
  match_index r1 r2 r3 r4 (data ++ l1) = 0.
Proof.
  intros H Hne. specialize (H (length l1)).
  rewrite take_app_length in H. apply H.
  rewrite length_app. destruct l1; [contradiction|]. simpl. lia.
Qed.

Lemma accepted_snoc l a c :
  0 < s8 (u8 c) -> accepted (l ++ [(a, c)]) = accepted l ++ [s8 (u8 c)].
Proof.
  intros H. rewrite accepted_app. simpl.
  destruct (Z.leb_spec (s8 (u8 c)) 0); [lia | reflexivity].
Qed.

(** C2.  Let the terminators be pairwise not suffixes of each other and let
    the accumulated stream be the characters appended to the buffer.
    [waitResponse] reads a prefix of the bytes to come, all of which have
    arrived when it returns.  If it returns an index other than 0, the
    terminator of that index is the one and only terminator that is a suffix
    of the accumulated stream, the buffer holds that stream, and no
    terminator was a suffix after any earlier character.  If it returns 0,
    no terminator was a suffix of the accumulated stream after any
    character, the buffer is cleared, the clock is at the deadline and every
    byte that arrives before the deadline has been read.  So the first
    terminator that the characters arriving before the deadline complete
    decides: its index is returned, with the stream up to it, and the bytes
    behind it stay in the queue. *)
Theorem waitResponse_classifies timeout_ms data r1 r2 r3 r4 (w : World Dev) :
  pairwise_non_suffix [r1; r2; r3; r4] = true ->
  let deadline := now w + u32 timeout_ms in
  let '(index, data', w') := waitResponse timeout_ms data r1 r2 r3 r4 w in
  exists consumed,
    rx w = consumed ++ rx w' /\
    Forall (fun p => fst p <= now w') consumed /\
    let stream := accepted consumed in
    (index <> 0 ->
     1 <= index <= 4 /\
     (exists s, [r1; r2; r3; r4] !! Z.to_nat (index - 1) = Some (Some s) /\
                s `suffix_of` (data ++ stream)) /\
     (forall j t, [r1; r2; r3; r4] !! j = Some (Some t) ->
                  t `suffix_of` (data ++ stream) -> j = Z.to_nat (index - 1)) /\
     (forall k j t, (0 < k < length stream)%nat ->
                    [r1; r2; r3; r4] !! j = Some (Some t) ->
                    ~ t `suffix_of` (data ++ take k stream)) /\
     data' = data ++ stream) /\
    (index = 0 ->
     (forall k j t, (0 < k <= length stream)%nat ->
                    [r1; r2; r3; r4] !! j = Some (Some t) ->
                    ~ t `suffix_of` (data ++ take k stream)) /\
     u32 timeout_ms <= elapsed w' (millis w) /\
     data' = [] /\
     now w' = deadline /\
     (forall a c l, rx w' = (a, c) :: l -> deadline <= a)) /\
    (forall pre a c post j t,
       rx w = pre ++ (a, c) :: post ->
       Forall (fun p => fst p < deadline) (pre ++ [(a, c)]) ->
       0 < s8 (u8 c) ->
       [r1; r2; r3; r4] !! j = Some (Some t) ->
       t `suffix_of` (data ++ accepted (pre ++ [(a, c)])) ->
       (forall k j' t', (0 < k <= length (accepted pre))%nat ->
                        [r1; r2; r3; r4] !! j' = Some (Some t') ->
                        ~ t' `suffix_of` (data ++ take k (accepted pre))) ->
       index = Z.of_nat j + 1 /\
       data' = data ++ accepted (pre ++ [(a, c)]) /\
       rx w' = post).
Proof.
  intros Hp deadline. unfold waitResponse.
  pose proof (u32_range timeout_ms) as Htm.
  pose proof (waitResponse_loop_spec r1 r2 r3 r4 (millis w) (u32 timeout_ms)
                (S (length (rx w))) data w) as Hs.
  pose proof (waitResponse_loop_exact r1 r2 r3 r4 (millis w) (u32 timeout_ms)
                (S (length (rx w))) data w) as Hx.
  pose proof (waitResponse_loop_deadline r1 r2 r3 r4 (millis w) (u32 timeout_ms)
                Htm (S (length (rx w))) data w) as Hd.
  pose proof (waitResponse_loop_bounded r1 r2 r3 r4 (millis w) (u32 timeout_ms)
                (now w) Htm (S (length (rx w))) data w) as Hb.
  cbv zeta in Hb.
  destruct (waitResponse_loop (S (length (rx w))) (millis w) (u32 timeout_ms)
              r1 r2 r3 r4 data w) as [[index data1] w1].
  cbn [snd] in Hb.
  assert (He0 : elapsed w (millis w) = now w - now w)
    by (unfold elapsed; rewrite !Z.sub_diag; reflexivity).
  specialize (Hb He0 ltac:(lia)).
  destruct Hs as (consumed & El & E & N & M).
  destruct Hx as (consumed' & El' & Harr & _ & Hend & Hidle).
  assert (consumed' = consumed) as ->.
  { apply (app_inv_tail (rx w1)). rewrite <- El, <- El'. reflexivity. }
  specialize (Hd ltac:(left; lia)).
  (* a loop left without a match is left at the deadline *)
  assert (Hnow : index = 0 -> now w1 = deadline).
  { intros Hi. specialize (Hd Hi).
    change (millis w) with (u32 (now w)) in Hd.
    rewrite elapsed_since in Hd by lia. subst deadline. lia. }
  assert (Hlate : index = 0 -> forall a c l, rx w1 = (a, c) :: l -> deadline < a).
  { intros Hi a c l Hrx. specialize (Hidle Hi). rewrite Hrx in Hidle.
    simpl in Hidle. rewrite (Hnow Hi) in Hidle.
    destruct (Z.leb_spec a deadline); [discriminate | lia]. }
  (* the first terminator completed before the deadline decides *)
  assert (Hfirst : forall pre a c post j t,
            rx w = pre ++ (a, c) :: post ->
            Forall (fun p => fst p < deadline) (pre ++ [(a, c)]) ->
            0 < s8 (u8 c) ->
            [r1; r2; r3; r4] !! j = Some (Some t) ->
            t `suffix_of` (data ++ accepted (pre ++ [(a, c)])) ->
            (forall k j' t', (0 < k <= length (accepted pre))%nat ->
                             [r1; r2; r3; r4] !! j' = Some (Some t') ->
                             ~ t' `suffix_of` (data ++ take k (accepted pre))) ->
            index <> 0 /\ index = Z.of_nat j + 1 /\
            data1 = data ++ accepted (pre ++ [(a, c)]) /\ rx w1 = post).
  { intros pre a c post j t Hrx Hin Hc Hj Hsuf Hearly.
    assert (Hno : no_match r1 r2 r3 r4 data (accepted pre)).
    { intros k Hk. apply match_index_none. intros j' t' Hj'.
      apply (Hearly k j' t' Hk Hj'). }
    assert (Hm : match_index r1 r2 r3 r4 (data ++ accepted (pre ++ [(a, c)]))
                 = Z.of_nat j + 1).
    { assert (Hne : match_index r1 r2 r3 r4
                      (data ++ accepted (pre ++ [(a, c)])) <> 0).
      { intros H0. exact (match_index_zero _ _ _ _ _ H0 j t Hj Hsuf). }
      destruct (match_index_pos _ _ _ _ _ Hne) as (Hr & s & Hl & Hs).
      pose proof (one_terminator_matches _ _ _ _ _ _ Hp Hj Hl Hsuf Hs) as Ej.
      lia. }
    assert (Hmne : match_index r1 r2 r3 r4 (data ++ accepted (pre ++ [(a, c)]))
                   <> 0) by lia.
    rewrite accepted_snoc in Hm, Hmne by exact Hc.
    assert (Hsplit : consumed ++ rx w1 = (pre ++ [(a, c)]) ++ post).
    { rewrite <- El, Hrx, <- app_assoc. reflexivity. }
    (* reading went at least as far as the completing byte *)
    assert (Hfar : forall k : list (Z * Z),
              no_match r1 r2 r3 r4 data (accepted pre ++ [s8 (u8 c)] ++ accepted k)
              -> False).
    { intros k Hn. apply Hmne.
      rewrite app_assoc in Hn.
      apply (no_match_prefix _ _ _ _ _ _ _ Hn).
      destruct (accepted pre); discriminate. }
    destruct (Z.eq_dec index 0) as [Hi|Hi].
    - exfalso. specialize (N Hi).
      apply app_eq_inv in Hsplit as [(k & Ek & _)|(k & Ek & Ek')].
      + apply (Hfar k). rewrite Ek, accepted_app, accepted_snoc in N by exact Hc.
        rewrite <- app_assoc in N. exact N.
      + destruct k as [|[ya yc] k].
        * rewrite app_nil_r in Ek. apply (Hfar []).
          rewrite <- Ek, accepted_snoc in N by exact Hc. exact N.
        * pose proof (Hlate Hi ya yc (k ++ post) Ek') as Hy.
          rewrite Ek in Hin. apply Forall_app in Hin as [_ Hin].
          inversion Hin as [|? ? Hy' _]; subst. simpl in Hy'. lia.
    - split; [exact Hi|].
      destruct (M Hi) as (acc' & a' & Ea & Hn' & Hmi).
      destruct (Hend Hi) as (cpre & ca & cc & Ec & Hcc).
      rewrite Ec, accepted_snoc in Ea by exact Hcc.
      apply app_inj_tail in Ea as [Eacc _].
      apply app_eq_inv in Hsplit as [(k & Ek & Ek')|(k & Ek & Ek')].
      + destruct k as [|y k].
        * rewrite app_nil_r in Ek. simpl in Ek'. subst post.
          rewrite Ek, accepted_snoc in Hmi, E by exact Hc.
          rewrite accepted_snoc by exact Hc.
          split; [rewrite <- Hmi; exact Hm|]. split; [exact E | reflexivity].
        * exfalso.
          destruct (exists_last (l := y :: k) ltac:(discriminate))
            as (k' & z & Ez).
          rewrite Ez in Ek. rewrite Ec, app_assoc in Ek.
          apply app_inj_tail in Ek as [Ecp _].
          apply (Hfar k').
          rewrite <- Eacc in Hn'. rewrite Ecp, accepted_app, accepted_snoc in Hn'
            by exact Hc.
          rewrite <- app_assoc in Hn'. exact Hn'.
      + destruct k as [|y k].
        * rewrite app_nil_r in Ek. simpl in Ek'. subst post.
          rewrite <- Ek, accepted_snoc in Hmi, E by exact Hc.
          rewrite accepted_snoc by exact Hc.
          split; [rewrite <- Hmi; exact Hm|]. split; [exact E | reflexivity].
        * exfalso.
          destruct (exists_last (l := y :: k) ltac:(discriminate))
            as (k' & z & Ez).
          rewrite Ez, app_assoc in Ek.
          apply app_inj_tail in Ek as [Epre _].
          rewrite Epre, accepted_app in Hno.
          apply Hi. rewrite <- Hmi.
          apply (no_match_prefix _ _ _ _ _ _ _ Hno).
          rewrite Ec, accepted_snoc by exact Hcc.
          destruct (accepted cpre); discriminate. }
  destruct (Z.eqb_spec index 0) as [Hi|Hi].
  - exists consumed. split; [exact El|]. split; [exact Harr|]. cbv zeta.
    split; [intros; contradiction|]. split.
    + intros _. split; [|split; [|split; [reflexivity|split]]].
      * intros k j t Hk Hj. eapply match_index_zero; [|exact Hj].
        apply N; assumption.
      * apply Hd. exact Hi.
      * apply Hnow. exact Hi.
      * intros a c l Hrx. pose proof (Hlate Hi a c l Hrx). lia.
    + intros pre a c post j t Hrx Hin Hc Hj Hsuf Hearly. exfalso.
      destruct (Hfirst pre a c post j t Hrx Hin Hc Hj Hsuf Hearly) as [Hne _].
      contradiction.
  - exists consumed. split; [exact El|]. split; [exact Harr|]. cbv zeta.
    split; [|split; [intros; contradiction|]].
    + intros _. destruct (M Hi) as (acc' & a & Ea & Hn & Hm).
      assert (Hne : match_index r1 r2 r3 r4 (data ++ accepted consumed) <> 0)
        by (rewrite Hm; exact Hi).
      destruct (match_index_pos _ _ _ _ _ Hne) as (Hr & s & Hl & Hsuf).
      rewrite Hm in Hr, Hl.
      split; [exact Hr|]. split; [exists s; split; assumption|].
      split; [|split; [|exact E]].
      * intros j t Hj Ht.
        exact (one_terminator_matches _ _ _ _ _ _ Hp Hj Hl Ht Hsuf).
      * intros k j t Hk Hj. rewrite Ea in Hk |- *.
        rewrite length_app in Hk. simpl in Hk.
        rewrite take_app_le by lia.
        eapply match_index_zero; [|exact Hj]. apply Hn. lia.
    + intros pre a c post j t Hrx Hin Hc Hj Hsuf Hearly.
      destruct (Hfirst pre a c post j t Hrx Hin Hc Hj Hsuf Hearly)
        as (_ & H1 & H2 & H3).
      repeat split; assumption.
Qed.

(** ** The clock *)

Lemma wait_for_now n start limit (w : World Dev) :
  now w <= now (wait_for n start limit w).
Proof.
  unfold wait_for.
  destruct (Z.of_nat n <=? available w); [lia|].
  destruct (Z.leb_spec limit (elapsed w start)); [lia|].
  destruct (ready_at n (rx w)) as [t|]; [|simpl; lia].
  destruct (t <=? _); simpl; lia.
Qed.

Lemma sendCommand_now c (w : World Dev) : now (sendCommand respond c w) = now w.
Proof. unfold sendCommand. destruct (respond _ _ _). reflexivity. Qed.

Lemma waitResponse_loop_now r1 r2 r3 r4 start timeout :
  forall fuel data (w : World Dev),
  now w <= now (snd (waitResponse_loop fuel start timeout r1 r2 r3 r4 data w)).
Proof.
  induction fuel as [|fuel IH]; intros data w; cbn [waitResponse_loop];
    destruct (read_available r1 r2 r3 r4 (now w) data (rx w))
      as [[index data1] l1];
    destruct (negb (index =? 0)); try (simpl; lia);
    destruct (elapsed (set_rx l1 w) start <? timeout); try (simpl; lia).
  specialize (IH data1 (wait_for 1 start timeout (set_rx l1 w))).
  pose proof (wait_for_now 1 start timeout (set_rx l1 w)) as Hw.
  simpl in Hw. lia.
Qed.

Lemma waitResponse_now timeout_ms data r1 r2 r3 r4 (w : World Dev) :
  now w <= now (snd (waitResponse timeout_ms data r1 r2 r3 r4 w)).
Proof.
  unfold waitResponse.
  pose proof (waitResponse_loop_now r1 r2 r3 r4 (millis w) (u32 timeout_ms)
                (S (length (rx w))) data w) as H.
  destruct (waitResponse_loop _ _ _ _ _ _ _ _ _) as [[index data1] w1].
  destruct (index =? 0); exact H.
Qed.

Lemma find_raw_now target tmo : forall l seen t,
  t <= fst (snd (find_raw target seen tmo t l)).
Proof.
  induction l as [|[a c] l IH]; intros seen t; simpl; [lia|].
  destruct (timely tmo t a); [|simpl; lia].
  destruct (bool_decide _); [simpl; lia|].
  specialize (IH (seen ++ [u8 c]) (Z.max t a)). lia.
Qed.

Lemma find_now target (w : World Dev) : now w <= now (snd (find target w)).
Proof.
  unfold find. destruct target as [|x target]; [simpl; lia|].
  pose proof (find_raw_now (x :: target) (read_timeout w) (rx w) [] (now w)) as H.
  destruct (find_raw _ _ _ _ _) as [r [t l]]. exact H.
Qed.

Lemma getStatus_now (w : World Dev) : now w <= now (snd (getStatus respond w)).
Proof.
  unfold getStatus.
  pose proof (waitResponse_now 5000 [] (Some STR_READY) (Some STR_ERR)
                (Some STR_BUSY) (Some STR_NONE)
                (sendCommand respond get_status w)) as H1.
  destruct (waitResponse _ _ _ _ _ _ _) as [[index data] w1].
  pose proof (find_now [10] w1) as H2. unfold streamFind.
  destruct (find [10] w1) as [found w2]. simpl in *.
  rewrite sendCommand_now in H1. lia.
Qed.

(** ** The readiness poller *)

(** The loop is left with a ready status or past the timeout. *)
Lemma poll_loop_exit start timeout : forall fuel status (w : World Dev),
  let '(finished, status', w') :=
    poll_loop respond fuel start timeout status w in
  finished = true ->
  is_ready status' = true \/ timeout <= elapsed w' start.
Proof.
  induction fuel as [|fuel IH]; intros status w; cbn [poll_loop].
  - destruct (is_ready status) eqn:Hr; cbn [negb andb]; [intros _; left; exact Hr|].
    destruct (Z.ltb_spec (elapsed w start) timeout); [discriminate|].
    intros _. right. assumption.
  - destruct (is_ready status) eqn:Hr; cbn [negb andb]; [intros _; left; exact Hr|].
    destruct (Z.ltb_spec (elapsed w start) timeout);
      [|intros _; right; assumption].
    destruct (getStatus respond w) as [status1 w1].
    apply IH.
Qed.

Lemma poll_loop_ready start timeout fuel status (w : World Dev) :
  is_ready status = true ->
  poll_loop respond fuel start timeout status w = (true, status, w).
Proof. intros H. destruct fuel; cbn [poll_loop]; rewrite H; reflexivity. Qed.

(** Every poll that does not end the loop costs 100 ms. *)
Lemma poll_loop_progress start timeout : forall fuel status (w : World Dev),
  let '(finished, status', w') :=
    poll_loop respond fuel start timeout status w in
  now w <= now w' /\
  (finished = false ->
   now w + 100 * Z.of_nat fuel <= now w' /\ elapsed w' start < timeout).
Proof.
  induction fuel as [|fuel IH]; intros status w; cbn [poll_loop].
  - destruct (is_ready status); cbn [negb andb]; [split; [lia | discriminate]|].
    destruct (Z.ltb_spec (elapsed w start) timeout);
      [|split; [lia | discriminate]].
    split; [lia|]. intros _. split; [lia | assumption].
  - destruct (is_ready status); cbn [negb andb]; [split; [lia | discriminate]|].
    destruct (Z.ltb_spec (elapsed w start) timeout);
      [|split; [lia | discriminate]].
    pose proof (getStatus_now w) as Hg.
    destruct (getStatus respond w) as [status1 w1]. simpl in Hg.
    destruct (is_ready status1) eqn:Hr1; cbn [negb].
    + rewrite poll_loop_ready by exact Hr1. split; [lia | discriminate].
    + specialize (IH status1 (delay 100 w1)).
      destruct (poll_loop respond fuel start timeout status1 (delay 100 w1))
        as [[finished status'] w'].
      simpl in IH. destruct IH as [IH1 IH2].
      split; [lia|]. intros Hf. specialize (IH2 Hf). lia.
Qed.

(** C8 (amended).  When [waitForReady] returns, the last status seen is OK or
    NONE and the value is the time elapsed in milliseconds, or the status is
    neither, the timeout has passed and the value is 0; so a value other than
    0 means success, while 0 is also the value of a success within the first
    clock tick.  The loop does not poll more than [timeout / 100 + 1] times
    as long as the millisecond counter does not wrap around during the
    call. *)
Theorem waitForReady_result fuel initial_delay timeout (w : World Dev) :
  (forall r status w',
     waitForReady respond fuel initial_delay timeout w = Some (r, status, w') ->
     (is_ready status = true -> r = elapsed w' (millis w)) /\
     (is_ready status = false ->
      r = 0 /\ u32 timeout <= elapsed w' (millis w)) /\
     (r <> 0 -> is_ready status = true)) /\
  (u32 timeout < 100 * Z.of_nat fuel ->
   now (snd (poll_loop respond fuel (millis w) (u32 timeout) NO_RESPONSE
               (delay (u32 initial_delay) w))) - now w < 2 ^ 32 ->
   waitForReady respond fuel initial_delay timeout w <> None).
Proof.
  unfold waitForReady.
  pose proof (poll_loop_exit (millis w) (u32 timeout) fuel NO_RESPONSE
                (delay (u32 initial_delay) w)) as He.
  pose proof (poll_loop_progress (millis w) (u32 timeout) fuel NO_RESPONSE
                (delay (u32 initial_delay) w)) as Hp.
  destruct (poll_loop respond fuel (millis w) (u32 timeout) NO_RESPONSE
              (delay (u32 initial_delay) w)) as [[finished status1] w1].
  split.
  - intros r status w' H.
    destruct finished; [|discriminate]. specialize (He eq_refl).
    destruct (is_ready status1) eqn:Hr; injection H as <- <- <-.
    + split; [intros _; reflexivity|].
      split; [rewrite Hr; discriminate | intros _; exact Hr].
    + destruct He as [He|He]; [discriminate|].
      split; [rewrite Hr; discriminate|].
      split; [intros _; split; [reflexivity | exact He]|].
      intros H0. contradiction.
  - intros Hfuel Hwrap H.
    destruct finished; [destruct (is_ready status1); discriminate|].
    destruct Hp as [Hm Hp]. destruct (Hp eq_refl) as [Hadv Hlt].
    simpl in Hwrap, Hadv, Hm.
    pose proof (u32_range initial_delay) as Hd.
    assert (Hel : elapsed w1 (millis w) = now w1 - now w).
    { unfold elapsed, millis, u32. rewrite Zminus_mod_idemp_l.
      rewrite Zminus_mod_idemp_r. apply Z.mod_small. lia. }
    lia.
Qed.

(** ** A chunk whose bytes are all there *)

Lemma available_head (w : World Dev) a c l :
  rx w = (a, c) :: l -> a <= now w -> (available w =? 0) = false.
Proof.
  intros Hrx Ha. unfold available. rewrite Hrx. simpl.
  destruct (Z.leb_spec a (now w)); [|lia]. apply Z.eqb_neq. lia.
Qed.

Lemma wait_for_available (w : World Dev) start limit a c l :
  rx w = (a, c) :: l -> a <= now w -> wait_for 1 start limit w = w.
Proof.
  intros Hrx Ha. unfold wait_for, available. rewrite Hrx. simpl arrived.
  destruct (Z.leb_spec a (now w)); [|lia].
  destruct (Z.leb_spec (Z.of_nat 1) (Z.of_nat (S (arrived (now w) l))));
    [reflexivity | lia].
Qed.

Lemma read_chunk_feed image_size start : forall bs n i bytes_read s t tmo
    (d : Dev) rest,
  Forall is_byte bs ->
  elapsed (mkWorld t rest tmo d) start <= 120000 ->
  (length bs <= n)%nat ->
  read_chunk n image_size start i bytes_read s
    (mkWorld t (map (fun b => (t, b)) bs ++ rest) tmo d)
  = read_chunk (n - length bs) image_size start (i + Z.of_nat (length bs))
      (bytes_read + Z.of_nat (length bs)) (feed image_size i bs s)
      (mkWorld t rest tmo d).
Proof.
  induction bs as [|b bs IH]; intros n i bytes_read s t tmo d rest Hb He Hn.
  - simpl. rewrite Nat.sub_0_r, !Z.add_0_r. reflexivity.
  - destruct n as [|n]; [simpl in Hn; lia|].
    inversion Hb as [|? ? Hb1 Hb2]; subst.
    cbn [read_chunk map app].
    rewrite (wait_for_available _ _ _ t b (map (fun b0 => (t, b0)) bs ++ rest))
      by (simpl; first [reflexivity | lia]).
    rewrite (available_head _ t b (map (fun b0 => (t, b0)) bs ++ rest))
      by (simpl; first [reflexivity | lia]).
    unfold read. cbn [rx now]. rewrite Z.leb_refl.
    unfold set_rx. cbn [now rx read_timeout dev].
    rewrite !(u8_small b) by exact Hb1.
    replace (120000 <? elapsed _ start) with false.
    + rewrite IH by (try assumption; simpl in Hn; lia).
      cbn [length feed]. f_equal; lia.
    + symmetry. apply Z.ltb_ge. exact He.
Qed.

(** With nothing more to come the loop waits 10 ms and breaks. *)
Lemma read_chunk_starved image_size start n i bytes_read s t tmo (d : Dev) :
  read_chunk n image_size start i bytes_read s (mkWorld t [] tmo d)
  = (bytes_read, s, mkWorld (if n is O then t else t + 10) [] tmo d).
Proof.
  destruct n as [|n]; [reflexivity|]. cbn [read_chunk].
  assert (Hw : wait_for 1 (millis (mkWorld t [] tmo d)) 10 (mkWorld t [] tmo d)
               = mkWorld (t + 10) [] tmo d).
  { unfold wait_for, available. cbn [rx arrived now].
    assert (He : elapsed (mkWorld t [] tmo d) (millis (mkWorld t [] tmo d)) = 0).
    { unfold elapsed. rewrite Z.sub_diag. reflexivity. }
    rewrite He. reflexivity. }
  rewrite Hw. reflexivity.
Qed.

(** ** Bytes that carry no end tag *)

Lemma no_end_tag_prev p q l :
  p <> 255 -> q <> 255 -> no_end_tag p l = no_end_tag q l.
Proof.
  intros Hp Hq. destruct l as [|b l]; [reflexivity|]. simpl.
  destruct (Z.eqb_spec p 255); [contradiction|].
  destruct (Z.eqb_spec q 255); [contradiction|]. reflexivity.
Qed.

Lemma no_end_tag_weaken p l :
  no_end_tag p l = true -> no_end_tag 0 l = true.
Proof.
  destruct l as [|b l]; [reflexivity|]. simpl.
  intros H. apply andb_true_iff in H as [_ H]. exact H.
Qed.

Lemma default_last_cons (p q b : Z) l :
  default p (last (b :: l)) = default q (last (b :: l)).
Proof.
  revert b. induction l as [|b' l IH]; intros b; [reflexivity|].
  rewrite !last_cons_cons. apply IH.
Qed.

Lemma no_end_tag_app l1 : forall p l2,
  no_end_tag p (l1 ++ l2) = true ->
  no_end_tag p l1 = true /\ no_end_tag (default p (last l1)) l2 = true.
Proof.
  induction l1 as [|b l1 IH]; intros p l2 H; [simpl; auto|].
  simpl in H. apply andb_true_iff in H as [H1 H2].
  destruct (IH b l2 H2) as [H3 H4]. split.
  - simpl. rewrite H1, H3. reflexivity.
  - destruct l1 as [|b' l1]; [exact H4|].
    rewrite last_cons_cons. rewrite (default_last_cons p b). exact H4.
Qed.

(** One byte, before the declared size is reached and with the flag clear. *)
Lemma process_byte_clean image_size i b s :
  xfer_ok s -> eof s = false -> is_byte b ->
  total_bytes_written s < image_size ->
  let s' := process_byte image_size i b false s in
  xfer_ok s' /\ last_byte s' = b /\
  bytes_remaining s' = bytes_remaining s /\
  sink s' = (if 2 <=? i then sink s ++ [b] else sink s) /\
  total_bytes_written s' =
    (if 2 <=? i then total_bytes_written s + 1 else total_bytes_written s) /\
  eof s' = (b =? 217) && (last_byte s =? 255).
Proof.
  intros Hok He Hb Hlt s'. subst s'.
  split; [apply process_byte_ok; assumption|].
  split; [apply process_byte_last; assumption|].
  split; [reflexivity|].
  assert (Hh : (image_size <=? total_bytes_written s) = false)
    by (apply Z.leb_gt; exact Hlt).
  split; [|split].
  - unfold process_byte. cbv zeta. simpl sink. rewrite Hh, He. simpl.
    unfold start_data_byte. destruct (2 <=? i); reflexivity.
  - unfold process_byte. cbv zeta. simpl total_bytes_written. rewrite Hh, He.
    simpl. unfold start_data_byte. destruct (2 <=? i); reflexivity.
  - rewrite process_byte_eof by exact Hok. rewrite Hh, He. simpl.
    destruct (Z.eqb_spec b 216) as [->|]; simpl;
      [destruct (last_byte s =? 255); reflexivity|].
    destruct ((b =? 217) && (last_byte s =? 255)); reflexivity.
Qed.

Lemma feed_app image_size l1 : forall i l2 s,
  feed image_size i (l1 ++ l2) s
  = feed image_size (i + Z.of_nat (length l1)) l2 (feed image_size i l1 s).
Proof.
  induction l1 as [|b l1 IH]; intros i l2 s; simpl feed.
  - simpl. rewrite Z.add_0_r. reflexivity.
  - rewrite IH. f_equal. simpl length. lia.
Qed.

(** Payload bytes without an end tag are all written. *)
Lemma feed_payload image_size : forall bs i s,
  2 <= i -> xfer_ok s -> eof s = false -> Forall is_byte bs ->
  no_end_tag (last_byte s) bs = true ->
  total_bytes_written s + Z.of_nat (length bs) <= image_size ->
  let s' := feed image_size i bs s in
  xfer_ok s' /\ eof s' = false /\ sink s' = sink s ++ bs /\
  total_bytes_written s' = total_bytes_written s + Z.of_nat (length bs) /\
  bytes_remaining s' = bytes_remaining s /\
  last_byte s' = default (last_byte s) (last bs).
Proof.
  induction bs as [|b bs IH]; intros i s Hi Hok He Hb Hn Hlen.
  - simpl. rewrite app_nil_r. repeat split; try assumption; try apply Hok; lia.
  - inversion Hb as [|? ? Hb1 Hb2]; subst.
    simpl in Hn. apply andb_true_iff in Hn as [Hn1 Hn2].
    simpl length in Hlen.
    destruct (process_byte_clean image_size i b s Hok He Hb1 ltac:(lia))
      as (Hok1 & Hl1 & Hr1 & Hs1 & Hw1 & He1).
    destruct (Z.leb_spec 2 i); [|lia].
    assert (He1' : eof (process_byte image_size i b false s) = false).
    { rewrite He1. rewrite andb_comm. apply negb_true_iff. exact Hn1. }
    specialize (IH (i + 1) (process_byte image_size i b false s)
                  ltac:(lia) Hok1 He1' Hb2).
    rewrite Hl1 in IH. specialize (IH Hn2 ltac:(lia)).
    cbv zeta in IH. destruct IH as (Hok2 & He2 & Hs2 & Hw2 & Hr2 & Hl2).
    cbn [feed]. split; [exact Hok2|]. split; [exact He2|].
    split; [rewrite Hs2, Hs1, <- app_assoc; reflexivity|].
    split; [simpl length; lia|]. split; [congruence|].
    rewrite Hl2. destruct bs as [|b' bs]; [reflexivity|].
    rewrite last_cons_cons. apply default_last_cons.
Qed.

(** The two header bytes are read and dropped. *)
Lemma feed_header image_size h1 h2 s :
  xfer_ok s -> eof s = false -> is_byte h1 -> is_byte h2 ->
  header_neutral h1 h2 = true ->
  total_bytes_written s < image_size ->
  let s' := feed image_size 0 [h1; h2] s in
  xfer_ok s' /\ eof s' = false /\ sink s' = sink s /\
  total_bytes_written s' = total_bytes_written s /\
  bytes_remaining s' = bytes_remaining s /\
  last_byte s' <> 255.
Proof.
  intros Hok He Hb1 Hb2 Hh Hlt. unfold header_neutral in Hh.
  apply andb_true_iff in Hh as [Hh Hh3]. apply andb_true_iff in Hh as [Hh1 Hh2].
  apply negb_true_iff in Hh1, Hh2, Hh3.
  destruct (process_byte_clean image_size 0 h1 s Hok He Hb1 Hlt)
    as (Hok1 & Hl1 & Hr1 & Hs1 & Hw1 & He1).
  change (2 <=? 0) with false in Hs1, Hw1. cbv iota in Hs1, Hw1.
  rewrite Hh1 in He1. cbn [andb] in He1.
  assert (Hlt1 : total_bytes_written (process_byte image_size 0 h1 false s)
                 < image_size) by (rewrite Hw1; exact Hlt).
  destruct (process_byte_clean image_size (0 + 1) h2
              (process_byte image_size 0 h1 false s) Hok1 He1 Hb2 Hlt1)
    as (Hok2 & Hl2 & Hr2 & Hs2 & Hw2 & He2).
  change (2 <=? 0 + 1) with false in Hs2, Hw2. cbv iota in Hs2, Hw2.
  rewrite Hl1 in He2. rewrite andb_comm in He2.
  cbn [feed]. cbv zeta.
  split; [exact Hok2|]. split; [rewrite He2; exact Hh3|].
  split; [congruence|]. split; [congruence|]. split; [congruence|].
  rewrite Hl2. apply Z.eqb_neq. exact Hh2.
Qed.

(** ** The loops that are bounded by the bytes to come *)

Lemma find_raw_consumes target tmo : forall l seen t,
  (length (snd (snd (find_raw target seen tmo t l))) <= length l)%nat /\
  (fst (find_raw target seen tmo t l) = true ->
   (length (snd (snd (find_raw target seen tmo t l))) < length l)%nat).
Proof.
  induction l as [|[a c] l IH]; intros seen t; simpl.
  - split; [lia | discriminate].
  - destruct (timely tmo t a); [|simpl; split; [lia | discriminate]].
    destruct (bool_decide _); [simpl; split; intros; lia|].
    destruct (IH (seen ++ [u8 c]) (Z.max t a)) as [H1 H2].
    split; [lia|]. intros H. specialize (H2 H). lia.
Qed.

Lemma readStringUntil_raw_consumes e tmo : forall l t,
  (length (snd (snd (readStringUntil_raw e tmo t l))) <= length l)%nat.
Proof.
  induction l as [|[a c] l IH]; intros t; simpl; [lia|].
  destruct (timely tmo t a); [|simpl; lia].
  destruct (u8 c =? e); [simpl; lia|].
  specialize (IH (Z.max t a)).
  destruct (readStringUntil_raw e tmo (Z.max t a) l) as [str [t' l']].
  simpl in *. lia.
Qed.

(** [drain_info] gives its loop enough passes: with more the result is the
    same, so the loop is left because [find] has failed. *)
Lemma drain_lines_enough : forall fuel1 fuel2 (w : World Dev),
  (length (rx w) < fuel1)%nat -> (length (rx w) < fuel2)%nat ->
  drain_lines fuel1 w = drain_lines fuel2 w.
Proof.
  induction fuel1 as [|fuel1 IH]; intros fuel2 w H1 H2; [lia|].
  destruct fuel2 as [|fuel2]; [lia|]. cbn [drain_lines].
  unfold find.
  pose proof (find_raw_consumes [35] (read_timeout w) (rx w) [] (now w))
    as [Hle Hlt].
  destruct (find_raw [35] [] (read_timeout w) (now w) (rx w)) as [r [t l]].
  simpl in Hle, Hlt. destruct r; [|reflexivity].
  specialize (Hlt eq_refl).
  unfold readStringUntil. cbn [read_timeout now rx set_rx set_now].
  pose proof (readStringUntil_raw_consumes 10 (read_timeout w) l t) as Hs.
  destruct (readStringUntil_raw 10 (read_timeout w) t l) as [str [t' l']].
  simpl in Hs. cbn [snd]. apply IH; simpl; lia.
Qed.

(** The bytes that the classifier drops: [0x00] and, read as [int8_t], every
    byte from [0x80] up. *)
Lemma skipped_bytes c : s8 (u8 c) <= 0 <-> u8 c = 0 \/ 128 <= u8 c.
Proof.
  pose proof (u8_range c) as Hr. unfold s8.
  destruct (Z_lt_dec (u8 c) 128).
  - rewrite Z.mod_small by lia. lia.
  - replace (u8 c + 128) with (u8 c - 128 + 1 * 256) by lia.
    rewrite Z.mod_add, Z.mod_small by lia. lia.
Qed.

End Properties.

(** * The synthetic camera *)

Section SyntheticTransfer.

Variables h1 h2 : Z.
Hypothesis h1_byte : is_byte h1.
Hypothesis h2_byte : is_byte h2.

Lemma elapsed_same_tick {Dev : Type} t l tmo (d : Dev) :
  elapsed (mkWorld t l tmo d) (u32 t) = 0.
Proof. unfold elapsed, millis. simpl. rewrite Z.sub_diag. reflexivity. Qed.

(** One pass of the outer loop against the synthetic camera, from an empty
    receive buffer: the camera sends the header and the next bytes of the
    image, the [for] loop reads them all, and waits 10 ms for more if fewer
    came than asked for. *)
Lemma synthetic_round fuel image_size chunk_size s t tmo (rest : list Z) :
  eof s = false ->
  Forall is_byte rest ->
  let bytesToRead := Z.min chunk_size (Z.max (bytes_remaining s) 1) in
  let chunk := take (Z.to_nat bytesToRead) rest in
  let s1 := feed image_size 0 (h1 :: h2 :: chunk) s in
  let s2 := end_chunk (2 + Z.of_nat (length chunk)) bytesToRead s1 in
  let w3 := mkWorld
              (if (Z.to_nat (bytesToRead + 2) - (2 + length chunk))%nat is O
               then t else t + 10)
              [] tmo (drop (Z.to_nat bytesToRead) rest) in
  0 <= bytesToRead ->
  transfer_loop (synthetic_camera h1 h2) (S fuel) image_size chunk_size (u32 t)
    s (mkWorld t [] tmo rest)
  = if eof s2 then (true, s2, w3)
    else transfer_loop (synthetic_camera h1 h2) fuel image_size chunk_size
           (u32 t) s2 w3.
Proof.
  intros He Hb bytesToRead chunk s1 s2 w3 Hpos.
  cbn [transfer_loop]. rewrite He, elapsed_same_tick. cbn [negb andb Z.ltb].
  change (0 <? 120000) with true. cbv iota.
  fold bytesToRead.
  unfold sendCommand. cbn [dev now rx synthetic_camera read_timeout app].
  fold chunk.
  rewrite (wait_for_available _ _ _ t h1
             (map (fun b => (t, b)) (h2 :: chunk))) by (simpl; first [reflexivity | lia]).
  rewrite (available_head _ t h1 (map (fun b => (t, b)) (h2 :: chunk)))
    by (simpl; first [reflexivity | lia]).
  change ((t, h1) :: (t, h2) :: map (fun b => (t, b)) chunk)
    with (map (fun b => (t, b)) (h1 :: h2 :: chunk)).
  rewrite <- (app_nil_r (map (fun b => (t, b)) (h1 :: h2 :: chunk))).
  assert (Hchunk : (length chunk <= Z.to_nat bytesToRead)%nat).
  { unfold chunk. rewrite length_take. lia. }
  rewrite read_chunk_feed.
  - rewrite read_chunk_starved. cbn [length]. unfold start_data_byte.
    replace (0 + Z.of_nat (S (S (length chunk))))
      with (2 + Z.of_nat (length chunk)) by lia.
    fold s1. fold s2. reflexivity.
  - constructor; [exact h1_byte|]. constructor; [exact h2_byte|].
    unfold chunk. apply Forall_take. exact Hb.
  - rewrite elapsed_same_tick. lia.
  - unfold start_data_byte. cbn [length]. lia.
Qed.

Hypothesis headers_neutral : header_neutral h1 h2 = true.

Variables image_size chunk_size : Z.
Hypothesis chunk_size_pos : 0 < chunk_size.

(** The last pass: the rest of the image fits the request. *)
Lemma synthetic_last_round fuel s t tmo (rb : list Z) :
  xfer_ok s -> eof s = false ->
  Forall is_byte rb ->
  no_end_tag 0 (rb ++ [255]) = true ->
  total_bytes_written s = image_size - Z.of_nat (length (rb ++ [255; 217])) ->
  bytes_remaining s = Z.of_nat (length (rb ++ [255; 217])) + 14 ->
  Z.of_nat (length (rb ++ [255; 217])) <= chunk_size ->
  exists s' w',
    transfer_loop (synthetic_camera h1 h2) (S fuel) image_size chunk_size
      (u32 t) s (mkWorld t [] tmo (rb ++ [255; 217])) = (true, s', w') /\
    sink s' = sink s ++ rb ++ [255; 217] /\
    total_bytes_written s' = image_size /\
    t <= now w' <= t + 10.
Proof.
  intros Hok He Hb Hn Hw Hr Hlen.
  remember (rb ++ [255; 217]) as rest eqn:Erest.
  assert (Hbr : Forall is_byte rest).
  { rewrite Erest. apply Forall_app. split; [exact Hb|].
    repeat constructor; unfold is_byte; lia. }
  assert (Hlen2 : 2 <= Z.of_nat (length rest)).
  { rewrite Erest, length_app. simpl. lia. }
  pose proof (synthetic_round fuel image_size chunk_size s t tmo rest He Hbr)
    as Hround.
  cbv zeta in Hround.
  assert (Hpos : 0 <= Z.min chunk_size (Z.max (bytes_remaining s) 1)) by lia.
  rewrite (Hround Hpos). clear Hround Hpos.
  remember (Z.min chunk_size (Z.max (bytes_remaining s) 1)) as btr eqn:Ebtr.
  assert (Hbtr : (length rest <= Z.to_nat btr)%nat) by lia.
  rewrite (take_ge rest) by exact Hbtr.
  rewrite (drop_ge rest) by exact Hbtr.
  change (h1 :: h2 :: rest) with ([h1; h2] ++ rest).
  rewrite feed_app.
  destruct (feed_header image_size h1 h2 s Hok He h1_byte h2_byte
              headers_neutral ltac:(lia))
    as (Hok1 & He1 & Hs1 & Hw1 & Hr1 & Hl1).
  remember (feed image_size 0 [h1; h2] s) as sh eqn:Esh.
  assert (Erest' : rest = (rb ++ [255]) ++ [217])
    by (rewrite Erest, <- app_assoc; reflexivity).
  replace (feed image_size (0 + Z.of_nat (length [h1; h2])) rest sh)
    with (feed image_size (0 + Z.of_nat (length [h1; h2]))
            ((rb ++ [255]) ++ [217]) sh) by (rewrite <- Erest'; reflexivity).
  rewrite feed_app.
  assert (Hb255 : Forall is_byte (rb ++ [255])).
  { apply Forall_app. split; [exact Hb|]. repeat constructor; unfold is_byte; lia. }
  assert (Hlen255 : Z.of_nat (length (rb ++ [255])) = Z.of_nat (length rest) - 1).
  { rewrite Erest, !length_app. simpl. lia. }
  destruct (feed_payload image_size (rb ++ [255])
              (0 + Z.of_nat (length [h1; h2])) sh ltac:(simpl; lia) Hok1 He1 Hb255)
    as (Hok2 & He2 & Hs2 & Hw2 & Hr2 & Hl2).
  { rewrite (no_end_tag_prev _ 0) by (first [exact Hl1 | lia]). exact Hn. }
  { lia. }
  remember (feed image_size (0 + Z.of_nat (length [h1; h2])) (rb ++ [255]) sh)
    as sp eqn:Esp.
  rewrite last_snoc in Hl2. simpl in Hl2.
  cbn [feed].
  destruct (process_byte_clean image_size
              (0 + Z.of_nat (length [h1; h2]) + Z.of_nat (length (rb ++ [255])))
              217 sp Hok2 He2 ltac:(unfold is_byte; lia) ltac:(lia))
    as (Hok3 & Hl3 & Hr3 & Hs3 & Hw3 & He3).
  rewrite Hl2 in He3. change ((217 =? 217) && (255 =? 255)) with true in He3.
  destruct (Z.leb_spec 2 (0 + Z.of_nat (length [h1; h2])
                          + Z.of_nat (length (rb ++ [255]))));
    [|simpl in *; lia].
  change (eof (end_chunk ?a ?b ?c)) with (eof c).
  rewrite He3.
  eexists. eexists. split; [reflexivity|].
  split; [|split].
  - change (sink (end_chunk ?a ?b ?c)) with (sink c).
    rewrite Hs3, Hs2, Hs1, Erest, <- !app_assoc. reflexivity.
  - change (total_bytes_written (end_chunk ?a ?b ?c))
      with (total_bytes_written c).
    lia.
  - cbn [now]. destruct (_ - _)%nat; lia.
Qed.

(** All the passes: the image is written whole. *)
Lemma synthetic_rounds tmo t : forall fuel s (rb : list Z),
  xfer_ok s -> eof s = false ->
  Forall is_byte rb ->
  no_end_tag 0 (rb ++ [255]) = true ->
  total_bytes_written s = image_size - Z.of_nat (length (rb ++ [255; 217])) ->
  bytes_remaining s = Z.of_nat (length (rb ++ [255; 217])) + 14 ->
  (Z.of_nat (length (rb ++ [255; 217])) - 1) mod chunk_size <> 0 ->
  Z.of_nat (length (rb ++ [255; 217])) <= chunk_size * Z.of_nat fuel ->
  exists s' w',
    transfer_loop (synthetic_camera h1 h2) fuel image_size chunk_size
      (u32 t) s (mkWorld t [] tmo (rb ++ [255; 217])) = (true, s', w') /\
    sink s' = sink s ++ rb ++ [255; 217] /\
    total_bytes_written s' = image_size /\
    t <= now w' <= t + 10.
Proof.
  induction fuel as [|fuel IH]; intros s rb Hok He Hb Hn Hw Hr Hmod Hfuel.
  - rewrite length_app in Hfuel. simpl in Hfuel. lia.
  - destruct (Z_le_gt_dec (Z.of_nat (length (rb ++ [255; 217]))) chunk_size)
      as [Hle|Hgt].
    + apply synthetic_last_round; assumption.
    + remember (rb ++ [255; 217]) as rest eqn:Erest.
      assert (Hlen : Z.of_nat (length rest) = Z.of_nat (length rb) + 2).
      { rewrite Erest, length_app. simpl. lia. }
      assert (Hge : chunk_size + 2 <= Z.of_nat (length rest)).
      { destruct (Z.eq_dec (Z.of_nat (length rest) - 1) chunk_size) as [E|E];
          [|lia].
        rewrite E, Z_mod_same_full in Hmod. contradiction. }
      assert (Hbr : Forall is_byte rest).
      { rewrite Erest. apply Forall_app. split; [exact Hb|].
        repeat constructor; unfold is_byte; lia. }
      pose proof (synthetic_round fuel image_size chunk_size s t tmo rest He Hbr)
        as Hround.
      cbv zeta in Hround.
      assert (Ebtr : Z.min chunk_size (Z.max (bytes_remaining s) 1) = chunk_size)
        by lia.
      rewrite Ebtr in Hround. rewrite (Hround ltac:(lia)). clear Hround.
      remember (Z.to_nat chunk_size) as nc eqn:Enc.
      assert (Etake : take nc rest = take nc rb).
      { rewrite Erest. apply take_app_le. lia. }
      assert (Edrop : drop nc rest = drop nc rb ++ [255; 217]).
      { rewrite Erest. apply drop_app_le. lia. }
      rewrite Etake, Edrop.
      assert (Hlc : length (take nc rb) = nc) by (rewrite length_take; lia).
      rewrite Hlc.
      replace (Z.to_nat (chunk_size + 2) - (2 + nc))%nat with 0%nat by lia.
      change (h1 :: h2 :: take nc rb) with ([h1; h2] ++ take nc rb).
      rewrite feed_app.
      destruct (feed_header image_size h1 h2 s Hok He h1_byte h2_byte
                  headers_neutral ltac:(lia))
        as (Hok1 & He1 & Hs1 & Hw1 & Hr1 & Hl1).
      remember (feed image_size 0 [h1; h2] s) as sh eqn:Esh.
      rewrite <- (take_drop nc rb), <- app_assoc in Hn.
      apply no_end_tag_app in Hn as [Hn1 Hn2].
      apply no_end_tag_weaken in Hn2.
      destruct (feed_payload image_size (take nc rb)
                  (0 + Z.of_nat (length [h1; h2])) sh ltac:(simpl; lia) Hok1 He1)
        as (Hok2 & He2 & Hs2 & Hw2 & Hr2 & Hl2).
      { apply Forall_take. exact Hb. }
      { rewrite (no_end_tag_prev _ 0) by (first [exact Hl1 | lia]). exact Hn1. }
      { lia. }
      remember (feed image_size (0 + Z.of_nat (length [h1; h2])) (take nc rb) sh)
        as s1 eqn:Es1.
      change (eof (end_chunk ?a ?b ?c)) with (eof c). rewrite He2.
      destruct (IH (end_chunk (2 + Z.of_nat nc) chunk_size s1) (drop nc rb))
        as (s' & w' & Hrun & Hsink & Htbw & Hnow).
      * exact Hok2.
      * exact He2.
      * apply Forall_drop. exact Hb.
      * exact Hn2.
      * change (total_bytes_written (end_chunk ?a ?b ?c))
          with (total_bytes_written c).
        rewrite length_app, length_drop. simpl length. lia.
      * unfold end_chunk. cbn [bytes_remaining].
        rewrite length_app, length_drop. simpl length. lia.
      * rewrite length_app, length_drop. simpl length.
        replace (Z.of_nat (length rb - nc + 2) - 1)
          with (Z.of_nat (length rest) - 1 + (-1) * chunk_size) by lia.
        rewrite Z_mod_plus_full. exact Hmod.
      * rewrite length_app, length_drop. simpl length. lia.
      * exists s', w'. split; [exact Hrun|]. split; [|split; assumption].
        rewrite Hsink.
        change (sink (end_chunk ?a ?b ?c)) with (sink c).
        rewrite Hs2, Hs1, Erest, <- !app_assoc. f_equal.
        rewrite app_assoc, take_drop. reflexivity.
Qed.

(** C3 (amended).  The synthetic camera holds an image of [image_size] bytes
    that ends with the end tag [0xFF 0xD9] and has no other end tag; it
    answers each request at once with two header bytes, which cannot be part
    of an end tag, and the next bytes of the image, and is silent after the
    image.  When the chunk size does not put the two bytes of the end tag in
    different chunks, [transferImage] writes the image, returns [image_size]
    and is done within 10 ms, long before the deadline of 120 s. *)
Theorem synthetic_transfer_complete body fuel t tmo :
  let payload := body ++ [255; 217] in
  Forall is_byte body ->
  no_end_tag 0 (body ++ [255]) = true ->
  image_size = Z.of_nat (length payload) ->
  image_size < 2 ^ 32 ->
  (image_size - 1) mod chunk_size <> 0 ->
  image_size <= chunk_size * Z.of_nat fuel ->
  exists w',
    transferImage (synthetic_camera h1 h2) fuel image_size chunk_size
      (mkWorld t [] tmo payload) = Some (image_size, payload, w') /\
    elapsed w' (u32 t) <= 10.
Proof.
  intros payload Hb Hn Hsize H32 Hmod Hfuel. unfold transferImage.
  assert (Hlen : 2 <= image_size).
  { rewrite Hsize. unfold payload. rewrite length_app. simpl. lia. }
  destruct (Z.eqb_spec image_size 0) as [E|_]; [lia|].
  unfold millis. cbn [now].
  destruct (synthetic_rounds tmo t fuel (xfer_init image_size) body)
    as (s' & w' & Hrun & Hsink & Htbw & Hnow).
  - apply xfer_init_ok.
  - reflexivity.
  - exact Hb.
  - exact Hn.
  - simpl. fold payload. lia.
  - simpl. fold payload. unfold start_data_byte, extra_read_buff. lia.
  - fold payload. rewrite <- Hsize. exact Hmod.
  - fold payload. rewrite <- Hsize. exact Hfuel.
  - fold payload in Hrun. rewrite Hrun.
    exists w'. split.
    + rewrite Htbw, Hsink. simpl. rewrite u32_small by lia. reflexivity.
    + unfold elapsed, millis, u32.
      rewrite Zminus_mod_idemp_l, Zminus_mod_idemp_r.
      rewrite Z.mod_small by lia. lia.
Qed.

End SyntheticTransfer.

(** * Further properties *)

Section MoreProperties.

Context {Dev : Type}.
Context {libc : CLibrary}.
Variable respond : Dev -> command -> Z -> Dev * list (Z * Z).

(** ** Stale bytes *)

Lemma streamDump_raw_spec : forall l t,
  arrived (fst (streamDump_raw t l)) (snd (streamDump_raw t l)) = 0%nat /\
  snd (streamDump_raw t l) `suffix_of` l /\
  t <= fst (streamDump_raw t l) /\
  (Forall (fun p => fst p <= t) l -> snd (streamDump_raw t l) = []).
Proof.
  induction l as [|[a c] l IH]; intros t; simpl.
  - repeat split; [reflexivity | lia].
  - destruct (Z.leb_spec a t) as [Ha|Ha].
    + destruct (IH (t + 1)) as (H1 & H2 & H3 & H4).
      split; [exact H1|]. split; [apply suffix_cons_r; exact H2|].
      split; [lia|]. intros Hall. apply H4.
      inversion Hall as [|? ? _ Hl]; subst.
      eapply Forall_impl; [exact Hl|]. simpl. intros. lia.
    + simpl. destruct (Z.leb_spec a t); [lia|].
      split; [reflexivity|]. split; [reflexivity|]. split; [lia|].
      intros Hall. inversion Hall; subst. simpl in *. lia.
Qed.

(** The bytes dropped by the loop are the front of the queue, each one had
    arrived when it was read, one millisecond after the one before, and the
    loop ends that many milliseconds later. *)
Lemma streamDump_raw_exact : forall l t,
  exists dropped,
    l = dropped ++ snd (streamDump_raw t l) /\
    (forall i a c, dropped !! i = Some (a, c) -> a <= t + Z.of_nat i) /\
    fst (streamDump_raw t l) = t + Z.of_nat (length dropped).
Proof.
  induction l as [|[a c] l IH]; intros t; simpl.
  - exists []. split; [reflexivity|]. split; [|simpl; lia].
    intros i a c H. destruct i; discriminate H.
  - destruct (Z.leb_spec a t) as [Ha|Ha].
    + destruct (IH (t + 1)) as (dropped & El & Hd & Ht).
      exists ((a, c) :: dropped).
      split; [simpl; rewrite <- El; reflexivity|]. split.
      * intros [|i] a' c' H; simpl in H.
        -- injection H as <- <-. lia.
        -- specialize (Hd i a' c' H). lia.
      * rewrite Ht. simpl length. lia.
    + exists []. split; [reflexivity|]. split; [|simpl; lia].
      intros i a' c' H. destruct i; discriminate H.
Qed.

(** [streamDump] leaves nothing to read: it drops bytes from the front of the
    queue, those that have arrived by the time it is done, and none behind a
    byte that has not arrived; bytes that were all there are all dropped.
    With [t0] the time after the pause of 25 ms, made when nothing is
    available at the call, the [i]-th byte dropped had arrived at [t0 + i],
    the time it was read at, and [streamDump] ends as many milliseconds
    after [t0] as it dropped bytes, in front of a byte that has not arrived
    or of nothing. *)
Theorem streamDump_leaves_nothing_available (w : World Dev) :
  available (streamDump w) = 0 /\
  rx (streamDump w) `suffix_of` rx w /\
  now w <= now (streamDump w) /\
  dev (streamDump w) = dev w /\
  (exists dropped,
     let t0 := now w + (if available w =? 0 then 25 else 0) in
     rx w = dropped ++ rx (streamDump w) /\
     (forall i a c, dropped !! i = Some (a, c) -> a <= t0 + Z.of_nat i) /\
     now (streamDump w) = t0 + Z.of_nat (length dropped) /\
     (forall a c l, rx (streamDump w) = (a, c) :: l ->
                    now (streamDump w) < a)) /\
  (Forall (fun p => fst p <= now w) (rx w) -> rx (streamDump w) = []).
Proof.
  unfold streamDump.
  set (w1 := if available w =? 0 then delay 25 w else w).
  assert (Hrx : rx w1 = rx w) by (subst w1; destruct (_ =? 0); reflexivity).
  assert (Hnow : now w <= now w1)
    by (subst w1; destruct (_ =? 0); simpl; lia).
  assert (Ht0 : now w1 = now w + (if available w =? 0 then 25 else 0))
    by (subst w1; destruct (_ =? 0); simpl; lia).
  assert (Hdev : dev w1 = dev w) by (subst w1; destruct (_ =? 0); reflexivity).
  destruct (streamDump_raw_spec (rx w1) (now w1)) as (H1 & H2 & H3 & H4).
  destruct (streamDump_raw_exact (rx w1) (now w1)) as (dropped & El & Hd & Ht).
  destruct (streamDump_raw (now w1) (rx w1)) as [t l].
  unfold available in H1, Ht0 |- *. cbn [now rx set_rx set_now dev fst snd] in *.
  split; [rewrite H1; reflexivity|]. split; [rewrite <- Hrx; exact H2|].
  split; [lia|]. split; [exact Hdev|]. split.
  - exists dropped. cbv zeta. rewrite <- Ht0, <- Hrx.
    split; [exact El|]. split; [exact Hd|]. split; [exact Ht|].
    intros a c l' ->. simpl in H1.
    destruct (Z.leb_spec a t); [discriminate | lia].
  - intros Hall. apply H4. rewrite Hrx.
    eapply Forall_impl; [exact Hall|]. simpl. intros. lia.
Qed.

Lemma streamDump_dev (w : World Dev) : dev (streamDump w) = dev w.
Proof.
  unfold streamDump. destruct (available w =? 0);
    destruct (streamDump_raw _ _); reflexivity.
Qed.

Lemma streamDump_arrived (w : World Dev) :
  Forall (fun p => fst p <= now w) (rx w) -> rx (streamDump w) = [].
Proof.
  intros Hall. unfold streamDump.
  set (w1 := if available w =? 0 then delay 25 w else w).
  assert (Hrx : rx w1 = rx w) by (subst w1; destruct (_ =? 0); reflexivity).
  assert (Hnow : now w <= now w1)
    by (subst w1; destruct (_ =? 0); simpl; lia).
  destruct (streamDump_raw_spec (rx w1) (now w1)) as (_ & _ & _ & H4).
  destruct (streamDump_raw (now w1) (rx w1)) as [t l].
  cbn [rx set_rx set_now snd] in *. apply H4. rewrite Hrx.
  eapply Forall_impl; [exact Hall|]. simpl. intros. lia.
Qed.

Lemma streamDump_read_timeout (w : World Dev) :
  read_timeout (streamDump w) = read_timeout w.
Proof.
  unfold streamDump. destruct (available w =? 0);
    destruct (streamDump_raw _ _); reflexivity.
Qed.

Lemma streamDump_empty (w : World Dev) :
  rx w = [] -> streamDump w = set_now (now w + 25) w.
Proof.
  intros Hrx. unfold streamDump, available. rewrite Hrx. simpl.
  unfold delay, set_rx, set_now. simpl. rewrite Hrx. reflexivity.
Qed.

(** ** How long the classifier waits *)

(** [waitResponse] never waits longer than its timeout. *)
Theorem waitResponse_waits_at_most_timeout timeout_ms data r1 r2 r3 r4
    (w : World Dev) :
  let w' := snd (waitResponse timeout_ms data r1 r2 r3 r4 w) in
  now w <= now w' <= now w + u32 timeout_ms.
Proof.
  unfold waitResponse.
  pose proof (waitResponse_loop_bounded r1 r2 r3 r4 (millis w) (u32 timeout_ms)
                (now w) (u32_range timeout_ms) (S (length (rx w))) data w) as H.
  cbv zeta in H.
  destruct (waitResponse_loop _ _ _ _ _ _ _ _ _) as [[index data1] w1].
  simpl in H.
  assert (He : elapsed w (millis w) = now w - now w).
  { unfold elapsed. rewrite !Z.sub_diag. reflexivity. }
  pose proof (u32_range timeout_ms).
  specialize (H He ltac:(lia)).
  destruct (index =? 0); simpl; exact H.
Qed.

Lemma set_rx_same (w : World Dev) : set_rx (rx w) w = w.
Proof. destruct w; reflexivity. Qed.

Lemma read_available_none r1 r2 r3 r4 t data l :
  arrived t l = 0%nat -> read_available r1 r2 r3 r4 t data l = (0, data, l).
Proof.
  destruct l as [|[a c] l]; [reflexivity|]. simpl.
  destruct (a <=? t); [discriminate | reflexivity].
Qed.

Lemma arrived_late t l :
  (forall a c l', l = (a, c) :: l' -> t < a) -> arrived t l = 0%nat.
Proof.
  destruct l as [|[a c] l]; [reflexivity|]. intros H. simpl.
  specialize (H a c l eq_refl). destruct (Z.leb_spec a t); [lia | reflexivity].
Qed.

Lemma elapsed_start (w : World Dev) : elapsed w (millis w) = 0.
Proof. unfold elapsed. rewrite Z.sub_diag. reflexivity. Qed.

(** With nothing to read before the deadline the outer loop waits for the
    deadline and is left there. *)
Lemma waitResponse_loop_nothing timeout r1 r2 r3 r4 data fuel (w : World Dev) :
  0 <= timeout < 2 ^ 32 ->
  (forall a c l, rx w = (a, c) :: l -> now w + timeout < a) ->
  waitResponse_loop (S fuel) (millis w) timeout r1 r2 r3 r4 data w
  = (0, data, set_now (now w + timeout) w).
Proof.
  intros Ht Hlate. cbn [waitResponse_loop].
  rewrite read_available_none
    by (apply arrived_late; intros a c l' E; specialize (Hlate a c l' E); lia).
  rewrite set_rx_same. cbn [Z.eqb negb]. rewrite elapsed_start.
  destruct (Z.ltb_spec 0 timeout) as [Hpos|Hzero].
  - assert (Hw : wait_for 1 (millis w) timeout w = set_now (now w + timeout) w).
    { unfold wait_for, available.
      rewrite (arrived_late (now w) (rx w))
        by (intros a c l' E; specialize (Hlate a c l' E); lia).
      cbn [Z.of_nat Z.leb Z.compare]. rewrite elapsed_start.
      destruct (Z.leb_spec timeout 0); [lia|].
      rewrite Z.sub_0_r.
      destruct (rx w) as [|[a c] l] eqn:E; [reflexivity|].
      unfold ready_at. simpl.
      specialize (Hlate a c l eq_refl).
      destruct (Z.leb_spec a (now w + timeout)); [lia | reflexivity]. }
    rewrite Hw.
    assert (Hnone : read_available r1 r2 r3 r4 (now w + timeout) data (rx w)
                    = (0, data, rx w)).
    { apply read_available_none, arrived_late.
      intros a c l' E. exact (Hlate a c l' E). }
    assert (He : elapsed (set_now (now w + timeout) w) (millis w) = timeout).
    { rewrite elapsed_shift, elapsed_start. rewrite Z.add_0_l.
      apply u32_small. exact Ht. }
    destruct fuel; cbn [waitResponse_loop now rx set_now]; rewrite Hnone;
      cbn [Z.eqb negb];
      change (set_rx (rx w) (set_now (now w + timeout) w))
        with (set_now (now w + timeout) w);
      rewrite He, Z.ltb_irrefl; reflexivity.
  - assert (timeout = 0) as -> by lia.
    rewrite Z.add_0_r, set_now_same. reflexivity.
Qed.

(** Bytes that come after the deadline are not read: [waitResponse] returns 0
    at the deadline, with the buffer cleared and the queue as it was. *)
Theorem waitResponse_leaves_late_bytes timeout_ms data r1 r2 r3 r4
    (w : World Dev) :
  (forall a c l, rx w = (a, c) :: l -> now w + u32 timeout_ms < a) ->
  waitResponse timeout_ms data r1 r2 r3 r4 w
  = (0, [], set_now (now w + u32 timeout_ms) w).
Proof.
  intros Hlate. unfold waitResponse.
  rewrite waitResponse_loop_nothing; [reflexivity | apply u32_range | exact Hlate].
Qed.

(** The same on an empty queue. *)
Lemma waitResponse_empty timeout_ms data r1 r2 r3 r4 (w : World Dev) :
  rx w = [] ->
  waitResponse timeout_ms data r1 r2 r3 r4 w
  = (0, [], set_now (now w + u32 timeout_ms) w).
Proof.
  intros Hrx. unfold waitResponse.
  rewrite waitResponse_loop_nothing; [reflexivity | apply u32_range |].
  intros a c l E. rewrite Hrx in E. discriminate.
Qed.

(** An initial delay that is not shorter than the timeout leaves no time to
    poll: [waitForReady] returns 0 without asking the camera. *)
Theorem waitForReady_delay_uses_up_timeout fuel initial_delay timeout
    (w : World Dev) :
  u32 timeout <= u32 initial_delay ->
  waitForReady respond fuel initial_delay timeout w
  = Some (0, NO_RESPONSE, delay (u32 initial_delay) w).
Proof.
  intros H. pose proof (u32_range initial_delay) as Hd.
  unfold waitForReady.
  assert (He : elapsed (delay (u32 initial_delay) w) (millis w)
               = u32 initial_delay).
  { unfold delay. rewrite Z.max_r by lia.
    rewrite elapsed_shift, elapsed_start, Z.add_0_l. apply u32_small. exact Hd. }
  assert (Hp : poll_loop respond fuel (millis w) (u32 timeout) NO_RESPONSE
                 (delay (u32 initial_delay) w)
               = (true, NO_RESPONSE, delay (u32 initial_delay) w)).
  { destruct fuel; cbn [poll_loop is_ready negb andb]; rewrite He;
      destruct (Z.ltb_spec (u32 initial_delay) (u32 timeout)); try lia;
      reflexivity. }
  rewrite Hp. reflexivity.
Qed.

(** ** A label that is not in the info block *)

Lemma rx_bytes_app l1 l2 : rx_bytes (l1 ++ l2) = rx_bytes l1 ++ rx_bytes l2.
Proof. unfold rx_bytes. apply map_app. Qed.

(** When [find] succeeds the bytes it has read end with the target. *)
Lemma find_raw_sound target tmo : forall l seen t,
  fst (find_raw target seen tmo t l) = true ->
  exists consumed,
    l = consumed ++ snd (snd (find_raw target seen tmo t l)) /\
    target `suffix_of` (seen ++ rx_bytes consumed).
Proof.
  induction l as [|[a c] l IH]; intros seen t; simpl; [discriminate|].
  destruct (timely tmo t a); [|discriminate].
  destruct (bool_decide (target `suffix_of` seen ++ [u8 c])) eqn:E.
  - intros _. exists [(a, c)]. split; [reflexivity|].
    apply bool_decide_eq_true in E. exact E.
  - intros H. destruct (IH _ _ H) as (consumed & El & Hs).
    exists ((a, c) :: consumed). split; [simpl; rewrite <- El; reflexivity|].
    simpl. rewrite <- app_assoc in Hs. exact Hs.
Qed.

Lemma find_missing target (w : World Dev) :
  target <> [] ->
  (forall pre post, rx_bytes (rx w) <> pre ++ target ++ post) ->
  fst (find target w) = false.
Proof.
  intros Hne Hmiss. unfold find.
  destruct target as [|x target]; [contradiction|].
  pose proof (find_raw_sound (x :: target) (read_timeout w) (rx w) [] (now w))
    as Hs.
  destruct (find_raw (x :: target) [] (read_timeout w) (now w) (rx w))
    as [r [t l]].
  simpl in *. destruct r; [|reflexivity].
  destruct (Hs eq_refl) as (consumed & El & [k Hk]).
  exfalso. apply (Hmiss k (rx_bytes l)).
  rewrite El, rx_bytes_app, Hk, <- app_assoc. reflexivity.
Qed.

(** A label that does not occur in what the camera sends is a parse miss:
    the integer scanner returns -1 and the string scanner the empty
    string. *)
Theorem info_label_missing searchStartTag searchEndTag numberSkips
    searchSkipTag (w : World Dev) :
  let w0 := wait_for 1 (millis w) 5000 (sendCommand respond get_info w) in
  searchStartTag <> [] ->
  (forall pre post, rx_bytes (rx w0) <> pre ++ searchStartTag ++ post) ->
  fst (getCameraInfoInt respond searchStartTag searchEndTag numberSkips
         searchSkipTag w) = -1 /\
  fst (getCameraInfoString respond searchStartTag searchEndTag numberSkips
         searchSkipTag w) = [].
Proof.
  intros w0 Hne Hmiss.
  pose proof (find_missing searchStartTag w0 Hne Hmiss) as Hf.
  unfold getCameraInfoInt, getCameraInfoString. fold w0.
  destruct (find searchStartTag w0) as [found w1]. simpl in Hf. subst found.
  split; reflexivity.
Qed.

(** [getCameraSerialNumber] turns the sentinel into 0: it reads 0 when the
    label [#serial_id:] is not in what the camera sends, and never gives the
    value [0xFFFFFFFF]. *)
Theorem getCameraSerialNumber_miss_is_zero (w : World Dev) :
  let w0 := wait_for 1 (millis w) 5000 (sendCommand respond get_info w) in
  (0 <= fst (getCameraSerialNumber respond w) < 2 ^ 32 - 1) /\
  ((forall pre post,
      rx_bytes (rx w0) <> pre ++ bytes_of "#serial_id:" ++ post) ->
   fst (getCameraSerialNumber respond w) = 0).
Proof.
  intros w0. split.
  - unfold getCameraSerialNumber.
    destruct (getCameraInfoInt _ _ _ _ _ _) as [r w1]. simpl.
    pose proof (u32_range r) as Hr.
    destruct (Z.eqb_spec (u32 r) (u32 (-1))) as [E|E]; simpl; [lia|].
    change (u32 (-1)) with (2 ^ 32 - 1) in E. lia.
  - intros Hmiss.
    assert (Hne : bytes_of "#serial_id:" <> []) by discriminate.
    pose proof (find_missing (bytes_of "#serial_id:") w0 Hne Hmiss) as Hf.
    unfold getCameraSerialNumber, getCameraInfoInt. fold w0.
    destruct (find (bytes_of "#serial_id:") w0) as [found w1].
    simpl in Hf. subst found. reflexivity.
Qed.

(** ** The text field of the info block *)

Lemma readStringUntil_raw_field e tmo : forall fl t a_e c_e rest,
  prompt tmo t (fl ++ [(a_e, c_e)]) = true ->
  Forall (fun p => u8 (snd p) <> e) fl ->
  u8 c_e = e ->
  fst (readStringUntil_raw e tmo t (fl ++ (a_e, c_e) :: rest)) = rx_bytes fl.
Proof.
  induction fl as [|[a c] fl IH]; intros t a_e c_e rest Hp Hne He;
    simpl in Hp; apply andb_true_iff in Hp as [Hp Hp'];
    cbn [readStringUntil_raw app]; rewrite Hp.
  - rewrite He, Z.eqb_refl. reflexivity.
  - inversion Hne as [|? ? Hc Hne']; subst. simpl in Hc.
    destruct (Z.eqb_spec (u8 c) (u8 c_e)); [contradiction|].
    specialize (IH (Z.max t a) a_e c_e rest Hp' Hne' eq_refl).
    destruct (readStringUntil_raw (u8 c_e) tmo (Z.max t a) _) as [str r].
    simpl in *. rewrite IH. reflexivity.
Qed.

(** A field that the stream does not close in time is returned as far as it
    came. *)
Lemma readStringUntil_raw_stalled e tmo : forall fl t rest,
  prompt tmo t fl = true ->
  Forall (fun p => u8 (snd p) <> e) fl ->
  (forall a c l, rest = (a, c) :: l -> timely tmo
     (fold_left (fun t p => Z.max t (fst p)) fl t) a = false) ->
  fst (readStringUntil_raw e tmo t (fl ++ rest)) = rx_bytes fl.
Proof.
  induction fl as [|[a c] fl IH]; intros t rest Hp Hne Hstall.
  - simpl in *. destruct rest as [|[a c] l]; [reflexivity|].
    cbn [readStringUntil_raw]. rewrite (Hstall a c l eq_refl). reflexivity.
  - simpl in Hp. apply andb_true_iff in Hp as [Hp Hp'].
    cbn [readStringUntil_raw app]. rewrite Hp.
    inversion Hne as [|? ? Hc Hne']; subst. simpl in Hc.
    destruct (Z.eqb_spec (u8 c) e); [contradiction|].
    specialize (IH (Z.max t a) rest Hp' Hne' Hstall).
    destruct (readStringUntil_raw e tmo (Z.max t a) _) as [str r].
    simpl in *. rewrite IH. reflexivity.
Qed.

(** Once the start label has been found and the sub-fields skipped,
    [getCameraInfoString] returns the bytes up to the end delimiter, which it
    drops; the field may be empty and has no length limit.  When the queue
    ends before a delimiter has come, what came is returned. *)
Theorem getCameraInfoString_field searchStartTag searchEndTag numberSkips
    searchSkipTag (w w1 : World Dev) :
  let w0 := wait_for 1 (millis w) 5000 (sendCommand respond get_info w) in
  let w2 := skip_fields (Z.to_nat (u8 numberSkips)) searchSkipTag
              (setTimeout 15 w1) in
  let result := fst (getCameraInfoString respond searchStartTag searchEndTag
                       numberSkips searchSkipTag w) in
  find searchStartTag w0 = (true, w1) ->
  (forall field a_e c_e rest,
     rx w2 = field ++ (a_e, c_e) :: rest ->
     prompt 15 (now w2) (field ++ [(a_e, c_e)]) = true ->
     Forall (fun p => u8 (snd p) <> searchEndTag) field ->
     u8 c_e = searchEndTag ->
     result = rx_bytes field) /\
  (forall field,
     rx w2 = field ->
     prompt 15 (now w2) field = true ->
     Forall (fun p => u8 (snd p) <> searchEndTag) field ->
     result = rx_bytes field).
Proof.
  intros w0 w2 result Hfind.
  assert (Ht : read_timeout w2 = 15).
  { subst w2. rewrite skip_fields_timeout. reflexivity. }
  assert (Hres : result = fst (readStringUntil searchEndTag w2)).
  { subst result. unfold getCameraInfoString. fold w0. rewrite Hfind.
    cbn [negb]. fold w2.
    destruct (readStringUntil searchEndTag w2) as [resp w3]. reflexivity. }
  rewrite Hres. unfold readStringUntil. rewrite Ht. split.
  - intros field a_e c_e rest Hrx Hp Hne He. rewrite Hrx.
    pose proof (readStringUntil_raw_field searchEndTag 15 field (now w2)
                  a_e c_e rest Hp Hne He) as H.
    destruct (readStringUntil_raw _ _ _ _) as [str [t l]]. exact H.
  - intros field Hrx Hp Hne. rewrite Hrx.
    pose proof (readStringUntil_raw_stalled searchEndTag 15 field (now w2) []
                  Hp Hne ltac:(discriminate)) as H.
    rewrite app_nil_r in H.
    destruct (readStringUntil_raw _ _ _ _) as [str [t l]]. exact H.
Qed.

(** ** An empty integer field *)

(** A field with no byte before the end delimiter, or none in time, is not
    parsed: [getCameraInfoInt] returns -1 and not 0. *)
Theorem getCameraInfoInt_empty_field searchStartTag searchEndTag numberSkips
    searchSkipTag (w w1 : World Dev) :
  let w0 := wait_for 1 (millis w) 5000 (sendCommand respond get_info w) in
  let w2 := skip_fields (Z.to_nat (u8 numberSkips)) searchSkipTag
              (setTimeout 15 w1) in
  let result := fst (getCameraInfoInt respond searchStartTag searchEndTag
                       numberSkips searchSkipTag w) in
  find searchStartTag w0 = (true, w1) ->
  (forall a c rest, rx w2 = (a, c) :: rest ->
     timely 15 (now w2) a = false \/ u8 c = searchEndTag) ->
  result = -1.
Proof.
  intros w0 w2 result Hfind Hfirst.
  assert (Ht : read_timeout w2 = 15).
  { subst w2. rewrite skip_fields_timeout. reflexivity. }
  assert (Hbuf : fst (readBytesUntil searchEndTag 11 w2) = []).
  { cbn [readBytesUntil]. unfold timedRead. rewrite Ht.
    destruct (rx w2) as [|[a c] rest] eqn:Hrx; [reflexivity|].
    destruct (Hfirst a c rest eq_refl) as [Hlate|Hend].
    - unfold timely in Hlate. apply orb_false_iff in Hlate as [H1 H2].
      rewrite H1, H2. reflexivity.
    - pose proof (u8_range c).
      destruct (a <=? now w2).
      + rewrite Hend, Z.eqb_refl, orb_true_r. reflexivity.
      + destruct (a - now w2 <? 15); [|reflexivity].
        rewrite Hend, Z.eqb_refl, orb_true_r. reflexivity. }
  subst result. unfold getCameraInfoInt. fold w0. rewrite Hfind.
  cbn [negb]. fold w2.
  destruct (readBytesUntil searchEndTag 11 w2) as [buf w3].
  simpl in Hbuf. subst buf. reflexivity.
Qed.

(** ** Status queries *)

Lemma find_empty target (w : World Dev) :
  target <> [] -> rx w = [] ->
  find target w = (false, set_now (now w + Z.max 0 (read_timeout w)) w).
Proof.
  intros Hne Hrx. unfold find. destruct target as [|x target]; [contradiction|].
  rewrite Hrx. simpl. unfold set_rx, set_now. simpl. rewrite Hrx. reflexivity.
Qed.

Lemma parseInt_empty (w : World Dev) :
  rx w = [] ->
  parseInt w = (0, set_now (now w + Z.max 0 (read_timeout w)) w).
Proof.
  intros Hrx. unfold parseInt. rewrite Hrx. simpl.
  unfold set_rx, set_now. simpl. rewrite Hrx. reflexivity.
Qed.

Lemma getImageSize_unanswered (w : World Dev) :
  rx w = [] ->
  snd (respond (dev w) get_status (now w)) = [] ->
  getImageSize respond w
  = (0,
     mkWorld (now w + 5000 + 3 * Z.max 0 (read_timeout w)) [] (read_timeout w)
       (fst (respond (dev w) get_status (now w)))).
Proof.
  intros Hrx Hans. unfold getImageSize, sendCommand, streamFind.
  destruct (respond (dev w) get_status (now w)) as [d ans].
  simpl in Hans. subst ans. rewrite Hrx. cbn [app fst].
  rewrite waitResponse_empty by reflexivity.
  change (u32 5000) with 5000.
  rewrite find_empty by (reflexivity || discriminate).
  rewrite parseInt_empty by reflexivity.
  rewrite find_empty by (reflexivity || discriminate).
  cbn [now set_now read_timeout rx dev]. change (s32 (u32 0)) with 0.
  unfold set_now. cbn [now rx read_timeout dev]. f_equal. f_equal. lia.
Qed.

(** A camera that does not answer the status query: [getStatus] reports no
    response and [getImageSize] the size 0, after the 5 s of [waitResponse]
    and one stream timeout for each read that follows. *)
Theorem status_query_unanswered (w : World Dev) :
  rx w = [] ->
  snd (respond (dev w) get_status (now w)) = [] ->
  let d := fst (respond (dev w) get_status (now w)) in
  let tmo := Z.max 0 (read_timeout w) in
  getStatus respond w
  = (NO_RESPONSE, mkWorld (now w + 5000 + tmo) [] (read_timeout w) d) /\
  getImageSize respond w
  = (0, mkWorld (now w + 5000 + 3 * tmo) [] (read_timeout w) d).
Proof.
  intros Hrx Hans d tmo. split; [|apply getImageSize_unanswered; assumption].
  subst d tmo. unfold getStatus, sendCommand, streamFind.
  destruct (respond (dev w) get_status (now w)) as [d ans].
  simpl in Hans. subst ans. rewrite Hrx. cbn [app fst].
  rewrite waitResponse_empty by reflexivity.
  change (u32 5000) with 5000.
  rewrite find_empty by (reflexivity || discriminate). reflexivity.
Qed.

Lemma stamped_app a l1 l2 : stamped a (l1 ++ l2) = stamped a l1 ++ stamped a l2.
Proof. unfold stamped. apply map_app. Qed.

Lemma s8_ascii c : 0 < c < 128 -> s8 (u8 c) = c.
Proof.
  intros H. unfold s8, u8. rewrite (Z.mod_small c) by lia.
  rewrite Z.mod_small by lia. lia.
Qed.

Lemma no_match_tail r1 r2 r3 r4 data x word :
  no_match r1 r2 r3 r4 data (x :: word) ->
  match_index r1 r2 r3 r4 (data ++ [x]) = 0 /\
  no_match r1 r2 r3 r4 (data ++ [x]) word.
Proof.
  intros H. split.
  - apply (H 1%nat). simpl. lia.
  - intros k Hk. rewrite <- app_assoc. apply (H (S k)). simpl. lia.
Qed.

(** One pass of the inner loop over a reply that is all there: it stops at
    the first character after which a terminator ends the buffer. *)
Lemma read_available_word r1 r2 r3 r4 t a : a <= t -> forall word data c rest,
  Forall (fun c => 0 < c < 128) (word ++ [c]) ->
  no_match r1 r2 r3 r4 data word ->
  match_index r1 r2 r3 r4 (data ++ word ++ [c]) <> 0 ->
  read_available r1 r2 r3 r4 t data (stamped a (word ++ [c]) ++ rest)
  = (match_index r1 r2 r3 r4 (data ++ word ++ [c]), data ++ word ++ [c], rest).
Proof.
  intros Ha. induction word as [|x word IH]; intros data c rest Hascii Hno Hm;
    cbn [app stamped map read_available];
    (destruct (Z.leb_spec a t); [|lia]);
    inversion Hascii as [|? ? Hx Hrest]; subst;
    rewrite s8_ascii by exact Hx;
    (destruct (Z.leb_spec x 0) || destruct (Z.leb_spec c 0); [lia|]).
  - simpl in Hm. destruct (Z.eqb_spec (match_index r1 r2 r3 r4 (data ++ [c])) 0);
      [contradiction | reflexivity].
  - destruct (no_match_tail _ _ _ _ _ _ _ Hno) as [Hzero Hno'].
    rewrite Hzero. cbn [Z.eqb].
    change (map (fun b => (a, b)) (word ++ [c])) with (stamped a (word ++ [c])).
    rewrite (IH (data ++ [x]) c rest Hrest Hno');
      rewrite <- app_assoc; [reflexivity | exact Hm].
Qed.

Lemma stamped_snoc_cons a word c rest :
  exists x l, stamped a (word ++ [c]) ++ rest = (a, x) :: l.
Proof. destruct word as [|x word]; simpl; eauto. Qed.

(** A reply that arrives in one piece before the deadline and ends with a
    terminator is classified when it arrives; what follows the terminator
    stays in the queue. *)
Lemma waitResponse_reply timeout_ms r1 r2 r3 r4 (w : World Dev) a data word c
    rest :
  rx w = stamped a (word ++ [c]) ++ rest ->
  now w <= a -> a - now w < u32 timeout_ms ->
  Forall (fun c => 0 < c < 128) (word ++ [c]) ->
  no_match r1 r2 r3 r4 data word ->
  match_index r1 r2 r3 r4 (data ++ word ++ [c]) <> 0 ->
  waitResponse timeout_ms data r1 r2 r3 r4 w
  = (match_index r1 r2 r3 r4 (data ++ word ++ [c]), data ++ word ++ [c],
     set_rx rest (set_now a w)).
Proof.
  intros Hrx Hnow Hdl Hascii Hno Hm.
  assert (Hat : forall fuel (w1 : World Dev),
            rx w1 = rx w -> now w1 = a ->
            waitResponse_loop fuel (millis w) (u32 timeout_ms) r1 r2 r3 r4
              data w1
            = (match_index r1 r2 r3 r4 (data ++ word ++ [c]),
               data ++ word ++ [c], set_rx rest w1)).
  { intros fuel w1 Hrx1 Hnow1.
    assert (Hread : read_available r1 r2 r3 r4 (now w1) data (rx w1)
                    = (match_index r1 r2 r3 r4 (data ++ word ++ [c]),
                       data ++ word ++ [c], rest)).
    { rewrite Hrx1, Hrx. apply read_available_word; [lia | assumption..]. }
    destruct fuel; cbn [waitResponse_loop]; rewrite Hread;
      destruct (Z.eqb_spec (match_index r1 r2 r3 r4 (data ++ word ++ [c])) 0);
      try contradiction; reflexivity. }
  unfold waitResponse.
  destruct (Z.eqb_spec (match_index r1 r2 r3 r4 (data ++ word ++ [c])) 0)
    as [|_]; [contradiction|].
  destruct (Z.eq_dec (now w) a) as [E|E].
  - rewrite (Hat _ w eq_refl E).
    destruct (Z.eqb_spec (match_index r1 r2 r3 r4 (data ++ word ++ [c])) 0);
      [contradiction|].
    rewrite <- E, set_now_same. reflexivity.
  - destruct (stamped_snoc_cons a word c rest) as (x & l & Hcons).
    assert (Harr : arrived (now w) (rx w) = 0%nat).
    { rewrite Hrx, Hcons. simpl. destruct (Z.leb_spec a (now w)); [lia|].
      reflexivity. }
    cbn [waitResponse_loop]. rewrite read_available_none by exact Harr.
    rewrite set_rx_same. cbn [Z.eqb negb]. rewrite elapsed_start.
    destruct (Z.ltb_spec 0 (u32 timeout_ms)); [|lia].
    assert (Hw : wait_for 1 (millis w) (u32 timeout_ms) w = set_now a w).
    { unfold wait_for, available. rewrite Harr.
      cbn [Z.of_nat Z.leb Z.compare]. rewrite elapsed_start.
      destruct (Z.leb_spec (u32 timeout_ms) 0); [lia|].
      rewrite Hrx, Hcons. unfold ready_at. simpl.
      destruct (Z.leb_spec a (now w + (u32 timeout_ms - 0))); [|lia].
      rewrite Z.max_r by lia. reflexivity. }
    rewrite Hw, (Hat _ (set_now a w) eq_refl eq_refl).
    destruct (Z.eqb_spec (match_index r1 r2 r3 r4 (data ++ word ++ [c])) 0);
      [contradiction | reflexivity].
Qed.

(** [find] of a single byte over bytes that are all there. *)
Lemma find_raw_stamped x tmo a : forall tail seen t c rest,
  a <= t ->
  Forall (fun c => u8 c <> x) tail ->
  u8 c = x ->
  find_raw [x] seen tmo t (stamped a (tail ++ [c]) ++ rest) = (true, (t, rest)).
Proof.
  induction tail as [|y tail IH]; intros seen t c rest Ha Hne Hc;
    cbn [app stamped map find_raw]; unfold timely;
    (destruct (Z.leb_spec a t); [|lia]); cbn [orb]; rewrite Z.max_l by lia.
  - rewrite bool_decide_eq_true_2; [reflexivity|].
    rewrite Hc. apply suffix_app_r. reflexivity.
  - inversion Hne as [|? ? Hy Hne']; subst.
    rewrite bool_decide_eq_false_2.
    + apply (IH _ t c rest Ha Hne' eq_refl).
    + intros Hs. apply (suffix_snoc_inv_1 _ _ [] seen) in Hs. congruence.
Qed.

Lemma streamFind_stamped x a tail c (d : Dev) tmo rest :
  Forall (fun c => u8 c <> x) tail ->
  u8 c = x ->
  streamFind x (mkWorld a (stamped a (tail ++ [c]) ++ rest) tmo d)
  = (true, mkWorld a rest tmo d).
Proof.
  intros Hne Hc. unfold streamFind, find. cbn [rx now read_timeout].
  rewrite find_raw_stamped by (lia || assumption). reflexivity.
Qed.

(** The four status words: no terminator ends a proper prefix of one. *)
Lemma status_word_split i word :
  [STR_READY; STR_ERR; STR_BUSY; STR_NONE] !! i = Some word ->
  exists word' c,
    word = word' ++ [c] /\
    Forall (fun c => 0 < c < 128) (word' ++ [c]) /\
    no_match (Some STR_READY) (Some STR_ERR) (Some STR_BUSY) (Some STR_NONE)
      [] word' /\
    match_index (Some STR_READY) (Some STR_ERR) (Some STR_BUSY) (Some STR_NONE)
      ([] ++ word' ++ [c]) = Z.of_nat (S i).
Proof.
  intros Hi.
  destruct i as [|[|[|[|i]]]]; simpl in Hi; try discriminate;
    injection Hi as <-;
    [exists [82; 69; 65; 68], 89 | exists [69; 82], 82
    | exists [66; 85; 83], 89 | exists [78; 79; 78], 69];
    (split; [reflexivity|]); (split; [repeat constructor; lia|]);
    (split; [|vm_compute; reflexivity]);
    intros k Hk; simpl in Hk;
    destruct k as [|[|[|[|[|k]]]]]; try lia; vm_compute; reflexivity.
Qed.

(** A status line that arrives in one piece within the 5 s, on a queue that
    was empty: [getStatus] gives the status of the word the line starts with
    and reads the line to its end. *)
Theorem getStatus_reply (w : World Dev) d a i word tail :
  rx w = [] ->
  respond (dev w) get_status (now w) = (d, stamped a (word ++ tail ++ [10])) ->
  now w <= a < now w + 5000 ->
  [STR_READY; STR_ERR; STR_BUSY; STR_NONE] !! i = Some word ->
  Forall (fun c => u8 c <> 10) tail ->
  getStatus respond w
  = (status_of_index (Z.of_nat (S i)), mkWorld a [] (read_timeout w) d).
Proof.
  intros Hrx Hans Ha Hi Htail.
  destruct (status_word_split i word Hi) as (word' & c & -> & Hascii & Hno & Hm).
  unfold getStatus, sendCommand. rewrite Hans, Hrx. cbn [app].
  rewrite stamped_app.
  rewrite (waitResponse_reply 5000 _ _ _ _ _ a [] word' c
             (stamped a (tail ++ [10])));
    [|reflexivity | simpl; lia | change (u32 5000) with 5000; simpl; lia
     | exact Hascii | exact Hno | rewrite Hm; lia].
  rewrite Hm. unfold set_rx, set_now. cbn [now rx read_timeout dev].
  rewrite <- (app_nil_r (stamped a (tail ++ [10]))).
  rewrite streamFind_stamped by (assumption || reflexivity). reflexivity.
Qed.

Lemma s32_s32 x : s32 (s32 x) = s32 x.
Proof.
  unfold s32. replace ((x + 2 ^ 31) mod 2 ^ 32 - 2 ^ 31 + 2 ^ 31)
    with ((x + 2 ^ 31) mod 2 ^ 32) by lia.
  rewrite Z.mod_mod by lia. reflexivity.
Qed.

Lemma is_digit_u8 c : is_digit c = true -> u8 c = c.
Proof.
  unfold is_digit. intros H. apply andb_true_iff in H as [H1 H2].
  apply Z.leb_le in H1, H2. unfold u8. apply Z.mod_small. lia.
Qed.

(** The digit loop of [parseInt] over digits that are all there, up to the
    first byte that is neither a digit nor the ignored byte. *)
Lemma parseInt_raw_digits tmo a : forall ds value t stop rest,
  a <= t ->
  Forall (fun c => is_digit c = true) ds ->
  is_digit (u8 stop) = false -> u8 stop <> 1 ->
  parseInt_raw false false value tmo t (stamped a ds ++ (a, stop) :: rest)
  = (fold_left (fun v c => v * 10 + (c - 48)) ds value, (t, (a, stop) :: rest)).
Proof.
  induction ds as [|x ds IH]; intros value t stop rest Ha Hds Hstop Hone;
    cbn [app stamped map parseInt_raw fold_left]; unfold timely;
    (destruct (Z.leb_spec a t); [|lia]); cbn [orb]; rewrite Z.max_l by lia.
  - rewrite Hstop. destruct (Z.eqb_spec (u8 stop) 1); [contradiction|].
    reflexivity.
  - inversion Hds as [|? ? Hx Hds']; subst.
    rewrite (is_digit_u8 x Hx), Hx. cbn [orb].
    assert (Hneg : (x =? 45) = false).
    { unfold is_digit in Hx. apply andb_true_iff in Hx as [H1 _].
      apply Z.leb_le in H1. apply Z.eqb_neq. lia. }
    rewrite Hneg.
    replace (value * 10 + x - 48) with (value * 10 + (x - 48)) by lia.
    apply (IH _ t stop rest Ha Hds' Hstop Hone).
Qed.

(** The status line ["READY,<size>"] that arrives in one piece within the
    5 s, on a queue that was empty: [getImageSize] gives the number after
    the comma, as a 32-bit integer, and reads the line to its end. *)
Theorem getImageSize_reply (w : World Dev) d a i word ds :
  rx w = [] ->
  respond (dev w) get_status (now w)
  = (d, stamped a (word ++ [44] ++ ds ++ [13; 10])) ->
  now w <= a < now w + 5000 ->
  [STR_READY; STR_ERR; STR_BUSY; STR_NONE] !! i = Some word ->
  ds <> [] -> Forall (fun c => is_digit c = true) ds ->
  getImageSize respond w = (s32 (decimal ds), mkWorld a [] (read_timeout w) d).
Proof.
  intros Hrx Hans Ha Hi Hne Hds.
  destruct (status_word_split i word Hi) as (word' & c & -> & Hascii & Hno & Hm).
  unfold getImageSize, sendCommand. rewrite Hans, Hrx. cbn [app].
  rewrite stamped_app.
  rewrite (waitResponse_reply 5000 _ _ _ _ _ a [] word' c
             (stamped a (44 :: ds ++ [13; 10])));
    [|reflexivity | simpl; lia | change (u32 5000) with 5000; simpl; lia
     | exact Hascii | exact Hno | rewrite Hm; lia].
  unfold set_rx, set_now. cbn [now rx read_timeout dev].
  change (stamped a (44 :: ds ++ [13; 10]))
    with (stamped a ([] ++ [44]) ++ stamped a (ds ++ [13; 10])).
  rewrite streamFind_stamped by (constructor || reflexivity).
  destruct ds as [|x ds]; [contradiction|].
  inversion Hds as [|? ? Hx Hds']; subst.
  assert (Hneg : (x =? 45) = false).
  { unfold is_digit in Hx. apply andb_true_iff in Hx as [H1 _].
    apply Z.leb_le in H1. apply Z.eqb_neq. lia. }
  unfold parseInt. cbn [rx now read_timeout app stamped map peekNextDigit_raw].
  unfold timely. rewrite Z.leb_refl. cbn [orb].
  rewrite (is_digit_u8 x Hx), Hx, orb_true_r.
  rewrite Z.max_id.
  cbn [parseInt_raw]. unfold timely. rewrite Z.leb_refl. cbn [orb].
  rewrite (is_digit_u8 x Hx), Hneg. cbn [orb].
  rewrite Z.max_id.
  change (map (fun b => (a, b)) (ds ++ [13; 10]))
    with (stamped a (ds ++ [13; 10])).
  rewrite stamped_app. cbn [stamped map].
  rewrite parseInt_raw_digits by (lia || assumption || reflexivity || discriminate).
  unfold set_rx, set_now. cbn [now rx read_timeout dev].
  change [(a, 13); (a, 10)] with (stamped a ([13] ++ [10]) ++ []).
  rewrite streamFind_stamped
    by (repeat constructor; discriminate || reflexivity).
  rewrite s32_u32, s32_s32. unfold decimal. cbn [fold_left]. rewrite Hx.
  replace (0 * 10 + x - 48) with (0 * 10 + (x - 48)) by lia. reflexivity.
Qed.

(** ** A chunk request that is not answered *)

(** When the camera sends nothing, [getImageChunk] gives up 5 s after the
    command and returns 0 with nothing stored; stale bytes that were in the
    buffer have been dropped, not returned. *)
Theorem getImageChunk_unanswered offset length (w : World Dev) :
  let t := now (streamDump w) in
  let answer := respond (dev w) (get_image (Z.of_N offset) (Z.of_N length)) t in
  Forall (fun p => fst p <= now w) (rx w) ->
  snd answer = [] ->
  getImageChunk respond offset length w
  = (0, [], mkWorld (t + 5000) [] (read_timeout w) (fst answer)).
Proof.
  intros t answer Hall Hans. subst t answer.
  pose proof (streamDump_dev w) as Hdev.
  pose proof (streamDump_arrived w Hall) as Hrx.
  pose proof (streamDump_read_timeout w) as Htmo.
  unfold getImageChunk, sendCommand. rewrite Hdev, Hrx, Htmo.
  set (w1 := streamDump w) in *.
  destruct (respond (dev w) (get_image (Z.of_N offset) (Z.of_N length)) (now w1))
    as [d ans].
  simpl in Hans. subst ans. cbn [app fst].
  unfold wait_for, available. cbn [rx now arrived Z.of_nat Z.leb Z.compare].
  assert (He : elapsed (mkWorld (now w1) [] (read_timeout w) d) (millis w1) = 0).
  { unfold elapsed, millis. cbn [now]. rewrite Z.sub_diag. reflexivity. }
  rewrite He. cbn [Z.leb Z.compare ready_at take map]. 
  unfold set_now. cbn [now rx read_timeout dev arrived Z.of_nat Z.eqb].
  rewrite Z.sub_0_r. reflexivity.
Qed.

(** ** The transfer engine without a camera *)

Lemma transfer_loop_unanswered image_size chunk_size t0 s tmo :
  (forall d c t, snd (respond d c t) = []) ->
  eof s = false ->
  forall (j fuel : nat) (d : Dev),
  (j <= 24)%nat -> (j < fuel)%nat ->
  transfer_loop respond fuel image_size chunk_size (u32 t0) s
    (mkWorld (t0 + 5000 * (24 - Z.of_nat j)) [] tmo d)
  = (true, s,
     mkWorld (t0 + 120000) [] tmo
       (asked respond j
          (get_image (start_next_chunk s)
             (Z.min chunk_size (Z.max (bytes_remaining s) 1)))
          5000 (t0 + 5000 * (24 - Z.of_nat j)) d)).
Proof.
  intros Hsilent Heof.
  assert (Hel : forall k l (d : Dev), 0 <= k <= 24 ->
            elapsed (mkWorld (t0 + 5000 * k) l tmo d) (u32 t0) = 5000 * k).
  { intros k l d Hk.
    change (mkWorld (t0 + 5000 * k) l tmo d)
      with (set_now (now (mkWorld t0 l tmo d) + 5000 * k) (mkWorld t0 l tmo d)).
    rewrite elapsed_shift.
    change (u32 t0) with (millis (mkWorld t0 l tmo d)).
    rewrite elapsed_start. apply u32_small. lia. }
  induction j as [|j IH]; intros fuel d Hj Hfuel;
    (destruct fuel as [|fuel]; [lia|]); cbn [transfer_loop];
    rewrite Heof, Hel by lia; cbn [negb andb].
  - destruct (Z.ltb_spec (5000 * (24 - Z.of_nat 0)) 120000); [lia|].
    cbn [asked]. replace (t0 + 5000 * (24 - Z.of_nat 0)) with (t0 + 120000) by lia.
    reflexivity.
  - destruct (Z.ltb_spec (5000 * (24 - Z.of_nat (S j))) 120000); [|lia].
    unfold sendCommand. cbn [dev now rx read_timeout asked].
    pose proof (Hsilent d
                  (get_image (start_next_chunk s)
                     (Z.min chunk_size (Z.max (bytes_remaining s) 1)))
                  (t0 + 5000 * (24 - Z.of_nat (S j)))) as Hans.
    destruct (respond d _ _) as [d1 ans]. simpl in Hans. subst ans.
    cbn [app fst]. unfold wait_for, available.
    cbn [rx now arrived Z.of_nat Z.leb Z.compare].
    change (millis (mkWorld (t0 + 5000 * (24 - Z.of_nat (S j))) [] tmo d))
      with (millis (mkWorld (t0 + 5000 * (24 - Z.of_nat (S j))) [] tmo d1)).
    rewrite elapsed_start. cbn [Z.leb Z.compare ready_at take map].
    unfold set_now. cbn [now rx read_timeout dev arrived Z.of_nat Z.eqb].
    replace (t0 + 5000 * (24 - Z.of_nat (S j)) + (5000 - 0))
      with (t0 + 5000 * (24 - Z.of_nat j)) by lia.
    replace (t0 + 5000 * (24 - Z.of_nat (S j)) + 5000)
      with (t0 + 5000 * (24 - Z.of_nat j)) by lia.
    apply IH; lia.
Qed.

(** With a camera that never sends anything and an empty buffer,
    [transferImage] asks 24 times, 5 s apart, each time for the chunk at
    offset 0, and returns 0 at the 120 s deadline with nothing written to
    the sink: the camera is left as these 24 requests leave it, the first
    of them made when the transfer starts, and the stream timeout is as it
    was. *)
Theorem transferImage_unanswered fuel image_size chunk_size (w : World Dev) :
  (forall d c t, snd (respond d c t) = []) ->
  rx w = [] ->
  (24 < fuel)%nat ->
  let w0 := if image_size =? 0 then snd (getImageSize respond w) else w in
  let request :=
    get_image 0 (Z.min chunk_size
                   (Z.max (image_size + start_data_byte + extra_read_buff) 1)) in
  exists w',
    transferImage respond fuel image_size chunk_size w = Some (0, [], w') /\
    rx w' = [] /\ now w' = now w0 + 120000 /\
    dev w' = asked respond 24 request 5000 (now w0) (dev w0) /\
    read_timeout w' = read_timeout w.
Proof.
  intros Hsilent Hrx Hfuel w0 request.
  unfold transferImage.
  assert (Hstart :
            (if image_size =? 0 then getImageSize respond w else (image_size, w))
            = (image_size, mkWorld (now w0) [] (read_timeout w) (dev w0))).
  { subst w0. destruct (Z.eqb_spec image_size 0) as [->|_].
    - rewrite getImageSize_unanswered by (exact Hrx || apply Hsilent).
      reflexivity.
    - rewrite <- Hrx. destruct w; reflexivity. }
  rewrite Hstart.
  pose proof (transfer_loop_unanswered image_size chunk_size (now w0)
                (xfer_init image_size) (read_timeout w) Hsilent eq_refl 24 fuel
                (dev w0) ltac:(lia) Hfuel) as Hloop.
  change (Z.of_nat 24) with 24 in Hloop.
  rewrite Z.sub_diag, Z.mul_0_r, Z.add_0_r in Hloop.
  unfold millis. cbn [now]. rewrite Hloop.
  eexists. split; [reflexivity|]. repeat split.
Qed.

(** ** What reaches the sink *)

Lemma u8_u8 c : u8 (u8 c) = u8 c.
Proof. unfold u8. apply Z.mod_mod. lia. Qed.

(** The [for] loop writes only bytes it has read, in the order read, and
    never one of the first two of a chunk; its count is the number of bytes
    it took from the buffer. *)
Theorem read_chunk_writes_received n : forall image_size start i bytes_read s
    (w : World Dev),
  0 <= i ->
  let '(bytes_read', s', w') :=
    read_chunk n image_size start i bytes_read s w in
  exists consumed out,
    rx w = consumed ++ rx w' /\
    bytes_read' = bytes_read + Z.of_nat (length consumed) /\
    sink s' = sink s ++ out /\
    out `sublist_of` drop (Z.to_nat (start_data_byte - i)) (rx_bytes consumed).
Proof.
  induction n as [|n IH]; intros image_size start i bytes_read s w Hi.
  - simpl. exists [], []. simpl. rewrite app_nil_r, Z.add_0_r.
    repeat split. rewrite drop_nil. constructor.
  - cbn [read_chunk]. set (w1 := wait_for 1 (millis w) 10 w).
    destruct (available w1 =? 0) eqn:Hav.
    + exists [], []. simpl. rewrite app_nil_r, Z.add_0_r.
      subst w1. rewrite wait_for_rx. repeat split. rewrite drop_nil. constructor.
    + destruct (read_available_byte w1 Hav) as (a & c & l & Hrx1 & Hrd).
      rewrite Hrd. rewrite u8_u8.
      assert (Hrxw : rx w = (a, c) :: l)
        by (subst w1; rewrite wait_for_rx in Hrx1; exact Hrx1).
      set (s1 := process_byte image_size i (u8 c) _ s).
      specialize (IH image_size start (i + 1) (bytes_read + 1) s1 (set_rx l w1)
                    ltac:(lia)).
      destruct (read_chunk n image_size start (i + 1) (bytes_read + 1) s1
                  (set_rx l w1)) as [[br' s'] w'].
      destruct IH as (consumed & out & Hc & Hbr & Hsink & Hsub).
      simpl in Hc. subst l.
      assert (Hs1 : exists o, sink s1 = sink s ++ o /\
                      (o = [] \/ (o = [u8 c] /\ start_data_byte <= i))).
      { subst s1. unfold process_byte. cbn [sink].
        destruct (Z.leb_spec start_data_byte i); cbn [andb].
        - destruct (negb _).
          + exists [u8 c]. split; [reflexivity|]. right. split; [reflexivity|lia].
          + exists []. rewrite app_nil_r. split; [reflexivity | left; reflexivity].
        - exists []. rewrite app_nil_r. split; [reflexivity | left; reflexivity]. }
      destruct Hs1 as (o & Hso & Ho).
      exists ((a, c) :: consumed), (o ++ out).
      split; [exact Hrxw|]. split; [rewrite Hbr; simpl length; lia|].
      split; [rewrite Hsink, Hso, app_assoc; reflexivity|].
      unfold start_data_byte in *.
      destruct Ho as [->|[-> Hge]]; cbn [app rx_bytes map].
      * destruct (Z_le_dec 2 i).
        -- replace (Z.to_nat (2 - i)) with 0%nat by lia.
           replace (Z.to_nat (2 - (i + 1))) with 0%nat in Hsub by lia.
           rewrite drop_0 in *. apply sublist_cons. exact Hsub.
        -- replace (Z.to_nat (2 - i)) with (S (Z.to_nat (2 - (i + 1)))) by lia.
           exact Hsub.
      * replace (Z.to_nat (2 - i)) with 0%nat by lia.
        replace (Z.to_nat (2 - (i + 1))) with 0%nat in Hsub by lia.
        rewrite drop_0 in *. apply sublist_skip. exact Hsub.
Qed.

(** ** The count that [transferImage] returns *)

Lemma read_chunk_now n : forall image_size start i bytes_read s (w : World Dev),
  now w <= now (snd (read_chunk n image_size start i bytes_read s w)).
Proof.
  induction n as [|n IH]; intros image_size start i bytes_read s w;
    [simpl; lia|].
  cbn [read_chunk]. pose proof (wait_for_now 1 (millis w) 10 w) as Hw.
  set (w1 := wait_for 1 (millis w) 10 w) in *.
  destruct (available w1 =? 0) eqn:Hav; [simpl; exact Hw|].
  destruct (read_available_byte w1 Hav) as (a & c & l & Hrx1 & Hrd).
  rewrite Hrd.
  specialize (IH image_size start (i + 1) (bytes_read + 1)
                (process_byte image_size i (u8 (u8 c))
                   (120000 <? elapsed (set_rx l w1) start) s) (set_rx l w1)).
  simpl now in IH at 1. lia.
Qed.

Lemma transfer_loop_now fuel : forall image_size chunk_size start s
    (w : World Dev),
  now w <= now (snd (transfer_loop respond fuel image_size chunk_size start s w)).
Proof.
  induction fuel as [|fuel IH]; intros image_size chunk_size start s w;
    [simpl; lia|].
  cbn [transfer_loop].
  destruct (negb (eof s) && (elapsed w start <? 120000)); [|simpl; lia].
  set (btr := Z.min chunk_size (Z.max (bytes_remaining s) 1)).
  pose proof (wait_for_now 1 (millis w) 5000
                (sendCommand respond (get_image (start_next_chunk s) btr) w))
    as Hw.
  rewrite sendCommand_now in Hw.
  set (w2 := wait_for 1 (millis w) 5000 _) in *.
  destruct (available w2 =? 0).
  - specialize (IH image_size chunk_size start s w2). lia.
  - pose proof (read_chunk_now (Z.to_nat (btr + start_data_byte)) image_size
                  start 0 0 s w2) as Hr.
    destruct (read_chunk _ _ _ _ _ _ w2) as [[br s1] w3]. simpl in Hr.
    destruct (eof (end_chunk br btr s1)); [simpl; lia|].
    specialize (IH image_size chunk_size start (end_chunk br btr s1) w3). lia.
Qed.

Lemma process_byte_counted image_size i b s :
  counted s -> counted (process_byte image_size i b false s).
Proof.
  unfold counted, process_byte. cbn [total_bytes_written sink]. intros H.
  destruct (_ && negb _); [rewrite length_app; simpl; lia | exact H].
Qed.

Lemma read_chunk_counted t0 n : forall image_size i bytes_read s (w : World Dev),
  counted s -> t0 <= now w ->
  now (snd (read_chunk n image_size (u32 t0) i bytes_read s w)) - t0 <= 120000 ->
  counted (snd (fst (read_chunk n image_size (u32 t0) i bytes_read s w))).
Proof.
  induction n as [|n IH]; intros image_size i bytes_read s w Hs Ht;
    [intros _; exact Hs|].
  cbn [read_chunk]. pose proof (wait_for_now 1 (millis w) 10 w) as Hw.
  set (w1 := wait_for 1 (millis w) 10 w) in *.
  destruct (available w1 =? 0) eqn:Hav; [intros _; exact Hs|].
  destruct (read_available_byte w1 Hav) as (a & c & l & Hrx1 & Hrd).
  rewrite Hrd. intros Hend.
  pose proof (read_chunk_now n image_size (u32 t0) (i + 1) (bytes_read + 1)
                (process_byte image_size i (u8 (u8 c))
                   (120000 <? elapsed (set_rx l w1) (u32 t0)) s) (set_rx l w1))
    as Hmono.
  simpl now in Hmono at 1.
  assert (Hlate : (120000 <? elapsed (set_rx l w1) (u32 t0)) = false).
  { rewrite elapsed_since by (simpl now; lia). simpl now.
    apply Z.ltb_ge. lia. }
  rewrite Hlate in *.
  apply IH; [apply process_byte_counted; exact Hs | simpl now; lia | exact Hend].
Qed.

Lemma transfer_loop_counted t0 fuel : forall image_size chunk_size s
    (w : World Dev),
  counted s -> t0 <= now w ->
  now (snd (transfer_loop respond fuel image_size chunk_size (u32 t0) s w)) - t0
  <= 120000 ->
  counted (snd (fst (transfer_loop respond fuel image_size chunk_size (u32 t0)
                       s w))).
Proof.
  induction fuel as [|fuel IH]; intros image_size chunk_size s w Hs Ht;
    [intros _; exact Hs|].
  cbn [transfer_loop].
  destruct (negb (eof s) && (elapsed w (u32 t0) <? 120000));
    [|intros _; exact Hs].
  set (btr := Z.min chunk_size (Z.max (bytes_remaining s) 1)).
  pose proof (wait_for_now 1 (millis w) 5000
                (sendCommand respond (get_image (start_next_chunk s) btr) w))
    as Hw.
  rewrite sendCommand_now in Hw.
  set (w2 := wait_for 1 (millis w) 5000 _) in *.
  destruct (available w2 =? 0).
  - apply IH; [exact Hs | lia].
  - pose proof (read_chunk_now (Z.to_nat (btr + start_data_byte)) image_size
                  (u32 t0) 0 0 s w2) as Hr.
    pose proof (read_chunk_counted t0 (Z.to_nat (btr + start_data_byte))
                  image_size 0 0 s w2 Hs ltac:(lia)) as Hc.
    destruct (read_chunk _ _ _ _ _ _ w2) as [[br s1] w3].
    simpl in Hr, Hc.
    destruct (eof (end_chunk br btr s1)) eqn:Heof.
    + simpl. intros Hend. apply Hc. exact Hend.
    + intros Hend.
      pose proof (transfer_loop_now fuel image_size chunk_size (u32 t0)
                    (end_chunk br btr s1) w3) as Hmono.
      apply IH; [apply Hc; lia | lia | exact Hend].
Qed.

(** When the transfer is over within the 120 s, the count returned is the
    number of bytes written to the sink, as a [uint32_t]. *)
Theorem transferImage_returns_bytes_written fuel image_size chunk_size
    (w : World Dev) count out w' :
  let w0 := if image_size =? 0 then snd (getImageSize respond w) else w in
  transferImage respond fuel image_size chunk_size w = Some (count, out, w') ->
  now w' - now w0 <= 120000 ->
  count = u32 (Z.of_nat (length out)).
Proof.
  intros w0. unfold transferImage.
  assert (Hstart : exists sz,
            (if image_size =? 0 then getImageSize respond w else (image_size, w))
            = (sz, w0)).
  { subst w0. destruct (image_size =? 0).
    - destruct (getImageSize respond w) as [sz w1]. exists sz. reflexivity.
    - exists image_size. reflexivity. }
  destruct Hstart as (sz & ->).
  pose proof (transfer_loop_counted (now w0) fuel sz chunk_size (xfer_init sz)
                w0 eq_refl ltac:(lia)) as Hc.
  unfold millis.
  destruct (transfer_loop respond fuel sz chunk_size (u32 (now w0))
              (xfer_init sz) w0) as [[finished s] w1].
  simpl in Hc. destruct finished; [|discriminate].
  intros H Hend. injection H as <- <- <-.
  rewrite (Hc Hend). reflexivity.
Qed.

(** ** The info block, end to end *)

(** The busy-wait for the first byte of a reply that comes before the
    limit ends when the byte arrives. *)
Lemma wait_for_first_byte (w : World Dev) limit a c l :
  rx w = (a, c) :: l -> now w <= a -> a - now w < limit ->
  wait_for 1 (millis w) limit w = set_now a w.
Proof.
  intros Hrx Hnow Hlim. destruct (Z.eq_dec (now w) a) as [E|E].
  - rewrite (wait_for_available w _ _ a c l Hrx) by lia.
    rewrite <- E, set_now_same. reflexivity.
  - unfold wait_for, available. rewrite Hrx. cbn [arrived].
    destruct (Z.leb_spec a (now w)); [lia|].
    cbn [Z.of_nat Z.leb Z.compare]. rewrite elapsed_start.
    destruct (Z.leb_spec limit 0); [lia|].
    unfold ready_at. simpl.
    destruct (Z.leb_spec a (now w + (limit - 0))); [|lia].
    rewrite Z.max_r by lia. reflexivity.
Qed.

Lemma find_nonempty target (w : World Dev) :
  target <> [] ->
  find target w
  = (let '(r, (t, l)) :=
       find_raw target [] (read_timeout w) (now w) (rx w) in
     (r, set_rx l (set_now t w))).
Proof. destruct target; [contradiction | reflexivity]. Qed.

(** [find] over a text that starts with the target reads the target and no
    more. *)
Lemma find_raw_prefix tmo a t rest : a <= t -> forall tl seen,
  tl <> [] -> Forall is_byte tl ->
  find_raw (seen ++ tl) seen tmo t (stamped a tl ++ stamped a rest)
  = (true, (t, stamped a rest)).
Proof.
  intros Ha. induction tl as [|c tl IH]; intros seen Hne Hb; [contradiction|].
  inversion Hb as [|? ? Hc Hb']; subst.
  cbn [stamped map app find_raw]. unfold timely.
  destruct (Z.leb_spec a t); [|lia]. cbn [orb]. rewrite Z.max_l by lia.
  assert (Hu : u8 c = c) by (apply Z.mod_small; exact Hc). rewrite Hu.
  destruct tl as [|c' tl].
  - rewrite bool_decide_eq_true_2 by reflexivity. reflexivity.
  - rewrite bool_decide_eq_false_2.
    + change (seen ++ c :: c' :: tl) with (seen ++ [c] ++ c' :: tl).
      rewrite app_assoc. apply IH; [discriminate | exact Hb'].
    + intros Hs. apply suffix_length in Hs. rewrite !length_app in Hs.
      simpl in Hs. lia.
Qed.

Lemma prompt_stamped tmo a t bs : a <= t -> prompt tmo t (stamped a bs) = true.
Proof.
  intros Ha. revert t Ha. induction bs as [|b bs IH]; intros t Ha; [reflexivity|].
  cbn [stamped map prompt]. unfold timely.
  destruct (Z.leb_spec a t); [|lia]. cbn [orb andb]. apply IH. lia.
Qed.

Lemma rx_bytes_stamped a bs : Forall is_byte bs -> rx_bytes (stamped a bs) = bs.
Proof.
  induction 1 as [|b bs Hb _ IH]; [reflexivity|].
  cbn [stamped map rx_bytes]. cbn [snd].
  change (map (fun p : Z * Z => u8 (snd p)) (map (fun b0 => (a, b0)) bs))
    with (rx_bytes (stamped a bs)).
  rewrite IH. f_equal. apply Z.mod_small. exact Hb.
Qed.

(** A number that the camera writes after its label at the start of the
    info block, in 1 to 10 digits closed by CR, is the number that
    [getCameraInfoInt] returns when it fits a [long], that is up to
    2147483647. *)
Theorem getCameraInfoInt_reads_number tag searchSkipTag (w : World Dev) d a ds
    post :
  rx w = [] ->
  respond (dev w) get_info (now w) = (d, stamped a (tag ++ ds ++ [13] ++ post)) ->
  now w <= a < now w + 5000 ->
  tag <> [] -> Forall is_byte tag ->
  ds <> [] -> (length ds <= 10)%nat ->
  Forall (fun c => is_digit c = true) ds ->
  decimal ds < 2 ^ 31 ->
  fst (getCameraInfoInt respond tag 13 0 searchSkipTag w) = decimal ds.
Proof.
  intros Hrx Hans Ha Htag Htagb Hds Hlen Hdig Hfit.
  unfold getCameraInfoInt, sendCommand. rewrite Hans, Hrx. cbn [app].
  assert (Hblock : exists c0 l0,
            stamped a (tag ++ ds ++ 13 :: post) = (a, c0) :: l0).
  { destruct tag as [|x tag']; [contradiction|]. simpl. eauto. }
  destruct Hblock as (c0 & l0 & Eblock). rewrite Eblock.
  change (millis w) with (millis (mkWorld (now w) ((a, c0) :: l0)
                                    (read_timeout w) d)).
  rewrite (wait_for_first_byte
             (mkWorld (now w) ((a, c0) :: l0) (read_timeout w) d) 5000 a c0 l0
             eq_refl)
    by (cbn [now]; lia).
  rewrite <- Eblock. rewrite find_nonempty by exact Htag.
  unfold set_now. cbn [rx now read_timeout dev].
  rewrite stamped_app.
  rewrite (find_raw_prefix _ a a _ ltac:(lia) tag [] Htag Htagb).
  cbn [negb]. unfold setTimeout, getTimeout, set_rx.
  cbn [rx now read_timeout dev]. change (Z.to_nat (u8 0)) with 0%nat.
  cbn [skip_fields].
  rewrite stamped_app. cbn [stamped map].
  change (map (fun b => (a, b)) post) with (stamped a post).
  pose proof (readBytesUntil_field 13 (stamped a ds) 11 a 15 d a 13
                (stamped a post)) as Hfield.
  assert (Hdb : Forall is_byte ds).
  { eapply Forall_impl; [exact Hdig|]. intros c Hc. unfold is_digit in Hc.
    apply andb_true_iff in Hc as [H1 H2]. apply Z.leb_le in H1, H2.
    unfold is_byte. lia. }
  rewrite rx_bytes_stamped in Hfield by exact Hdb.
  assert (Hsl : length (stamped a ds) = length ds)
    by (unfold stamped; apply length_map).
  specialize (Hfield
    ltac:(change [(a, 13)] with (stamped a [13]); rewrite <- stamped_app;
          apply prompt_stamped; lia)).
  assert (Hne13 : Forall (fun p : Z * Z => u8 (snd p) <> u8 13) (stamped a ds)).
  { unfold stamped. apply Forall_map.
    eapply Forall_impl; [exact Hdig|]. intros c Hc. cbn [snd].
    rewrite (is_digit_u8 c Hc). unfold is_digit in Hc.
    apply andb_true_iff in Hc as [H1 H2]. apply Z.leb_le in H1, H2.
    change (u8 13) with 13. lia. }
  specialize (Hfield Hne13 eq_refl ltac:(lia)).
  change (u8 13) with 13 in Hfield.
  destruct (readBytesUntil 13 11 _) as [buf w3]. simpl in Hfield. subst buf.
  cbn [fst].
  destruct (Z.ltb_spec 0 (Z.of_nat (length ds)));
    [|destruct ds; [contradiction | simpl in *; lia]].
  destruct (Z.ltb_spec (Z.of_nat (length ds)) 11); [|lia]. cbn [andb].
  assert (Hpos : 0 <= decimal ds).
  { unfold decimal. clear -Hdig.
    assert (Hacc : forall acc, 0 <= acc ->
              0 <= fold_left (fun v c => v * 10 + (c - 48)) ds acc).
    { induction Hdig as [|c ds Hc _ IH]; intros acc Hacc; [exact Hacc|].
      cbn [fold_left]. apply IH. unfold is_digit in Hc.
      apply andb_true_iff in Hc as [H1 _]. apply Z.leb_le in H1. lia. }
    apply Hacc. lia. }
  rewrite s32_u32, atol_fits
    by (rewrite atol_number_decimal by assumption; lia).
  rewrite atol_number_decimal by assumption. apply s32_fits. lia.
Qed.

(** ** Printing the info block *)

Lemma readStringUntil_raw_stamped e tmo a : forall line t ce rest,
  a <= t ->
  Forall (fun c => u8 c <> e) line -> u8 ce = e ->
  readStringUntil_raw e tmo t (stamped a (line ++ [ce]) ++ rest)
  = (map u8 line, (t, rest)).
Proof.
  induction line as [|c line IH]; intros t ce rest Ha Hne He;
    cbn [app stamped map readStringUntil_raw]; unfold timely;
    (destruct (Z.leb_spec a t); [|lia]); cbn [orb]; rewrite Z.max_l by lia.
  - rewrite He, Z.eqb_refl. reflexivity.
  - inversion Hne as [|? ? Hc Hne']; subst.
    destruct (Z.eqb_spec (u8 c) (u8 ce)); [contradiction|].
    change (map (fun b => (a, b)) (line ++ [ce])) with (stamped a (line ++ [ce])).
    rewrite (IH t ce rest Ha Hne' eq_refl). reflexivity.
Qed.

Lemma print_lines_stamped a tmo (d : Dev) : forall ls fuel out t,
  a <= t ->
  Forall (Forall (fun c => is_byte c /\ c <> 10)) ls ->
  (length ls <= fuel)%nat ->
  fst (print_lines fuel out (mkWorld t (stamped a (lines_with [10] ls)) tmo d))
  = out ++ lines_with [13; 10] ls.
Proof.
  induction ls as [|l ls IH]; intros fuel out t Ha Hls Hfuel.
  - destruct fuel; simpl; rewrite app_nil_r; reflexivity.
  - destruct fuel as [|fuel]; [simpl in Hfuel; lia|].
    inversion Hls as [|? ? Hl Hls']; subst.
    unfold lines_with. cbn [map concat]. fold (lines_with [10] ls).
    fold (lines_with [13; 10] ls).
    rewrite stamped_app. cbn [print_lines].
    assert (Hav : (available (mkWorld t (stamped a (l ++ [10])
                                ++ stamped a (lines_with [10] ls)) tmo d) =? 0)
                  = false).
    { destruct l as [|c l]; simpl stamped;
        eapply available_head; try reflexivity; simpl; lia. }
    rewrite Hav. unfold readStringUntil. cbn [rx now read_timeout].
    rewrite readStringUntil_raw_stamped.
    + unfold delay, set_rx, set_now. cbn [now rx read_timeout dev].
      rewrite (IH fuel _ (t + Z.max 0 2)) by (simpl in Hfuel; lia || assumption).
      assert (Hmap : map u8 l = l).
      { clear -Hl. induction Hl as [|c l [Hc _] _ IH']; [reflexivity|].
        simpl. rewrite IH'. f_equal. apply Z.mod_small. exact Hc. }
      rewrite Hmap, <- !app_assoc. reflexivity.
    + exact Ha.
    + eapply Forall_impl; [exact Hl|]. intros c [Hc Hn].
      rewrite (Z.mod_small c 256 Hc : u8 c = c). exact Hn.
    + reflexivity.
Qed.

Lemma length_lines_with (eol : list Z) (ls : list (list Z)) :
  (length ls <= length (lines_with (10%Z :: eol) ls))%nat.
Proof.
  induction ls as [|l ls IH]; [simpl; lia|].
  unfold lines_with in *. cbn [map concat]. rewrite !length_app. simpl. lia.
Qed.

(** [printCameraInfo] copies the info block line by line: the LF that ends
    a line of the camera is dropped and the line is printed with CR LF after
    it, so a camera line that ends with CR LF comes out with CR CR LF. *)
Theorem printCameraInfo_copies_lines (w : World Dev) d a ls :
  rx w = [] ->
  respond (dev w) get_info (now w) = (d, stamped a (lines_with [10] ls)) ->
  now w <= a < now w + 5000 ->
  Forall (Forall (fun c => is_byte c /\ c <> 10)) ls ->
  fst (printCameraInfo respond w) = lines_with [13; 10] ls.
Proof.
  intros Hrx Hans Ha Hls.
  unfold printCameraInfo, sendCommand. rewrite Hans, Hrx. cbn [app].
  pose proof (wait_for_rx 1 (millis w) 5000
                (mkWorld (now w) (stamped a (lines_with [10] ls))
                   (read_timeout w) d)) as Hwrx.
  pose proof (wait_for_now 1 (millis w) 5000
                (mkWorld (now w) (stamped a (lines_with [10] ls))
                   (read_timeout w) d)) as Hwnow.
  destruct ls as [|l ls'].
  - cbn [rx] in Hwrx. rewrite Hwrx. simpl.
    destruct (available _ =? 0); reflexivity.
  - assert (Hblock : exists c0 l0,
              stamped a (lines_with [10] (l :: ls')) = (a, c0) :: l0).
    { destruct l; simpl; eauto. }
    destruct Hblock as (c0 & l0 & Eblock). rewrite Eblock.
    change (millis w) with (millis (mkWorld (now w) ((a, c0) :: l0)
                                      (read_timeout w) d)).
    rewrite (wait_for_first_byte
               (mkWorld (now w) ((a, c0) :: l0) (read_timeout w) d) 5000 a c0
               l0 eq_refl) by (cbn [now]; lia).
    unfold set_now. cbn [rx now read_timeout dev]. rewrite <- Eblock.
    rewrite print_lines_stamped; [reflexivity | lia | exact Hls |].
    unfold stamped. rewrite length_map. apply (length_lines_with []).
Qed.

(** ** The rest of the info block *)

Lemma find_raw_flowing target tmo : forall l seen t,
  prompt tmo t l = true ->
  prompt tmo (fst (snd (find_raw target seen tmo t l)))
    (snd (snd (find_raw target seen tmo t l))) = true /\
  (fst (find_raw target seen tmo t l) = false ->
   snd (snd (find_raw target seen tmo t l)) = []).
Proof.
  induction l as [|[a c] l IH]; intros seen t Hp; simpl.
  - split; reflexivity.
  - simpl in Hp. apply andb_true_iff in Hp as [Hp Hp']. rewrite Hp.
    destruct (bool_decide _); simpl.
    + split; [exact Hp' | discriminate].
    + apply IH. exact Hp'.
Qed.

Lemma find_flowing target (w : World Dev) :
  flowing w ->
  flowing (snd (find target w)) /\
  (fst (find target w) = false -> rx (snd (find target w)) = []).
Proof.
  unfold flowing. intros Hp. destruct target as [|x target].
  - simpl. split; [exact Hp | discriminate].
  - unfold find.
    pose proof (find_raw_flowing (x :: target) (read_timeout w) (rx w) []
                  (now w) Hp) as H.
    destruct (find_raw (x :: target) [] (read_timeout w) (now w) (rx w))
      as [r [t l]].
    exact H.
Qed.

Lemma skip_fields_flowing n tag : forall w : World Dev,
  flowing w -> flowing (skip_fields n tag w).
Proof.
  induction n as [|n IH]; intros w Hp; [exact Hp|].
  simpl. apply IH. apply find_flowing. exact Hp.
Qed.

Lemma readStringUntil_raw_flowing e tmo : forall l t,
  prompt tmo t l = true ->
  prompt tmo (fst (snd (readStringUntil_raw e tmo t l)))
    (snd (snd (readStringUntil_raw e tmo t l))) = true.
Proof.
  induction l as [|[a c] l IH]; intros t Hp; simpl; [reflexivity|].
  simpl in Hp. apply andb_true_iff in Hp as [Hp Hp']. rewrite Hp.
  destruct (u8 c =? e); [exact Hp'|].
  specialize (IH (Z.max t a) Hp').
  destruct (readStringUntil_raw e tmo (Z.max t a) l) as [str [t' l']].
  exact IH.
Qed.

Lemma readStringUntil_flowing e (w : World Dev) :
  flowing w -> flowing (snd (readStringUntil e w)).
Proof.
  unfold flowing, readStringUntil. intros Hp.
  pose proof (readStringUntil_raw_flowing e (read_timeout w) (rx w) (now w) Hp)
    as H.
  destruct (readStringUntil_raw e (read_timeout w) (now w) (rx w))
    as [str [t l]].
  exact H.
Qed.

Lemma timedRead_flowing (w : World Dev) :
  flowing w -> flowing (snd (timedRead w)).
Proof.
  unfold flowing, timedRead. intros Hp.
  destruct (rx w) as [|[a c] l] eqn:Hrx; [simpl; rewrite Hrx; reflexivity|].
  simpl in Hp. apply andb_true_iff in Hp as [Ht Hp']. unfold timely in Ht.
  destruct (Z.leb_spec a (now w)).
  - simpl. rewrite Z.max_l in Hp' by lia. exact Hp'.
  - simpl in Ht. rewrite Ht. simpl. rewrite Z.max_r in Hp' by lia. exact Hp'.
Qed.

Lemma readBytesUntil_flowing e n : forall w : World Dev,
  flowing w -> flowing (snd (readBytesUntil e n w)).
Proof.
  induction n as [|n IH]; intros w Hp; [exact Hp|].
  cbn [readBytesUntil].
  pose proof (timedRead_flowing w Hp) as H1.
  destruct (timedRead w) as [c w1]. simpl in H1.
  destruct ((c <? 0) || (c =? e)); [exact H1|].
  specialize (IH w1 H1).
  destruct (readBytesUntil e n w1) as [buf w2]. exact IH.
Qed.

(** On bytes that keep coming the drain loop stops only when nothing is
    left. *)
Lemma drain_lines_flowing : forall fuel (w : World Dev),
  flowing w -> (length (rx w) < fuel)%nat -> rx (drain_lines fuel w) = [].
Proof.
  induction fuel as [|fuel IH]; intros w Hp Hlen; [lia|].
  cbn [drain_lines].
  pose proof (find_flowing [35] w Hp) as [Hf Hempty].
  assert (Hcons : fst (find [35] w) = true ->
                  (length (rx (snd (find [35%Z] w))) < length (rx w))%nat).
  { unfold find.
    pose proof (find_raw_consumes [35] (read_timeout w) (rx w) [] (now w))
      as [_ Hlt].
    destruct (find_raw [35] [] (read_timeout w) (now w) (rx w)) as [r [t l]].
    exact Hlt. }
  destruct (find [35] w) as [found w1]. simpl in *.
  destruct found; [|apply Hempty; reflexivity].
  specialize (Hcons eq_refl).
  pose proof (readStringUntil_flowing 10 w1 Hf) as Hs.
  assert (Hle : (length (rx (snd (readStringUntil 10%Z w1)))
                 <= length (rx w1))%nat).
  { unfold readStringUntil.
    pose proof (readStringUntil_raw_consumes 10 (read_timeout w1) (rx w1)
                  (now w1)) as H.
    destruct (readStringUntil_raw 10 (read_timeout w1) (now w1) (rx w1))
      as [str [t l]].
    exact H. }
  apply IH; [exact Hs | lia].
Qed.

(** When the rest of the info block comes without a gap of 15 ms, the
    scanners read it to its end: they return with an empty receive queue,
    whatever the field they were asked for. *)
Theorem info_scanners_drain searchStartTag searchEndTag numberSkips
    searchSkipTag (w w1 : World Dev) :
  let w0 := wait_for 1 (millis w) 5000 (sendCommand respond get_info w) in
  find searchStartTag w0 = (true, w1) ->
  prompt 15 (now w1) (rx w1) = true ->
  rx (snd (getCameraInfoInt respond searchStartTag searchEndTag numberSkips
             searchSkipTag w)) = [] /\
  rx (snd (getCameraInfoString respond searchStartTag searchEndTag numberSkips
             searchSkipTag w)) = [].
Proof.
  intros w0 Hfind Hp.
  assert (Hw2 : flowing (skip_fields (Z.to_nat (u8 numberSkips)) searchSkipTag
                           (setTimeout 15 w1))).
  { apply skip_fields_flowing. exact Hp. }
  unfold getCameraInfoInt, getCameraInfoString. fold w0. rewrite Hfind.
  cbn [negb].
  set (w2 := skip_fields _ _ _) in *.
  pose proof (readBytesUntil_flowing searchEndTag 11 w2 Hw2) as Hb.
  pose proof (readStringUntil_flowing searchEndTag w2 Hw2) as Hs.
  destruct (readBytesUntil searchEndTag 11 w2) as [buf w3].
  destruct (readStringUntil searchEndTag w2) as [resp w4].
  simpl in Hb, Hs. unfold drain_info, setTimeout. cbn [snd rx].
  split; apply drain_lines_flowing; (assumption || lia).
Qed.

(** ** How far a chunk moves the offset *)

Lemma read_chunk_offset n : forall image_size start i bytes_read s
    (w : World Dev),
  start_next_chunk (snd (fst (read_chunk n image_size start i bytes_read s w)))
  = start_next_chunk s.
Proof.
  induction n as [|n IH]; intros image_size start i bytes_read s w;
    [reflexivity|].
  cbn [read_chunk]. set (w1 := wait_for 1 (millis w) 10 w).
  destruct (available w1 =? 0); [reflexivity|].
  destruct (read w1) as [c w2]. rewrite IH. reflexivity.
Qed.

(** One pass of the outer loop moves the offset of the next request by
    [min(bytes_read, bytesToRead)], where [bytes_read] counts the two header
    bytes of the reply, and writes at most [bytes_read - 2] bytes.  A reply
    that is one or two payload bytes short therefore moves the offset
    further than the sink has grown. *)
Theorem chunk_advance_counts_header_bytes n image_size start bytesToRead s
    (w : World Dev) :
  let '(bytes_read, s1, w') := read_chunk n image_size start 0 0 s w in
  let s2 := end_chunk bytes_read bytesToRead s1 in
  let advance := start_next_chunk s2 - start_next_chunk s in
  let written := Z.of_nat (length (sink s2)) - Z.of_nat (length (sink s)) in
  advance = Z.min bytes_read bytesToRead /\
  bytes_remaining s2 = bytes_remaining s - advance /\
  written <= Z.max 0 (bytes_read - start_data_byte) /\
  (0 < bytesToRead <= bytes_read ->
   bytes_read < bytesToRead + start_data_byte -> written < advance).
Proof.
  pose proof (read_chunk_budget n image_size start 0 0 s w) as Hb.
  pose proof (read_chunk_offset n image_size start 0 0 s w) as Ho.
  destruct (read_chunk n image_size start 0 0 s w) as [[bytes_read s1] w'].
  cbv zeta in Hb. simpl in Hb, Ho. destruct Hb as (Hd & Hrem & Hsink).
  unfold end_chunk, start_data_byte in *. cbn [start_next_chunk bytes_remaining sink].
  rewrite Ho, Hrem. repeat split; lia.
Qed.

(** ** The marker window under the loops *)

(** The [for] loop hands every byte it reads to the window, whatever the
    position of the byte in the chunk: the byte read last is the last byte
    consumed, and after [0xFF] the byte [0xD9] sets the flag and the byte
    [0xD8] clears it, also when [0xFF] was the last byte of the chunk
    before. *)
Lemma read_chunk_window n : forall image_size start i bytes_read s
    (w : World Dev),
  xfer_ok s ->
  let '(bytes_read', s', w') :=
    read_chunk n image_size start i bytes_read s w in
  exists consumed,
    rx w = consumed ++ rx w' /\
    (consumed = [] -> s' = s) /\
    xfer_ok s' /\
    total_bytes_read s' = total_bytes_read s + Z.of_nat (length consumed) /\
    last_byte s' = default (last_byte s) (last (rx_bytes consumed)) /\
    (forall pre y, last_byte s :: rx_bytes consumed = pre ++ [255; y] ->
       consumed <> [] ->
       (y = 217 -> eof s' = true) /\ (y = 216 -> eof s' = false)).
Proof.
  induction n as [|n IH]; intros image_size start i bytes_read s w Hok.
  - simpl. exists []. simpl. rewrite Z.add_0_r.
    split; [reflexivity|]. split; [reflexivity|]. split; [exact Hok|].
    split; [reflexivity|]. split; [reflexivity|]. intros; congruence.
  - cbn [read_chunk]. set (w1 := wait_for 1 (millis w) 10 w).
    destruct (available w1 =? 0) eqn:Hav.
    + exists []. simpl. rewrite Z.add_0_r. subst w1. rewrite wait_for_rx.
      split; [reflexivity|]. split; [reflexivity|]. split; [exact Hok|].
      split; [reflexivity|]. split; [reflexivity|]. intros; congruence.
    + destruct (read_available_byte w1 Hav) as (a & c & l & Hrx1 & Hrd).
      rewrite Hrd. rewrite u8_u8.
      assert (Hrxw : rx w = (a, c) :: l)
        by (subst w1; rewrite wait_for_rx in Hrx1; exact Hrx1).
      set (late := 120000 <? elapsed (set_rx l w1) start).
      pose proof (process_byte_ok image_size i (u8 c) late s Hok (u8_range c))
        as Hok1.
      pose proof (process_byte_last image_size i (u8 c) late s Hok) as Hl1.
      pose proof (process_byte_eof image_size i (u8 c) late s Hok) as He1.
      assert (Hr1 : total_bytes_read (process_byte image_size i (u8 c) late s)
                    = total_bytes_read s + 1) by reflexivity.
      set (s1 := process_byte image_size i (u8 c) late s) in *.
      specialize (IH image_size start (i + 1) (bytes_read + 1) s1 (set_rx l w1)
                    Hok1).
      destruct (read_chunk n image_size start (i + 1) (bytes_read + 1) s1
                  (set_rx l w1)) as [[br' s'] w'].
      destruct IH as (consumed & Hc & Hsame & Hok' & Hr' & Hl' & Hm').
      simpl in Hc. subst l.
      exists ((a, c) :: consumed).
      split; [exact Hrxw|]. split; [discriminate|]. split; [exact Hok'|].
      split; [rewrite Hr', Hr1; simpl length; lia|]. split.
      * rewrite Hl', Hl1. unfold rx_bytes. cbn [map snd]. rewrite last_cons.
        destruct (last (map _ consumed)); reflexivity.
      * intros pre y Hpre _. cbn [rx_bytes map snd] in Hpre.
        destruct pre as [|p pre]; cbn [app] in Hpre.
        -- injection Hpre as Hp Hy Hnil.
           assert (consumed = []) as Hcn
             by (destruct consumed; [reflexivity | discriminate Hnil]).
           rewrite (Hsame Hcn), He1, Hp, Hy.
           split; intros ->; reflexivity.
        -- injection Hpre as _ Hrest.
           apply (Hm' pre); [rewrite Hl1; exact Hrest|].
           intros ->. simpl in Hrest.
           destruct pre as [|q [|q' pre]]; discriminate Hrest.
Qed.

Lemma process_byte_written_eof_set image_size i b s :
  eof s = true ->
  total_bytes_written (process_byte image_size i b false s)
  = total_bytes_written s.
Proof.
  intros He. unfold process_byte. cbn [total_bytes_written]. rewrite He.
  destruct ((image_size <=? total_bytes_written s) && (b =? 0));
    rewrite andb_false_r; reflexivity.
Qed.

(** Once the flag is set, bytes without a start tag leave it set and are not
    written. *)
Lemma feed_eof_set image_size : forall bs i s,
  xfer_ok s -> eof s = true -> Forall is_byte bs ->
  no_start_tag (last_byte s) bs = true ->
  let s' := feed image_size i bs s in
  eof s' = true /\ sink s' = sink s /\
  total_bytes_written s' = total_bytes_written s.
Proof.
  induction bs as [|b bs IH]; intros i s Hok He Hb Hn; cbv zeta; cbn [feed].
  - repeat split; assumption.
  - inversion Hb as [|? ? Hb1 Hb2]; subst.
    cbn [no_start_tag] in Hn. apply andb_true_iff in Hn as [Hn1 Hn2].
    destruct (process_byte_eof_set image_size i b false s Hok He) as [Hs Hcl].
    pose proof (process_byte_ok image_size i b false s Hok Hb1) as Hok1.
    pose proof (process_byte_last image_size i b false s Hok) as Hl1.
    pose proof (process_byte_written_eof_set image_size i b s He) as Hw1.
    assert (He1 : eof (process_byte image_size i b false s) = true).
    { destruct (eof (process_byte image_size i b false s)); [reflexivity|].
      destruct (Hcl eq_refl) as [E1 E2]. rewrite E1, E2 in Hn1.
      discriminate Hn1. }
    destruct (IH (i + 1) (process_byte image_size i b false s) Hok1 He1 Hb2)
      as (He' & Hs' & Hw').
    { rewrite Hl1. exact Hn2. }
    split; [exact He'|]. split; congruence.
Qed.

Lemma no_start_tag_take : forall l p k,
  no_start_tag p l = true -> no_start_tag p (take k l) = true.
Proof.
  induction l as [|b l IH]; intros p k H; [destruct k; reflexivity|].
  destruct k as [|k]; [reflexivity|].
  simpl in H |- *. apply andb_true_iff in H as [H1 H2].
  rewrite H1. simpl. apply IH. exact H2.
Qed.

(** Two header bytes that are not [0xFF], after a byte that is not [0xFF],
    are read and dropped. *)
Lemma feed_quiet_header image_size h1 h2 s :
  xfer_ok s -> eof s = false -> is_byte h1 -> is_byte h2 ->
  last_byte s <> 255 -> h1 <> 255 -> h2 <> 255 ->
  total_bytes_written s < image_size ->
  let s' := feed image_size 0 [h1; h2] s in
  xfer_ok s' /\ eof s' = false /\ sink s' = sink s /\
  total_bytes_written s' = total_bytes_written s /\
  bytes_remaining s' = bytes_remaining s /\
  last_byte s' <> 255.
Proof.
  intros Hok He Hb1 Hb2 Hl Hh1 Hh2 Hlt.
  destruct (process_byte_clean image_size 0 h1 s Hok He Hb1 Hlt)
    as (Hok1 & Hl1 & Hr1 & Hs1 & Hw1 & He1).
  change (2 <=? 0) with false in Hs1, Hw1. cbv iota in Hs1, Hw1.
  apply Z.eqb_neq in Hl. rewrite Hl, andb_false_r in He1.
  assert (Hlt1 : total_bytes_written (process_byte image_size 0 h1 false s)
                 < image_size) by (rewrite Hw1; exact Hlt).
  destruct (process_byte_clean image_size (0 + 1) h2
              (process_byte image_size 0 h1 false s) Hok1 He1 Hb2 Hlt1)
    as (Hok2 & Hl2 & Hr2 & Hs2 & Hw2 & He2).
  change (2 <=? 0 + 1) with false in Hs2, Hw2. cbv iota in Hs2, Hw2.
  rewrite Hl1 in He2. apply Z.eqb_neq in Hh1. rewrite Hh1, andb_false_r in He2.
  cbn [feed]. cbv zeta.
  split; [exact Hok2|]. split; [exact He2|].
  split; [congruence|]. split; [congruence|]. split; [congruence|].
  rewrite Hl2. exact Hh2.
Qed.

(** The header [0xFF 0xD9] sets the flag, and nothing of the chunk is
    written. *)
Lemma feed_end_tag_header image_size chunk s :
  xfer_ok s -> eof s = false -> Forall is_byte chunk ->
  no_start_tag 217 chunk = true ->
  total_bytes_written s < image_size ->
  let s' := feed image_size 0 (255 :: 217 :: chunk) s in
  eof s' = true /\ sink s' = sink s /\
  total_bytes_written s' = total_bytes_written s.
Proof.
  intros Hok He Hb Hn Hlt.
  destruct (process_byte_clean image_size 0 255 s Hok He
              ltac:(unfold is_byte; lia) Hlt)
    as (Hok1 & Hl1 & Hr1 & Hs1 & Hw1 & He1).
  change (2 <=? 0) with false in Hs1, Hw1. cbv iota in Hs1, Hw1.
  change ((255 =? 217) && _) with false in He1.
  assert (Hlt1 : total_bytes_written (process_byte image_size 0 255 false s)
                 < image_size) by (rewrite Hw1; exact Hlt).
  destruct (process_byte_clean image_size (0 + 1) 217
              (process_byte image_size 0 255 false s) Hok1 He1
              ltac:(unfold is_byte; lia) Hlt1)
    as (Hok2 & Hl2 & Hr2 & Hs2 & Hw2 & He2).
  change (2 <=? 0 + 1) with false in Hs2, Hw2. cbv iota in Hs2, Hw2.
  rewrite Hl1 in He2. change ((217 =? 217) && (255 =? 255)) with true in He2.
  cbn [feed]. cbv zeta.
  destruct (feed_eof_set image_size chunk (0 + 1 + 1)
              (process_byte image_size (0 + 1) 217 false
                 (process_byte image_size 0 255 false s)) Hok2 He2 Hb)
    as (He3 & Hs3 & Hw3).
  { rewrite Hl2. exact Hn. }
  split; [exact He3|]. split; congruence.
Qed.

(** After a payload byte [0xFF], the header byte [0xD9] of the next chunk
    sets the flag, and nothing of that chunk is written. *)
Lemma feed_end_tag_across image_size h2 chunk s :
  xfer_ok s -> eof s = false -> is_byte h2 -> Forall is_byte chunk ->
  last_byte s = 255 ->
  no_start_tag 217 (h2 :: chunk) = true ->
  total_bytes_written s < image_size ->
  let s' := feed image_size 0 (217 :: h2 :: chunk) s in
  eof s' = true /\ sink s' = sink s /\
  total_bytes_written s' = total_bytes_written s.
Proof.
  intros Hok He Hb2 Hb Hl Hn Hlt.
  destruct (process_byte_clean image_size 0 217 s Hok He
              ltac:(unfold is_byte; lia) Hlt)
    as (Hok1 & Hl1 & Hr1 & Hs1 & Hw1 & He1).
  change (2 <=? 0) with false in Hs1, Hw1. cbv iota in Hs1, Hw1.
  rewrite Hl in He1. change ((217 =? 217) && (255 =? 255)) with true in He1.
  change (feed image_size 0 (217 :: h2 :: chunk) s)
    with (feed image_size (0 + 1) (h2 :: chunk)
            (process_byte image_size 0 217 false s)).
  cbv zeta.
  destruct (feed_eof_set image_size (h2 :: chunk) (0 + 1)
              (process_byte image_size 0 217 false s) Hok1 He1
              ltac:(constructor; assumption))
    as (He3 & Hs3 & Hw3).
  { rewrite Hl1. exact Hn. }
  split; [exact He3|]. split; congruence.
Qed.

End MoreProperties.

(** * A camera that honours offsets *)

Section RangedCamera.

Variables h1 h2 : Z.
Variable image : list Z.
Hypothesis image_bytes : Forall is_byte image.

Lemma arrived_stamped t a bs :
  a <= t -> arrived t (stamped a bs) = length bs.
Proof.
  intros Ha. induction bs as [|b bs IH]; simpl; [reflexivity|].
  destruct (Z.leb_spec a t); [|lia]. rewrite IH. reflexivity.
Qed.

(** [readBytes] asked for at least the bytes that are there: it returns them
    all and, if it was asked for more, waits one stream timeout. *)
Lemma readBytes_all {Dev : Type} : forall bs n t a tmo (d : Dev),
  a <= t -> Forall is_byte bs -> (length bs <= n)%nat ->
  readBytes n (mkWorld t (stamped a bs) tmo d)
  = (bs, mkWorld (t + (if (length bs <? n)%nat then Z.max 0 tmo else 0)) []
           tmo d).
Proof.
  induction bs as [|b bs IH]; intros n t a tmo d Ha Hb Hn.
  - destruct n as [|n]; simpl; [rewrite Z.add_0_r; reflexivity|].
    reflexivity.
  - destruct n as [|n]; [simpl in Hn; lia|].
    inversion Hb as [|? ? Hb0 Hb']; subst.
    cbn [readBytes stamped map]. unfold timedRead. cbn [rx now].
    destruct (Z.leb_spec a t); [|lia].
    assert (Hu : u8 b = b) by (apply Z.mod_small; exact Hb0).
    rewrite Hu. destruct (Z.ltb_spec b 0); [unfold is_byte in Hb0; lia|].
    unfold set_rx. cbn [now rx read_timeout dev].
    change (map (fun b0 => (a, b0)) bs) with (stamped a bs).
    rewrite (IH n t a tmo d Ha Hb') by (simpl in Hn; lia).
    change (length (b :: bs) <? S n)%nat with (length bs <? n)%nat.
    reflexivity.
Qed.

(** One call of [getImageChunk] for a range that starts inside the image, on
    a buffer that [streamDump] empties. *)
Lemma ranged_chunk offset len (w : World unit) :
  rx (streamDump w) = [] ->
  (N.to_nat offset < length image)%nat -> (0 < len)%N -> (len < 2 ^ 32)%N ->
  0 <= read_timeout w < 2 ^ 32 ->
  let got := take (N.to_nat len) (drop (N.to_nat offset) image) in
  getImageChunk (ranged_camera h1 h2 image) offset len w
  = (Z.of_nat (length got), got,
     mkWorld (now (streamDump w)
              + (if (length got <? N.to_nat len)%nat then 15 else 0))
       [] (read_timeout w) (dev w)).
Proof.
  intros Hrx Hoff Hlen Hmax Htmo got.
  pose proof (streamDump_dev w) as Hdev.
  pose proof (streamDump_read_timeout w) as Hrt.
  unfold getImageChunk, sendCommand. rewrite Hdev, Hrx, Hrt.
  set (w1 := streamDump w) in *.
  cbn [ranged_camera app].
  assert (Hn : forall n, Z.to_nat (Z.of_N n) = N.to_nat n)
    by (intros n; rewrite <- Z_N_nat, N2Z.id; reflexivity).
  rewrite !Hn. fold got.
  assert (Hgot : (0 < length got)%nat).
  { subst got. rewrite length_take, length_drop. lia. }
  unfold wait_for, available. cbn [now rx].
  rewrite arrived_stamped by lia.
  destruct (Z.leb_spec (Z.of_nat 3) (Z.of_nat (length (h1 :: h2 :: got))))
    as [_|Hlt]; [|simpl in Hlt; lia].
  cbn [now rx]. rewrite arrived_stamped by lia.
  destruct (Z.eqb_spec (Z.of_nat (length (h1 :: h2 :: got))) 0) as [E|_];
    [simpl in E; lia|].
  unfold read. cbn [stamped map rx now set_rx snd read_timeout dev].
  rewrite Z.leb_refl. cbn [stamped map rx now set_rx snd read_timeout dev].
  rewrite Z.leb_refl. cbn [stamped map rx now set_rx snd read_timeout dev].
  unfold setTimeout, getTimeout, set_rx. cbn [rx now read_timeout dev].
  change (map (fun b => (now w1, b)) got) with (stamped (now w1) got).
  assert (Hgb : Forall is_byte got).
  { subst got. apply Forall_take, Forall_drop. exact image_bytes. }
  assert (Hgl : (length got <= N.to_nat len)%nat)
    by (subst got; rewrite length_take; lia).
  rewrite readBytes_all by (lia || assumption).
  cbn [rx now read_timeout dev].
  rewrite !u32_small by lia.
  change (Z.max 0 15) with 15. reflexivity.
Qed.

(** Against a camera that honours offsets [getImageChunk] returns the bytes
    of the image from [offset] on, as many as asked for or as are left, and
    their number; bytes that were waiting in the buffer are not among them,
    and the two header bytes of the reply are dropped. *)
Theorem getImageChunk_ranged offset len (w : World unit) :
  Forall (fun p => fst p <= now w) (rx w) ->
  (N.to_nat offset < length image)%nat -> (0 < len)%N -> (len < 2 ^ 32)%N ->
  0 <= read_timeout w < 2 ^ 32 ->
  let got := take (N.to_nat len) (drop (N.to_nat offset) image) in
  let '(count, buf, w') :=
    getImageChunk (ranged_camera h1 h2 image) offset len w in
  buf = got /\
  count = Z.of_nat (length got) /\
  count = Z.min (Z.of_N len) (Z.of_nat (length image) - Z.of_N offset) /\
  rx w' = [] /\ read_timeout w' = read_timeout w.
Proof.
  intros Hall Hoff Hlen Hmax Htmo got.
  rewrite (ranged_chunk offset len w (streamDump_arrived w Hall) Hoff Hlen Hmax
             Htmo).
  fold got. cbn [rx dev read_timeout].
  repeat split. subst got. rewrite length_take, length_drop. lia.
Qed.

(** The loop of the sketch against that camera, with [rest] of the image
    still to fetch in [c] chunks after [k] passes. *)
Lemma chunk_loop_ranged t0 tmo d :
  0 <= tmo < 2 ^ 32 ->
  Z.of_nat (length image) < 2 ^ 31 ->
  forall fuel (c : nat) (rest file : list Z) k,
  image = file ++ rest ->
  (c < fuel)%nat ->
  0 <= k -> k + Z.of_nat c <= 4800 ->
  512 * (Z.of_nat c - 1) < Z.of_nat (length rest) <= 512 * Z.of_nat c ->
  ReadByChunk.chunk_loop (ranged_camera h1 h2 image) fuel
    (Z.of_nat (length image)) (u32 t0)
    (ReadByChunk.mkLocals (Z.of_nat (length file)) (Z.of_nat (length file))
       (Z.of_nat (length rest)) k file)
    (mkWorld (t0 + 25 * k) [] tmo d)
  = (true,
     ReadByChunk.mkLocals (Z.of_nat (length image))
       (Z.of_nat (length image)) 0 (k + Z.of_nat c) image,
     mkWorld (t0 + 25 * (k + Z.of_nat c)) [] tmo d).
Proof.
  intros Htmo Hsize.
  assert (Hel : forall j l, 0 <= j <= 4800 ->
            elapsed (mkWorld (t0 + 25 * j) l tmo d) (u32 t0) = 25 * j).
  { intros j l Hj.
    change (mkWorld (t0 + 25 * j) l tmo d)
      with (set_now (now (mkWorld t0 l tmo d) + 25 * j) (mkWorld t0 l tmo d)).
    rewrite elapsed_shift.
    change (u32 t0) with (millis (mkWorld t0 l tmo d)).
    rewrite elapsed_start. apply u32_small. lia. }
  induction fuel as [|fuel IH]; intros c rest file k Himg Hc Hk Hkc Hrest;
    [lia|].
  assert (Hlen : length image = (length file + length rest)%nat)
    by (rewrite Himg, length_app; reflexivity).
  destruct rest as [|b rest'] eqn:Erest.
  - (* nothing left: the loop is not entered *)
    assert (c = 0%nat) by (simpl in Hrest; lia). subst c.
    rewrite app_nil_r in Himg.
    cbn [ReadByChunk.chunk_loop ReadByChunk.total_bytes_read].
    rewrite <- Himg, Z.ltb_irrefl. cbn [andb]. simpl length.
    rewrite !Z.add_0_r. reflexivity.
  - rewrite <- Erest in *.
    assert (Hpos : (0 < length rest)%nat) by (rewrite Erest; simpl; lia).
    destruct c as [|c]; [lia|].
    cbn [ReadByChunk.chunk_loop ReadByChunk.total_bytes_read
         ReadByChunk.bytes_remaining ReadByChunk.total_bytes_written
         ReadByChunk.chunk_number ReadByChunk.imgFile].
    destruct (Z.ltb_spec (Z.of_nat (length file)) (Z.of_nat (length image)));
      [|lia].
    rewrite Hel by lia.
    destruct (Z.ltb_spec (25 * k) 120000); [|lia]. cbn [andb].
    unfold ReadByChunk.chunk_size.
    set (btr := Z.min 512 (Z.max (Z.of_nat (length rest)) 1)).
    assert (Hbtr : btr = Z.min 512 (Z.of_nat (length rest))) by (subst btr; lia).
    assert (Hbtr_pos : 0 < btr <= 512) by lia.
    pose proof (ranged_chunk (Z.to_N (u32 (Z.of_nat (length file))))
                  (Z.to_N (u32 btr)) (mkWorld (t0 + 25 * k) [] tmo d)) as Hchunk.
    rewrite streamDump_empty in Hchunk by reflexivity.
    cbn [rx set_now now dev read_timeout] in Hchunk.
    rewrite (u32_small btr) in * by lia.
    rewrite (u32_small (Z.of_nat (length file))) in * by lia.
    rewrite !Z_N_nat, Nat2Z.id in Hchunk.
    specialize (Hchunk eq_refl ltac:(lia) ltac:(lia)
                  ltac:(apply N2Z.inj_lt; rewrite Z2N.id by lia; simpl; lia)
                  Htmo).
    cbv zeta in Hchunk.
    assert (Hdrop : drop (length file) image = rest)
      by (rewrite Himg; apply drop_app_length).
    rewrite Hdrop in Hchunk.
    assert (Hgl : length (take (Z.to_nat btr) rest) = Z.to_nat btr)
      by (rewrite length_take; lia).
    rewrite Hgl in Hchunk. rewrite Nat.ltb_irrefl in Hchunk.
    rewrite Z2Nat.id in Hchunk by lia.
    rewrite Hchunk.
    replace (t0 + 25 * k + 25 + 0) with (t0 + 25 * (k + 1)) by lia.
    rewrite Hel by lia.
    destruct (Z.ltb_spec 120000 (25 * (k + 1))); [lia|].
    assert (Hs32 : s32 btr = btr).
    { unfold s32. rewrite Z.mod_small by lia. lia. }
    rewrite Hs32, firstn_all2 by (rewrite Hgl; lia).
    rewrite Hgl, Z2Nat.id by lia.
    specialize (IH c (drop (Z.to_nat btr) rest)
                  (file ++ take (Z.to_nat btr) rest) (k + 1)).
    rewrite length_app, Hgl, length_drop in IH.
    replace (Z.of_nat (length file + Z.to_nat btr))
      with (Z.of_nat (length file) + btr) in IH by lia.
    replace (Z.of_nat (length rest - Z.to_nat btr))
      with (Z.of_nat (length rest) - btr) in IH by lia.
    rewrite IH.
    + f_equal; [f_equal; f_equal; lia | f_equal; lia].
    + rewrite <- app_assoc, take_drop. exact Himg.
    + lia.
    + lia.
    + lia.
    + lia.
Qed.

(** The chunk loop of [examples/read_by_chunk] copies the image: against a
    camera that honours offsets and holds an image of at most 4800 chunks of
    512 bytes, the file ends up holding the image byte for byte, in
    [ceil(n / 512)] requests of 25 ms each, and the buffer is empty
    afterwards. *)
Theorem read_by_chunk_copies_image t0 tmo d fuel :
  0 <= tmo < 2 ^ 32 ->
  let n := Z.of_nat (length image) in
  let chunks := (n + 511) / 512 in
  n <= 512 * 4800 ->
  chunks < Z.of_nat fuel ->
  ReadByChunk.read_image (ranged_camera h1 h2 image) fuel n
    (mkWorld t0 [] tmo d)
  = (true, ReadByChunk.mkLocals n n 0 chunks image,
     mkWorld (t0 + 25 * chunks) [] tmo d).
Proof.
  intros Htmo n chunks Hn Hfuel.
  assert (Hc : 512 * (chunks - 1) < n <= 512 * chunks).
  { subst chunks. pose proof (Z_div_mod_eq_full (n + 511) 512) as Hd.
    pose proof (Z.mod_pos_bound (n + 511) 512 ltac:(lia)). lia. }
  assert (Hc0 : 0 <= chunks <= 4800) by lia.
  pose proof (chunk_loop_ranged t0 tmo d Htmo ltac:(lia) fuel
                (Z.to_nat chunks) image [] 0 eq_refl ltac:(lia) ltac:(lia)
                ltac:(lia) ltac:(lia)) as H.
  rewrite Z2Nat.id in H by lia.
  unfold ReadByChunk.read_image, millis. cbn [now].
  simpl length in H. rewrite Z.mul_0_r, Z.add_0_r in H.
  exact H.
Qed.

(** ** The transfer engine against that camera *)

Hypothesis h1_byte : is_byte h1.
Hypothesis h2_byte : is_byte h2.
Hypothesis headers_neutral : header_neutral h1 h2 = true.

Variables image_size chunk_size : Z.
Hypothesis chunk_size_pos : 0 < chunk_size.

Lemma feed_offset : forall bs i s,
  start_next_chunk (feed image_size i bs s) = start_next_chunk s.
Proof.
  induction bs as [|b bs IH]; intros i s; [reflexivity|].
  cbn [feed]. rewrite IH. reflexivity.
Qed.

(** One pass of the outer loop from an empty receive buffer, when the offset
    of the request is the number of image bytes fetched so far: the camera
    sends the header and the next bytes of the image, the [for] loop reads
    them all, and waits 10 ms for more if fewer came than asked for. *)
Lemma ranged_round fuel s t tmo d (fetched rest : list Z) :
  image = fetched ++ rest ->
  start_next_chunk s = Z.of_nat (length fetched) ->
  eof s = false ->
  let bytesToRead := Z.min chunk_size (Z.max (bytes_remaining s) 1) in
  let chunk := take (Z.to_nat bytesToRead) rest in
  let s1 := feed image_size 0 (h1 :: h2 :: chunk) s in
  let s2 := end_chunk (2 + Z.of_nat (length chunk)) bytesToRead s1 in
  let w3 := mkWorld
              (if (Z.to_nat (bytesToRead + 2) - (2 + length chunk))%nat is O
               then t else t + 10)
              [] tmo d in
  0 <= bytesToRead ->
  transfer_loop (ranged_camera h1 h2 image) (S fuel) image_size chunk_size
    (u32 t) s (mkWorld t [] tmo d)
  = if eof s2 then (true, s2, w3)
    else transfer_loop (ranged_camera h1 h2 image) fuel image_size chunk_size
           (u32 t) s2 w3.
Proof.
  intros Himg Hoff He bytesToRead chunk s1 s2 w3 Hpos.
  assert (Hb : Forall is_byte rest).
  { pose proof image_bytes as H. rewrite Himg in H.
    apply Forall_app in H. tauto. }
  cbn [transfer_loop]. rewrite He, elapsed_same_tick. cbn [negb andb Z.ltb].
  change (0 <? 120000) with true. cbv iota.
  fold bytesToRead.
  unfold sendCommand. cbn [dev now rx ranged_camera read_timeout app].
  rewrite Hoff, Nat2Z.id, Himg, drop_app_length. fold chunk.
  unfold stamped.
  rewrite (wait_for_available _ _ _ t h1
             (map (fun b => (t, b)) (h2 :: chunk))) by (simpl; first [reflexivity | lia]).
  rewrite (available_head _ t h1 (map (fun b => (t, b)) (h2 :: chunk)))
    by (simpl; first [reflexivity | lia]).
  rewrite <- (app_nil_r (map (fun b => (t, b)) (h1 :: h2 :: chunk))).
  assert (Hchunk : (length chunk <= Z.to_nat bytesToRead)%nat).
  { unfold chunk. rewrite length_take. lia. }
  rewrite read_chunk_feed.
  - rewrite read_chunk_starved. cbn [length]. unfold start_data_byte.
    replace (0 + Z.of_nat (S (S (length chunk))))
      with (2 + Z.of_nat (length chunk)) by lia.
    fold s1. fold s2. reflexivity.
  - constructor; [exact h1_byte|]. constructor; [exact h2_byte|].
    unfold chunk. apply Forall_take. exact Hb.
  - rewrite elapsed_same_tick. lia.
  - unfold start_data_byte. cbn [length]. lia.
Qed.

(** The last pass: the rest of the image fits the request. *)
Lemma ranged_last_round fuel s t tmo d (fetched rb : list Z) :
  image = fetched ++ rb ++ [255; 217] ->
  start_next_chunk s = Z.of_nat (length fetched) ->
  xfer_ok s -> eof s = false ->
  no_end_tag 0 (rb ++ [255]) = true ->
  total_bytes_written s = image_size - Z.of_nat (length (rb ++ [255; 217])) ->
  bytes_remaining s = Z.of_nat (length (rb ++ [255; 217])) + 14 ->
  Z.of_nat (length (rb ++ [255; 217])) <= chunk_size ->
  exists s' w',
    transfer_loop (ranged_camera h1 h2 image) (S fuel) image_size chunk_size
      (u32 t) s (mkWorld t [] tmo d) = (true, s', w') /\
    sink s' = sink s ++ rb ++ [255; 217] /\
    total_bytes_written s' = image_size /\
    t <= now w' <= t + 10.
Proof.
  intros Himg Hoff Hok He Hn Hw Hr Hlen.
  remember (rb ++ [255; 217]) as rest eqn:Erest.
  assert (Hbr : Forall is_byte rest).
  { pose proof image_bytes as H. rewrite Himg in H.
    apply Forall_app in H. tauto. }
  assert (Hb : Forall is_byte rb).
  { rewrite Erest in Hbr. apply Forall_app in Hbr. tauto. }
  assert (Hlen2 : 2 <= Z.of_nat (length rest)).
  { rewrite Erest, length_app. simpl. lia. }
  pose proof (ranged_round fuel s t tmo d fetched rest Himg Hoff He) as Hround.
  cbv zeta in Hround.
  assert (Hpos : 0 <= Z.min chunk_size (Z.max (bytes_remaining s) 1)) by lia.
  rewrite (Hround Hpos). clear Hround Hpos.
  remember (Z.min chunk_size (Z.max (bytes_remaining s) 1)) as btr eqn:Ebtr.
  assert (Hbtr : (length rest <= Z.to_nat btr)%nat) by lia.
  rewrite (take_ge rest) by exact Hbtr.
  change (h1 :: h2 :: rest) with ([h1; h2] ++ rest).
  rewrite feed_app.
  destruct (feed_header image_size h1 h2 s Hok He h1_byte h2_byte
              headers_neutral ltac:(lia))
    as (Hok1 & He1 & Hs1 & Hw1 & Hr1 & Hl1).
  remember (feed image_size 0 [h1; h2] s) as sh eqn:Esh.
  assert (Erest' : rest = (rb ++ [255]) ++ [217])
    by (rewrite Erest, <- app_assoc; reflexivity).
  replace (feed image_size (0 + Z.of_nat (length [h1; h2])) rest sh)
    with (feed image_size (0 + Z.of_nat (length [h1; h2]))
            ((rb ++ [255]) ++ [217]) sh) by (rewrite <- Erest'; reflexivity).
  rewrite feed_app.
  assert (Hb255 : Forall is_byte (rb ++ [255])).
  { apply Forall_app. split; [exact Hb|]. repeat constructor; unfold is_byte; lia. }
  assert (Hlen255 : Z.of_nat (length (rb ++ [255])) = Z.of_nat (length rest) - 1).
  { rewrite Erest, !length_app. simpl. lia. }
  destruct (feed_payload image_size (rb ++ [255])
              (0 + Z.of_nat (length [h1; h2])) sh ltac:(simpl; lia) Hok1 He1 Hb255)
    as (Hok2 & He2 & Hs2 & Hw2 & Hr2 & Hl2).
  { rewrite (no_end_tag_prev _ 0) by (first [exact Hl1 | lia]). exact Hn. }
  { lia. }
  remember (feed image_size (0 + Z.of_nat (length [h1; h2])) (rb ++ [255]) sh)
    as sp eqn:Esp.
  rewrite last_snoc in Hl2. simpl in Hl2.
  cbn [feed].
  destruct (process_byte_clean image_size
              (0 + Z.of_nat (length [h1; h2]) + Z.of_nat (length (rb ++ [255])))
              217 sp Hok2 He2 ltac:(unfold is_byte; lia) ltac:(lia))
    as (Hok3 & Hl3 & Hr3 & Hs3 & Hw3 & He3).
  rewrite Hl2 in He3. change ((217 =? 217) && (255 =? 255)) with true in He3.
  destruct (Z.leb_spec 2 (0 + Z.of_nat (length [h1; h2])
                          + Z.of_nat (length (rb ++ [255]))));
    [|simpl in *; lia].
  change (eof (end_chunk ?a ?b ?c)) with (eof c).
  rewrite He3.
  eexists. eexists. split; [reflexivity|].
  split; [|split].
  - change (sink (end_chunk ?a ?b ?c)) with (sink c).
    rewrite Hs3, Hs2, Hs1, Erest, <- !app_assoc. reflexivity.
  - change (total_bytes_written (end_chunk ?a ?b ?c))
      with (total_bytes_written c).
    lia.
  - cbn [now]. destruct (_ - _)%nat; lia.
Qed.

(** All the passes: each request starts where the last one ended, and the
    image is written whole. *)
Lemma ranged_rounds tmo t d : forall fuel s (fetched rb : list Z),
  image = fetched ++ rb ++ [255; 217] ->
  start_next_chunk s = Z.of_nat (length fetched) ->
  xfer_ok s -> eof s = false ->
  no_end_tag 0 (rb ++ [255]) = true ->
  total_bytes_written s = image_size - Z.of_nat (length (rb ++ [255; 217])) ->
  bytes_remaining s = Z.of_nat (length (rb ++ [255; 217])) + 14 ->
  (Z.of_nat (length (rb ++ [255; 217])) - 1) mod chunk_size <> 0 ->
  Z.of_nat (length (rb ++ [255; 217])) <= chunk_size * Z.of_nat fuel ->
  exists s' w',
    transfer_loop (ranged_camera h1 h2 image) fuel image_size chunk_size
      (u32 t) s (mkWorld t [] tmo d) = (true, s', w') /\
    sink s' = sink s ++ rb ++ [255; 217] /\
    total_bytes_written s' = image_size /\
    t <= now w' <= t + 10.
Proof.
  induction fuel as [|fuel IH];
    intros s fetched rb Himg Hoff Hok He Hn Hw Hr Hmod Hfuel.
  - rewrite length_app in Hfuel. simpl in Hfuel. lia.
  - destruct (Z_le_gt_dec (Z.of_nat (length (rb ++ [255; 217]))) chunk_size)
      as [Hle|Hgt].
    + eapply ranged_last_round; eassumption.
    + remember (rb ++ [255; 217]) as rest eqn:Erest.
      assert (Hlen : Z.of_nat (length rest) = Z.of_nat (length rb) + 2).
      { rewrite Erest, length_app. simpl. lia. }
      assert (Hge : chunk_size + 2 <= Z.of_nat (length rest)).
      { destruct (Z.eq_dec (Z.of_nat (length rest) - 1) chunk_size) as [E|E];
          [|lia].
        rewrite E, Z_mod_same_full in Hmod. contradiction. }
      assert (Hbr : Forall is_byte rest).
      { pose proof image_bytes as H. rewrite Himg in H.
        apply Forall_app in H. tauto. }
      assert (Hb : Forall is_byte rb).
      { rewrite Erest in Hbr. apply Forall_app in Hbr. tauto. }
      pose proof (ranged_round fuel s t tmo d fetched rest Himg Hoff He)
        as Hround.
      cbv zeta in Hround.
      assert (Ebtr : Z.min chunk_size (Z.max (bytes_remaining s) 1) = chunk_size)
        by lia.
      rewrite Ebtr in Hround. rewrite (Hround ltac:(lia)). clear Hround.
      remember (Z.to_nat chunk_size) as nc eqn:Enc.
      assert (Etake : take nc rest = take nc rb).
      { rewrite Erest. apply take_app_le. lia. }
      rewrite Etake.
      assert (Hlc : length (take nc rb) = nc) by (rewrite length_take; lia).
      rewrite Hlc.
      replace (Z.to_nat (chunk_size + 2) - (2 + nc))%nat with 0%nat by lia.
      change (h1 :: h2 :: take nc rb) with ([h1; h2] ++ take nc rb).
      rewrite feed_app.
      destruct (feed_header image_size h1 h2 s Hok He h1_byte h2_byte
                  headers_neutral ltac:(lia))
        as (Hok1 & He1 & Hs1 & Hw1 & Hr1 & Hl1).
      pose proof (feed_offset [h1; h2] 0 s) as Ho1.
      remember (feed image_size 0 [h1; h2] s) as sh eqn:Esh.
      rewrite <- (take_drop nc rb), <- app_assoc in Hn.
      apply no_end_tag_app in Hn as [Hn1 Hn2].
      apply no_end_tag_weaken in Hn2.
      destruct (feed_payload image_size (take nc rb)
                  (0 + Z.of_nat (length [h1; h2])) sh ltac:(simpl; lia) Hok1 He1)
        as (Hok2 & He2 & Hs2 & Hw2 & Hr2 & Hl2).
      { apply Forall_take. exact Hb. }
      { rewrite (no_end_tag_prev _ 0) by (first [exact Hl1 | lia]). exact Hn1. }
      { lia. }
      pose proof (feed_offset (take nc rb) (0 + Z.of_nat (length [h1; h2])) sh)
        as Ho2.
      remember (feed image_size (0 + Z.of_nat (length [h1; h2])) (take nc rb) sh)
        as s1 eqn:Es1.
      change (eof (end_chunk ?a ?b ?c)) with (eof c). rewrite He2.
      destruct (IH (end_chunk (2 + Z.of_nat nc) chunk_size s1)
                  (fetched ++ take nc rb) (drop nc rb))
        as (s' & w' & Hrun & Hsink & Htbw & Hnow).
      * rewrite Himg, Erest, <- app_assoc. f_equal.
        rewrite app_assoc, take_drop. reflexivity.
      * unfold end_chunk. cbn [start_next_chunk].
        rewrite Ho2, Ho1, Hoff, length_app, Hlc. lia.
      * exact Hok2.
      * exact He2.
      * exact Hn2.
      * change (total_bytes_written (end_chunk ?a ?b ?c))
          with (total_bytes_written c).
        rewrite length_app, length_drop. simpl length. lia.
      * unfold end_chunk. cbn [bytes_remaining].
        rewrite length_app, length_drop. simpl length. lia.
      * rewrite length_app, length_drop. simpl length.
        replace (Z.of_nat (length rb - nc + 2) - 1)
          with (Z.of_nat (length rest) - 1 + (-1) * chunk_size) by lia.
        rewrite Z_mod_plus_full. exact Hmod.
      * rewrite length_app, length_drop. simpl length. lia.
      * exists s', w'. split; [exact Hrun|]. split; [|split; assumption].
        rewrite Hsink.
        change (sink (end_chunk ?a ?b ?c)) with (sink c).
        rewrite Hs2, Hs1, Erest, <- !app_assoc. f_equal.
        rewrite app_assoc, take_drop. reflexivity.
Qed.

(** [transferImage] asks for the right ranges: against a camera that honours
    offsets and holds an image that ends with the end tag [0xFF 0xD9] and has
    no other end tag, with header bytes that cannot be part of an end tag
    and a chunk size that does not put the two bytes of the end tag in
    different chunks, it writes the image byte for byte, returns its size
    and is done within 10 ms. *)
Theorem transferImage_copies_ranged_image body fuel t tmo d :
  image = body ++ [255; 217] ->
  no_end_tag 0 (body ++ [255]) = true ->
  image_size = Z.of_nat (length image) ->
  image_size < 2 ^ 32 ->
  (image_size - 1) mod chunk_size <> 0 ->
  image_size <= chunk_size * Z.of_nat fuel ->
  exists w',
    transferImage (ranged_camera h1 h2 image) fuel image_size chunk_size
      (mkWorld t [] tmo d) = Some (image_size, image, w') /\
    elapsed w' (u32 t) <= 10.
Proof.
  intros Himg Hn Hsize H32 Hmod Hfuel. unfold transferImage.
  assert (Hlen : 2 <= image_size).
  { rewrite Hsize, Himg, length_app. simpl. lia. }
  destruct (Z.eqb_spec image_size 0) as [E|_]; [lia|].
  unfold millis. cbn [now].
  rewrite Himg in Hsize.
  destruct (ranged_rounds tmo t d fuel (xfer_init image_size) [] body)
    as (s' & w' & Hrun & Hsink & Htbw & Hnow).
  - exact Himg.
  - reflexivity.
  - apply xfer_init_ok.
  - reflexivity.
  - exact Hn.
  - simpl. lia.
  - simpl. unfold start_data_byte, extra_read_buff. lia.
  - rewrite <- Hsize. exact Hmod.
  - rewrite <- Hsize. exact Hfuel.
  - rewrite Hrun.
    exists w'. split.
    + rewrite Htbw, Hsink, Himg. simpl. rewrite u32_small by lia. reflexivity.
    + unfold elapsed, millis, u32.
      rewrite Zminus_mod_idemp_l, Zminus_mod_idemp_r.
      rewrite Z.mod_small by lia. lia.
Qed.

End RangedCamera.

(** * The marker window across header bytes and chunks *)

(** C10.  The two header bytes of every chunk go through the marker window
    like payload bytes, and the window is kept from one chunk to the next.
    The [for] loop, on any transport and from any position [i]: the byte
    read last is the last byte it consumed, and when the bytes it consumed,
    put after the byte read last before, end with [0xFF 0xD9] the flag is
    set, with [0xFF 0xD8] it is cleared.  [transferImage], against a camera
    that honours the range of a request: when the first chunk ends with the
    payload byte [0xFF] and the first header byte is [0xD9], the header of
    the second chunk ends the transfer, with the first chunk written and
    nothing else, although the image goes on; when the header bytes are
    [0xFF 0xD9], the header of the first chunk ends the transfer with
    nothing written. *)
Theorem header_bytes_feed_marker_window h2 (image body rest : list Z)
    image_size chunk_size fuel t tmo :
  Forall is_byte image -> is_byte h2 -> h2 <> 255 ->
  image = body ++ [255] ++ rest ->
  chunk_size = Z.of_nat (length (body ++ [255])) ->
  chunk_size < image_size < 2 ^ 32 ->
  no_end_tag 0 (body ++ [255]) = true ->
  no_start_tag 217 (h2 :: rest) = true ->
  no_start_tag 217 image = true ->
  (1 < fuel)%nat ->
  (forall (Dev : Type) n start i bytes_read s (w : World Dev),
     xfer_ok s ->
     let '(bytes_read', s', w') :=
       read_chunk n image_size start i bytes_read s w in
     exists consumed,
       rx w = consumed ++ rx w' /\
       total_bytes_read s' = total_bytes_read s + Z.of_nat (length consumed) /\
       last_byte s' = default (last_byte s) (last (rx_bytes consumed)) /\
       (forall pre y, last_byte s :: rx_bytes consumed = pre ++ [255; y] ->
          consumed <> [] ->
          (y = 217 -> eof s' = true) /\ (y = 216 -> eof s' = false))) /\
  (exists w',
     transferImage (ranged_camera 217 h2 image) fuel image_size chunk_size
       (mkWorld t [] tmo tt) = Some (chunk_size, body ++ [255], w') /\
     rx w' = [] /\ t <= now w' <= t + 10) /\
  (exists w',
     transferImage (ranged_camera 255 217 image) fuel image_size chunk_size
       (mkWorld t [] tmo tt) = Some (0, [], w') /\
     rx w' = [] /\ t <= now w' <= t + 10).
Proof.
  intros Himg Hh2 Hh2' Eimg Echunk Hsize Hne Hns Hnsi Hfuel.
  assert (Hpos : 0 < chunk_size).
  { rewrite Echunk, length_app. simpl. lia. }
  assert (Eimg' : image = (body ++ [255]) ++ rest)
    by (rewrite Eimg, <- app_assoc; reflexivity).
  assert (Hb1 : Forall is_byte (body ++ [255])).
  { rewrite Eimg' in Himg. apply Forall_app in Himg. tauto. }
  assert (Hb2 : Forall is_byte rest).
  { rewrite Eimg' in Himg. apply Forall_app in Himg. tauto. }
  assert (Eb1 : Z.min chunk_size
                  (Z.max (bytes_remaining (xfer_init image_size)) 1)
                = chunk_size).
  { cbn [bytes_remaining xfer_init]. unfold start_data_byte, extra_read_buff.
    lia. }
  assert (Etake : take (Z.to_nat chunk_size) image = body ++ [255]).
  { rewrite Eimg'. apply take_app_length'. lia. }
  split; [|split].
  - (* the [for] loop *)
    intros Dev n start i bytes_read s w Hok.
    pose proof (read_chunk_window n image_size start i bytes_read s w Hok) as H.
    destruct (read_chunk n image_size start i bytes_read s w) as [[br' s'] w'].
    destruct H as (consumed & Hc & _ & _ & Hr & Hl & Hm).
    exists consumed. repeat split; try assumption; apply (Hm pre y); assumption.
  - (* the end tag across two chunks *)
    unfold transferImage.
    destruct (Z.eqb_spec image_size 0) as [E|_]; [lia|].
    unfold millis. cbn [now].
    destruct fuel as [|[|fuel]]; [lia | lia |].
    pose proof (ranged_round 217 h2 image Himg ltac:(unfold is_byte; lia) Hh2
                  image_size chunk_size Hpos (S fuel) (xfer_init image_size)
                  t tmo tt [] image eq_refl eq_refl eq_refl) as R1.
    cbv zeta in R1. rewrite Eb1, Etake in R1.
    rewrite (R1 ltac:(lia)). clear R1.
    replace (Z.to_nat (chunk_size + 2) - (2 + length (body ++ [255%Z])))%nat
      with 0%nat by lia.
    change (217 :: h2 :: body ++ [255]) with ([217; h2] ++ (body ++ [255])).
    rewrite feed_app.
    destruct (feed_quiet_header image_size 217 h2 (xfer_init image_size)
                (xfer_init_ok image_size) eq_refl
                ltac:(unfold is_byte; lia) Hh2)
      as (Hok1 & He1 & Hs1 & Hw1 & Hr1 & Hl1);
      [vm_compute; discriminate | lia | exact Hh2' | simpl; lia |].
    pose proof (feed_offset image_size [217; h2] 0 (xfer_init image_size))
      as Ho1.
    remember (feed image_size 0 [217; h2] (xfer_init image_size)) as sh eqn:Esh.
    destruct (feed_payload image_size (body ++ [255])
                (0 + Z.of_nat (length [217; h2])) sh ltac:(simpl; lia) Hok1 He1
                Hb1)
      as (Hok2 & He2 & Hs2 & Hw2 & Hr2 & Hl2).
    { rewrite (no_end_tag_prev _ 0) by (first [exact Hl1 | lia]). exact Hne. }
    { rewrite Hw1. simpl total_bytes_written. lia. }
    pose proof (feed_offset image_size (body ++ [255])
                  (0 + Z.of_nat (length [217; h2])) sh) as Ho2.
    remember (feed image_size (0 + Z.of_nat (length [217; h2])) (body ++ [255]) sh)
      as s1 eqn:Es1.
    rewrite last_snoc in Hl2. simpl in Hl2.
    change (eof (end_chunk ?a ?b ?c)) with (eof c). rewrite He2.
    set (s2 := end_chunk (2 + Z.of_nat (length (body ++ [255]))) chunk_size s1).
    assert (Hoff2 : start_next_chunk s2 = Z.of_nat (length (body ++ [255]))).
    { subst s2. unfold end_chunk. cbn [start_next_chunk].
      rewrite Ho2, Ho1. simpl start_next_chunk. lia. }
    assert (Hrem2 : bytes_remaining s2 = image_size + 14 - chunk_size).
    { subst s2. unfold end_chunk. cbn [bytes_remaining].
      rewrite Hr2, Hr1. cbn [bytes_remaining xfer_init].
      unfold start_data_byte, extra_read_buff. lia. }
    pose proof (ranged_round 217 h2 image Himg ltac:(unfold is_byte; lia) Hh2
                  image_size chunk_size Hpos fuel s2 t tmo tt (body ++ [255])
                  rest Eimg' Hoff2 He2) as R2.
    cbv zeta in R2. rewrite (R2 ltac:(lia)). clear R2.
    set (btr := Z.min chunk_size (Z.max (bytes_remaining s2) 1)).
    destruct (feed_end_tag_across image_size h2 (take (Z.to_nat btr) rest) s2
                Hok2 He2 Hh2 (Forall_take _ _ _ Hb2) Hl2)
      as (He3 & Hs3 & Hw3).
    { change (h2 :: take (Z.to_nat btr) rest)
        with (take (S (Z.to_nat btr)) (h2 :: rest)).
      apply no_start_tag_take. exact Hns. }
    { change (total_bytes_written s2) with (total_bytes_written s1).
      rewrite Hw2, Hw1. simpl total_bytes_written. lia. }
    change (eof (end_chunk ?a ?b ?c)) with (eof c). rewrite He3.
    eexists. split.
    + change (total_bytes_written (end_chunk ?a ?b ?c))
        with (total_bytes_written c).
      change (sink (end_chunk ?a ?b ?c)) with (sink c).
      rewrite Hw3, Hs3.
      change (total_bytes_written s2) with (total_bytes_written s1).
      change (sink s2) with (sink s1).
      rewrite Hw2, Hs2, Hw1, Hs1. simpl total_bytes_written. simpl sink.
      rewrite Z.add_0_l, <- Echunk, u32_small by lia. reflexivity.
    + split; [reflexivity|]. cbn [now]. destruct (_ - _)%nat; lia.
  - (* the end tag in one header *)
    unfold transferImage.
    destruct (Z.eqb_spec image_size 0) as [E|_]; [lia|].
    unfold millis. cbn [now].
    destruct fuel as [|fuel]; [lia|].
    pose proof (ranged_round 255 217 image Himg ltac:(unfold is_byte; lia)
                  ltac:(unfold is_byte; lia)
                  image_size chunk_size Hpos fuel (xfer_init image_size)
                  t tmo tt [] image eq_refl eq_refl eq_refl) as R1.
    cbv zeta in R1. rewrite Eb1 in R1.
    rewrite (R1 ltac:(lia)). clear R1.
    destruct (feed_end_tag_header image_size (take (Z.to_nat chunk_size) image)
                (xfer_init image_size) (xfer_init_ok image_size) eq_refl
                (Forall_take _ _ _ Himg))
      as (He3 & Hs3 & Hw3).
    { apply no_start_tag_take. exact Hnsi. }
    { simpl. lia. }
    change (eof (end_chunk ?a ?b ?c)) with (eof c). rewrite He3.
    eexists. split.
    + change (total_bytes_written (end_chunk ?a ?b ?c))
        with (total_bytes_written c).
      change (sink (end_chunk ?a ?b ?c)) with (sink c).
      rewrite Hw3, Hs3. reflexivity.
    + split; [reflexivity|]. cbn [now]. destruct (_ - _)%nat; lia.
Qed.

(** * Polling a busy camera *)

(** One status query to the busy camera, from an empty receive queue: the
    answer comes 3 ms later and is read to the end of its line. *)
Lemma getStatus_busy_camera t tmo (d : nat) :
  getStatus busy_camera (mkWorld t [] tmo d)
  = match d with
    | S d' => (BUSY, mkWorld (t + 3) [] tmo d')
    | O => (OK, mkWorld (t + 3) [] tmo O)
    end.
Proof.
  unfold getStatus, sendCommand.
  cbn [dev now rx busy_camera read_timeout app]. destruct d as [|d'].
  - change (map (fun b => (t + 3, b)) (bytes_of "READY,1234" ++ [13; 10]))
      with (stamped (t + 3) ([82; 69; 65; 68] ++ [89])
            ++ stamped (t + 3) ([44; 49; 50; 51; 52; 13] ++ [10]) ++ []).
    rewrite (waitResponse_reply 5000 _ _ _ _ _ (t + 3) [] [82; 69; 65; 68] 89
               (stamped (t + 3) ([44; 49; 50; 51; 52; 13] ++ [10]) ++ []))
      by status_word_conditions.
    unfold set_rx, set_now. cbn [now rx read_timeout dev].
    rewrite streamFind_stamped
      by (repeat constructor; vm_compute; discriminate).
    reflexivity.
  - change (map (fun b => (t + 3, b)) (bytes_of "BUSY" ++ [13; 10]))
      with (stamped (t + 3) ([66; 85; 83] ++ [89])
            ++ stamped (t + 3) ([13] ++ [10]) ++ []).
    rewrite (waitResponse_reply 5000 _ _ _ _ _ (t + 3) [] [66; 85; 83] 89
               (stamped (t + 3) ([13] ++ [10]) ++ []))
      by status_word_conditions.
    unfold set_rx, set_now. cbn [now rx read_timeout dev].
    rewrite streamFind_stamped
      by (repeat constructor; vm_compute; discriminate).
    reflexivity.
Qed.

Lemma poll_loop_busy_camera t0 timeout tmo : forall (k fuel : nat) t status,
  is_ready status = false ->
  (k < fuel)%nat ->
  0 <= t - t0 -> t - t0 + 103 * Z.of_nat k < timeout -> timeout < 2 ^ 32 ->
  poll_loop busy_camera fuel (u32 t0) timeout status (mkWorld t [] tmo k)
  = (true, OK, mkWorld (t + 103 * Z.of_nat k + 3) [] tmo O).
Proof.
  induction k as [|k IH]; intros fuel t status Hst Hfuel Ht Hk Htm;
    (destruct fuel as [|fuel]; [lia|]); cbn [poll_loop]; rewrite Hst;
    rewrite elapsed_since by (cbn [now]; lia); cbn [now negb andb];
    (destruct (Z.ltb_spec (t - t0) timeout); [|lia]);
    rewrite getStatus_busy_camera; cbn [is_ready negb].
  - destruct fuel; cbn [poll_loop is_ready negb andb];
      rewrite Z.mul_0_r, Z.add_0_r; reflexivity.
  - unfold delay, set_now. cbn [now rx read_timeout dev].
    rewrite (IH fuel (t + 3 + Z.max 0 100) BUSY eq_refl) by lia.
    replace (t + 3 + Z.max 0 100 + 103 * Z.of_nat k + 3)
      with (t + 103 * Z.of_nat (S k) + 3) by lia.
    reflexivity.
Qed.

(** Against a camera that answers each status query after 3 ms and is busy
    for the first [k] of them, [waitForReady] polls every 103 ms and
    returns, with the status OK, the time from its call to the first ready
    answer as a [uint32_t]: the initial delay, 103 ms for each busy answer
    and 3 ms for the last one. *)
Theorem waitForReady_polls_until_ready (k fuel : nat) initial_delay timeout
    t tmo :
  let r := u32 initial_delay + 103 * Z.of_nat k + 3 in
  (k < fuel)%nat ->
  u32 initial_delay + 103 * Z.of_nat k < u32 timeout ->
  waitForReady busy_camera fuel initial_delay timeout (mkWorld t [] tmo k)
  = Some (u32 r, OK, mkWorld (t + r) [] tmo O).
Proof.
  intros r Hfuel Hk. subst r.
  pose proof (u32_range initial_delay) as Hd.
  pose proof (u32_range timeout) as Htm.
  unfold waitForReady, delay, set_now, millis. cbn [now rx read_timeout dev].
  rewrite Z.max_r by lia.
  rewrite (poll_loop_busy_camera t (u32 timeout) tmo k fuel
             (t + u32 initial_delay) NO_RESPONSE eq_refl Hfuel)
    by lia.
  cbn [is_ready]. unfold elapsed, millis, u32. cbn [now].
  rewrite <- Zminus_mod.
  replace (t + initial_delay mod 2 ^ 32 + 103 * Z.of_nat k + 3 - t)
    with (initial_delay mod 2 ^ 32 + 103 * Z.of_nat k + 3) by lia.
  replace (t + initial_delay mod 2 ^ 32 + 103 * Z.of_nat k + 3)
    with (t + (initial_delay mod 2 ^ 32 + 103 * Z.of_nat k + 3)) by lia.
  reflexivity.
Qed.

(** * Closed instances *)

Existing Instance newlib.

(** C1 as stated fails: the end tag sets the flag, the start tag after it
    clears it, and the byte [0x41] is written later in the same session. *)
Lemma write_after_end_of_frame :
  eof after_end_tag = true /\
  sink after_end_tag = [255; 217] /\
  sink (snd (fst (read_chunk 3 100 0 4 4 after_end_tag rest_after_end_tag)))
    = [255; 217; 65] /\
  (exists w', transferImage no_camera 30 100 16384
                (preloaded [7; 7; 255; 217; 255; 216; 65])
              = Some (3, [255; 217; 65], w')).
Proof.
  split; [reflexivity|]. split; [reflexivity|]. split; [reflexivity|].
  eexists. vm_compute. reflexivity.
Qed.

Lemma no_write_while_end_of_frame_witness :
  xfer_ok after_end_tag /\ eof after_end_tag = true /\
  (no_start_tag (last_byte after_end_tag) [0; 0; 255; 217] = true ->
   sink (snd (fst (read_chunk 4 100 0 4 4 after_end_tag
                     (preloaded [0; 0; 255; 217])))) = [255; 217]).
Proof.
  assert (E : after_end_tag
              = mkXfer 4 2 114 0 0 [217; 7; 7; 255] true [255; 217])
    by (vm_compute; reflexivity).
  assert (Hok : xfer_ok after_end_tag) by (rewrite E; xfer_ok_by_computation).
  split; [exact Hok|]. split; [reflexivity|].
  intros H.
  exact (proj1 (proj1 (proj2 (no_write_while_end_of_frame no_camera 4 100 0 4 4
           after_end_tag (preloaded [0; 0; 255; 217]) Hok eq_refl)) H)).
Defined.

Lemma header_bytes_feed_marker_window_witness :
  option_map fst
    (transferImage (ranged_camera 217 0 [1; 2; 3; 255; 4; 5; 6; 7]) 2 8 4
       idle_world)
  = Some (4, [1; 2; 3; 255]) /\
  option_map fst
    (transferImage (ranged_camera 255 217 [1; 2; 3; 255; 4; 5; 6; 7]) 2 8 4
       idle_world)
  = Some (0, []).
Proof.
  destruct (header_bytes_feed_marker_window 0 [1; 2; 3; 255; 4; 5; 6; 7]
              [1; 2; 3] [4; 5; 6; 7] 8 4 2 0 1000)
    as (_ & (w1 & H1 & _) & (w2 & H2 & _)).
  - repeat constructor; unfold is_byte; lia.
  - unfold is_byte. lia.
  - lia.
  - reflexivity.
  - reflexivity.
  - lia.
  - reflexivity.
  - reflexivity.
  - reflexivity.
  - lia.
  - unfold idle_world. rewrite H1, H2. split; reflexivity.
Defined.

(** With a header that is not part of a tag the same image is fetched
    further: the end of the transfer above is the work of the header byte. *)
Example other_header_goes_on :
  option_map fst
    (transferImage (ranged_camera 7 0 [1; 2; 3; 255; 4; 5; 6; 7]) 2 8 4
       idle_world)
  = None /\
  option_map fst
    (transferImage (ranged_camera 7 0 [1; 2; 3; 255; 4; 5; 6; 7]) 30 8 4
       idle_world)
  = Some (8, [1; 2; 3; 255; 4; 5; 6; 7]).
Proof. vm_compute. split; reflexivity. Qed.

(** C4 as stated fails: with a declared size of 1 the bound is 15, and a
    transport that keeps sending non-zero bytes gets 16 bytes written before
    the first zero byte ends the session. *)
Lemma more_than_declared_size_plus_slack :
  exists w',
    transferImage no_camera 3 1 16384
      (preloaded [65; 65; 65; 65; 65; 65; 65; 65; 65; 65; 65; 65; 65; 65; 65;
                  65; 65; 65; 65; 65; 0])
    = Some (16, [65; 65; 65; 65; 65; 65; 65; 65; 65; 65; 65; 65; 65; 65; 65; 65],
            w') /\
    1 + 14 < 16.
Proof. eexists. split; [vm_compute; reflexivity | lia]. Qed.

Lemma sink_within_request_budget_witness :
  0 <= 16384 /\
  let s := snd (fst (transfer_loop no_camera 3 1 16384 0 (xfer_init 1)
                       (preloaded [7; 7; 255; 0]))) in
  Z.of_nat (length (sink s)) + bytes_remaining s <= 1 + 14.
Proof.
  assert (H : 0 <= 16384) by lia.
  split; [exact H|].
  exact (proj1 (sink_within_request_budget no_camera 3 1 16384 0
                  (preloaded [7; 7; 255; 0]) H)).
Defined.

(** C5 fails on the code: [read()] is stored in an [int8_t], so the bytes
    [0x80] to [0xFF] are negative there and the test [a <= 0] drops them as
    it drops [0x00].  The bytes [O 0xC8 0xFF K CR LF] are classified as
    [OK]: neither [0xC8] nor [0xFF] reaches the buffer. *)
Lemma high_bytes_are_skipped :
  fst (waitResponse 1000 [] (Some GEOLUX_OK) (Some GEOLUX_ERROR)
         (Some GEOLUX_BUSY) (Some GEOLUX_NONE)
         (preloaded [79; 200; 255; 75; 13; 10]))
  = (1, [79; 75; 13; 10]) /\
  read_available None None None None 0 [] [(0, 200); (0, 65); (0, 128)]
  = (0, [65], []).
Proof. split; vm_compute; reflexivity. Qed.

(** The examples of the specification: quality 77, second white-balance
    offset 20. *)
Example quality_is_77 :
  fst (getCameraInfoInt (info_camera quality_info) (bytes_of "#quality:") 13 0
         (bytes_of ",") idle_world) = 77.
Proof. vm_compute. reflexivity. Qed.

Example second_offset_is_20 :
  fst (getCameraInfoInt (info_camera wb_offset_info) (bytes_of "#wb_offset:")
         44 1 (bytes_of ",") idle_world) = 20.
Proof. vm_compute. reflexivity. Qed.

Example eleven_digits_overflow :
  fst (getCameraInfoInt (info_camera serial_info) (bytes_of "#serial_id:") 13 0
         (bytes_of ",") idle_world) = -1.
Proof. vm_compute. reflexivity. Qed.

Lemma getCameraInfoInt_field_width_witness :
  let w0 := wait_for 1 0 5000 (sendCommand (info_camera quality_info) get_info
                                 idle_world) in
  find (bytes_of "#quality:") w0 = (true, snd (find (bytes_of "#quality:") w0)) /\
  fst (getCameraInfoInt (info_camera quality_info) (bytes_of "#quality:") 13 0
         (bytes_of ",") idle_world)
  = 77.
Proof.
  intros w0.
  assert (Hf : find (bytes_of "#quality:") w0
               = (true, snd (find (bytes_of "#quality:") w0)))
    by (vm_compute; reflexivity).
  split; [exact Hf|].
  refine (proj2 (proj1 (getCameraInfoInt_field_width (info_camera quality_info)
                          (bytes_of "#quality:") 13 0 (bytes_of ",") idle_world
                          (snd (find (bytes_of "#quality:") w0)) Hf)
                   [(0, 55); (0, 55)] 0 13 [(0, 10)] _ _ _ _ _)
            false [55; 55] _ _ _ _).
  - vm_compute. reflexivity.
  - vm_compute. reflexivity.
  - repeat constructor; vm_compute; discriminate.
  - vm_compute. reflexivity.
  - simpl. lia.
  - reflexivity.
  - discriminate.
  - repeat constructor.
  - unfold decimal. simpl. lia.
Defined.

Example eleven_bytes_are_dropped :
  let r := getCameraInfoInt (info_camera serial_info) (bytes_of "#serial_id:")
             13 0 (bytes_of ",") idle_world in
  fst r = -1 /\
  snd r = setTimeout 1000
            (drain_info (mkWorld 0 [(0, 13); (0, 10)] 15 tt)) /\
  rx (snd r) = [].
Proof. vm_compute. repeat split. Qed.

(** A field of ten digits above 2147483647: what [atol] returns depends on
    the C library the sketch is built with. *)
Example ten_digits_out_of_range :
  let big := bytes_of "#n:3000000000" ++ [13; 10] in
  fst (@getCameraInfoInt unit avr_libc (info_camera big) (bytes_of "#n:") 13 0
         (bytes_of ",") idle_world) = -1294967296 /\
  fst (@getCameraInfoInt unit newlib (info_camera big) (bytes_of "#n:") 13 0
         (bytes_of ",") idle_world) = 2147483647.
Proof. vm_compute. split; reflexivity. Qed.

Lemma read_timeout_restored_witness :
  0 <= read_timeout idle_world < 2 ^ 32 /\
  read_timeout (snd (getCameraInfoInt (info_camera quality_info)
                       (bytes_of "#quality:") 13 0 (bytes_of ",") idle_world))
  = 1000.
Proof.
  assert (H : 0 <= read_timeout idle_world < 2 ^ 32) by (simpl; lia).
  split; [exact H|].
  exact (proj2 (proj2 (read_timeout_restored (info_camera quality_info)
                         idle_world H))
           (bytes_of "#quality:") 13 0 (bytes_of ",")).
Defined.

Lemma waitResponse_classifies_witness :
  pairwise_non_suffix [Some GEOLUX_OK; Some GEOLUX_ERROR; Some GEOLUX_BUSY;
                       Some GEOLUX_NONE] = true /\
  let '(index, data', w') :=
    waitResponse 5000 [] (Some GEOLUX_OK) (Some GEOLUX_ERROR)
      (Some GEOLUX_BUSY) (Some GEOLUX_NONE)
      (preloaded (bytes_of "BUSY" ++ [13; 10; 79; 75; 13; 10])) in
  index = 3 /\ data' = [66; 85; 83; 89; 13; 10] /\
  rx w' = stamped 0 [79; 75; 13; 10].
Proof.
  assert (Hp : pairwise_non_suffix [Some GEOLUX_OK; Some GEOLUX_ERROR;
                 Some GEOLUX_BUSY; Some GEOLUX_NONE] = true)
    by (vm_compute; reflexivity).
  split; [exact Hp|].
  pose proof (waitResponse_classifies 5000 [] (Some GEOLUX_OK)
                (Some GEOLUX_ERROR) (Some GEOLUX_BUSY) (Some GEOLUX_NONE)
                (preloaded (bytes_of "BUSY" ++ [13; 10; 79; 75; 13; 10])) Hp)
    as H.
  destruct (waitResponse 5000 [] _ _ _ _ _) as [[index data'] w'].
  destruct H as (consumed & _ & _ & _ & _ & Hfirst).
  refine (Hfirst (stamped 0 [66; 85; 83; 89; 13]) 0 10
            (stamped 0 [79; 75; 13; 10]) 2%nat GEOLUX_BUSY _ _ _ _ _ _).
  - reflexivity.
  - repeat constructor.
  - reflexivity.
  - reflexivity.
  - exists []. reflexivity.
  - intros k j' t' Hk Hj'.
    assert (Hk' : k = 1%nat \/ k = 2%nat \/ k = 3%nat \/ k = 4%nat \/ k = 5%nat)
      by (simpl in Hk; lia).
    do 4 (destruct j' as [|j']; [injection Hj' as <-;
            destruct Hk' as [->|[->|[->|[->| ->]]]];
            apply (proj1 (bool_decide_eq_false _)); vm_compute; reflexivity|]).
    discriminate Hj'.
Defined.

Example busy_then_ok :
  let '(index, data', w') :=
    waitResponse 5000 [] (Some GEOLUX_OK) (Some GEOLUX_ERROR)
      (Some GEOLUX_BUSY) (Some GEOLUX_NONE)
      (preloaded (bytes_of "BUSY" ++ [13; 10; 79; 75; 13; 10])) in
  index = 3 /\ data' = bytes_of "BUSY" ++ [13; 10] /\
  rx_bytes (rx w') = [79; 75; 13; 10].
Proof. vm_compute. repeat split. Qed.

(** C8 as stated fails: the camera answers READY within the first clock tick,
    so [waitForReady] returns 0 although the status is OK and the timeout of
    60 s has not passed. *)
Lemma ready_at_once_returns_zero :
  exists w',
    waitForReady ready_camera 1 0 60000 idle_world = Some (0, OK, w') /\
    elapsed w' (millis idle_world) < 60000.
Proof. eexists. split; [vm_compute; reflexivity|]. vm_compute. reflexivity. Qed.

(** The example of the specification: BUSY, BUSY, READY. *)
Example busy_busy_ready :
  exists w', waitForReady busy_camera 3 0 60000 (mkWorld 0 [] 1000 2%nat)
             = Some (209, OK, w').
Proof. eexists. vm_compute. reflexivity. Qed.

Lemma waitForReady_result_witness :
  (exists w', waitForReady busy_camera 3 0 60000 (mkWorld 0 [] 1000 2%nat)
              = Some (209, OK, w')) /\
  waitForReady busy_camera 601 0 60000 (mkWorld 0 [] 1000 2%nat) <> None.
Proof.
  split.
  - eexists. vm_compute. reflexivity.
  - apply (proj2 (waitForReady_result busy_camera 601 0 60000
                    (mkWorld 0 [] 1000 2%nat))).
    + vm_compute. reflexivity.
    + vm_compute. reflexivity.
Defined.

(** C3 as stated fails: the image [FF D9 41 FF D9] has 5 bytes and ends with
    the end tag, the camera sends it after the header [07 07], and
    [transferImage] returns 2: the end tag at the start of the image sets
    the flag and the other bytes are read without being written. *)
Lemma early_end_tag_cuts_transfer :
  exists w',
    transferImage (synthetic_camera 7 7) 1 5 16384
      (synthetic_world [255; 217; 65; 255; 217])
    = Some (2, [255; 217], w') /\
    Z.of_nat (length [255; 217; 65; 255; 217]) = 5 /\ 2 <> 5.
Proof. eexists. split; [vm_compute; reflexivity|]. split; [reflexivity | lia]. Qed.

Lemma synthetic_transfer_complete_witness :
  (is_byte 7 /\ header_neutral 7 7 = true /\ 0 < 4 /\
   Forall is_byte [255; 216; 65; 0; 66] /\
   no_end_tag 0 ([255; 216; 65; 0; 66] ++ [255]) = true /\
   7 = Z.of_nat (length ([255; 216; 65; 0; 66] ++ [255; 217])) /\
   7 < 2 ^ 32 /\ (7 - 1) mod 4 <> 0 /\ 7 <= 4 * Z.of_nat 2) /\
  exists w',
    transferImage (synthetic_camera 7 7) 2 7 4
      (mkWorld 0 [] 1000 ([255; 216; 65; 0; 66] ++ [255; 217]))
    = Some (7, [255; 216; 65; 0; 66] ++ [255; 217], w') /\
    elapsed w' (u32 0) <= 10.
Proof.
  assert (H7 : is_byte 7) by (unfold is_byte; lia).
  assert (Hh : header_neutral 7 7 = true) by reflexivity.
  assert (Hc : 0 < 4) by lia.
  assert (Hb : Forall is_byte [255; 216; 65; 0; 66])
    by (repeat constructor; unfold is_byte; lia).
  assert (Hn : no_end_tag 0 ([255; 216; 65; 0; 66] ++ [255]) = true)
    by reflexivity.
  assert (Hs : 7 = Z.of_nat (length ([255; 216; 65; 0; 66] ++ [255; 217])))
    by reflexivity.
  assert (H32 : 7 < 2 ^ 32) by lia.
  assert (Hm : (7 - 1) mod 4 <> 0) by (vm_compute; congruence).
  assert (Hf : 7 <= 4 * Z.of_nat 2) by lia.
  split; [repeat split; assumption|].
  exact (synthetic_transfer_complete 7 7 H7 H7 Hh 7 4 Hc [255; 216; 65; 0; 66]
           2%nat 0 1000 Hb Hn Hs H32 Hm Hf).
Defined.

(** An end tag made of the last payload byte of one chunk and the first
    header byte of the next: with chunks of 3 bytes the stream
    [07 07 41 42 FF | D9 07 43 44 45] ends the transfer after 3 bytes. *)
Example end_tag_across_header :
  exists w',
    transferImage no_camera 2 100 3
      (preloaded [7; 7; 65; 66; 255; 217; 7; 67; 68; 69])
    = Some (3, [65; 66; 255], w').
Proof. eexists. vm_compute. reflexivity. Qed.

(** ** Instances of the further properties *)

Lemma streamDump_leaves_nothing_available_witness :
  Forall (fun p : Z * Z => fst p <= 0) (rx (preloaded [1; 2; 3])) /\
  rx (streamDump (preloaded [1; 2; 3])) = [].
Proof.
  assert (H : Forall (fun p : Z * Z => fst p <= now (preloaded [1; 2; 3]))
                (rx (preloaded [1; 2; 3])))
    by (repeat constructor; simpl; lia).
  split; [exact H|].
  exact (proj2 (proj2 (proj2 (proj2 (proj2
           (streamDump_leaves_nothing_available (preloaded [1; 2; 3])))))) H).
Defined.

(** Two bytes are there in time, the third is not: the fourth stays behind
    it although it has arrived. *)
Example streamDump_stops_at_late_byte :
  streamDump (mkWorld 0 [(0, 1); (1, 2); (5, 3); (0, 4)] 1000 tt)
  = mkWorld 2 [(5, 3); (0, 4)] 1000 tt.
Proof. vm_compute. reflexivity. Qed.

Lemma waitResponse_leaves_late_bytes_witness :
  waitResponse 1000 [] (Some GEOLUX_OK) None None None
    (mkWorld 0 [(2000, 79)] 1000 tt)
  = (0, [], mkWorld 1000 [(2000, 79)] 1000 tt).
Proof.
  apply (waitResponse_leaves_late_bytes 1000 [] (Some GEOLUX_OK) None None None
           (mkWorld 0 [(2000, 79)] 1000 tt)).
  intros a c l E. simpl in E. injection E as <- _ _.
  change (u32 1000) with 1000. simpl. lia.
Defined.

Lemma waitForReady_delay_uses_up_timeout_witness :
  u32 60000 <= u32 60000 /\
  waitForReady no_camera 5 60000 60000 idle_world
  = Some (0, NO_RESPONSE, delay (u32 60000) idle_world).
Proof.
  assert (H : u32 60000 <= u32 60000) by lia.
  split; [exact H|].
  exact (waitForReady_delay_uses_up_timeout no_camera 5 60000 60000 idle_world H).
Defined.

Lemma info_label_missing_witness :
  fst (getCameraInfoInt (info_camera quality_info) (bytes_of "#zoom:") 13 0
         (bytes_of ",") idle_world) = -1 /\
  fst (getCameraInfoString (info_camera quality_info) (bytes_of "#zoom:") 13 0
         (bytes_of ",") idle_world) = [].
Proof.
  apply (info_label_missing (info_camera quality_info) (bytes_of "#zoom:") 13 0
           (bytes_of ",") idle_world).
  - discriminate.
  - intros pre post H. not_a_substring H pre.
Defined.

Lemma getCameraSerialNumber_miss_is_zero_witness :
  fst (getCameraSerialNumber (info_camera quality_info) idle_world) = 0.
Proof.
  apply (proj2 (getCameraSerialNumber_miss_is_zero (info_camera quality_info)
                  idle_world)).
  intros pre post H. not_a_substring H pre.
Defined.

Lemma getCameraInfoString_field_witness :
  let w0 := wait_for 1 0 5000 (sendCommand (info_camera firmware_info) get_info
                                 idle_world) in
  find (bytes_of "#firmware:") w0
  = (true, snd (find (bytes_of "#firmware:") w0)) /\
  fst (getCameraInfoString (info_camera firmware_info) (bytes_of "#firmware:")
         13 0 (bytes_of ",") idle_world)
  = bytes_of "1.2.3".
Proof.
  intros w0.
  assert (Hf : find (bytes_of "#firmware:") w0
               = (true, snd (find (bytes_of "#firmware:") w0)))
    by (vm_compute; reflexivity).
  split; [exact Hf|].
  apply (proj1 (getCameraInfoString_field (info_camera firmware_info)
                  (bytes_of "#firmware:") 13 0 (bytes_of ",") idle_world
                  (snd (find (bytes_of "#firmware:") w0)) Hf)
           (stamped 0 (bytes_of "1.2.3")) 0 13 [(0, 10)]).
  - vm_compute. reflexivity.
  - vm_compute. reflexivity.
  - repeat constructor; vm_compute; discriminate.
  - reflexivity.
Defined.

Lemma getCameraInfoInt_empty_field_witness :
  let w0 := wait_for 1 0 5000 (sendCommand (info_camera empty_quality_info)
                                 get_info idle_world) in
  find (bytes_of "#quality:") w0
  = (true, snd (find (bytes_of "#quality:") w0)) /\
  fst (getCameraInfoInt (info_camera empty_quality_info) (bytes_of "#quality:")
         13 0 (bytes_of ",") idle_world)
  = -1.
Proof.
  intros w0.
  assert (Hf : find (bytes_of "#quality:") w0
               = (true, snd (find (bytes_of "#quality:") w0)))
    by (vm_compute; reflexivity).
  split; [exact Hf|].
  apply (getCameraInfoInt_empty_field (info_camera empty_quality_info)
           (bytes_of "#quality:") 13 0 (bytes_of ",") idle_world
           (snd (find (bytes_of "#quality:") w0)) Hf).
  intros a c rest E. vm_compute in E. injection E as <- <- _.
  right. reflexivity.
Defined.

Lemma status_query_unanswered_witness :
  getStatus no_camera idle_world = (NO_RESPONSE, mkWorld 6000 [] 1000 tt) /\
  getImageSize no_camera idle_world = (0, mkWorld 8000 [] 1000 tt).
Proof.
  exact (status_query_unanswered no_camera idle_world eq_refl eq_refl).
Defined.

Lemma getStatus_reply_witness :
  getStatus ready_camera idle_world = (OK, mkWorld 0 [] 1000 tt).
Proof.
  apply (getStatus_reply ready_camera idle_world tt 0 0 STR_READY
           (bytes_of ",1234" ++ [13])).
  - reflexivity.
  - reflexivity.
  - simpl. lia.
  - reflexivity.
  - repeat constructor; vm_compute; discriminate.
Defined.

Lemma getImageSize_reply_witness :
  getImageSize ready_camera idle_world = (1234, mkWorld 0 [] 1000 tt).
Proof.
  apply (getImageSize_reply ready_camera idle_world tt 0 0 STR_READY
           (bytes_of "1234")).
  - reflexivity.
  - reflexivity.
  - simpl. lia.
  - reflexivity.
  - discriminate.
  - repeat constructor.
Defined.

Lemma getImageChunk_unanswered_witness :
  getImageChunk no_camera 0 512 (preloaded [1; 2; 3])
  = (0, [], mkWorld 5003 [] 1000 tt).
Proof.
  apply (getImageChunk_unanswered no_camera 0 512 (preloaded [1; 2; 3])).
  - repeat constructor; simpl; lia.
  - reflexivity.
Defined.

Lemma transferImage_unanswered_witness :
  exists w',
    transferImage logging_camera 25 100 512 (mkWorld 0 [] 1000 []) = Some (0, [], w') /\
    rx w' = [] /\ now w' = 120000 /\
    dev w' = map (fun k => (get_image 0 114, 5000 * Z.of_nat k)) (seq 0 24) /\
    read_timeout w' = 1000.
Proof.
  apply (transferImage_unanswered logging_camera 25 100 512
           (mkWorld 0 [] 1000 [])).
  - reflexivity.
  - reflexivity.
  - lia.
Defined.

Lemma read_chunk_writes_received_witness :
  let '(bytes_read', s', w') :=
    read_chunk 4 100 0 0 0 (xfer_init 100) (preloaded [7; 7; 1; 2]) in
  exists consumed out,
    rx (preloaded [7; 7; 1; 2]) = consumed ++ rx w' /\
    bytes_read' = 0 + Z.of_nat (length consumed) /\
    sink s' = sink (xfer_init 100) ++ out /\
    out `sublist_of` drop (Z.to_nat (start_data_byte - 0)) (rx_bytes consumed).
Proof.
  apply (read_chunk_writes_received 4 100 0 0 0 (xfer_init 100)
           (preloaded [7; 7; 1; 2])).
  lia.
Defined.

Lemma transferImage_returns_bytes_written_witness :
  transferImage (synthetic_camera 7 7) 5 6 4
    (synthetic_world [255; 216; 1; 2; 255; 217])
  = Some (6, [255; 216; 1; 2; 255; 217], mkWorld 10 [] 1000 []) /\
  6 = u32 (Z.of_nat (length [255; 216; 1; 2; 255; 217])).
Proof.
  assert (H : transferImage (synthetic_camera 7 7) 5 6 4
                (synthetic_world [255; 216; 1; 2; 255; 217])
              = Some (6, [255; 216; 1; 2; 255; 217], mkWorld 10 [] 1000 []))
    by (vm_compute; reflexivity).
  split; [exact H|].
  apply (transferImage_returns_bytes_written (synthetic_camera 7 7) 5 6 4
           (synthetic_world [255; 216; 1; 2; 255; 217]) _ _ _ H).
  simpl. lia.
Defined.

Lemma getCameraInfoInt_reads_number_witness :
  fst (getCameraInfoInt (info_camera quality_info) (bytes_of "#quality:") 13 0
         (bytes_of ",") idle_world)
  = 77.
Proof.
  apply (getCameraInfoInt_reads_number (info_camera quality_info)
           (bytes_of "#quality:") (bytes_of ",") idle_world tt 0
           (bytes_of "77") [10]).
  - reflexivity.
  - reflexivity.
  - simpl. lia.
  - discriminate.
  - repeat constructor; simpl; lia.
  - discriminate.
  - simpl. lia.
  - repeat constructor.
  - vm_compute. reflexivity.
Defined.

Lemma printCameraInfo_copies_lines_witness :
  fst (printCameraInfo (info_camera quality_info) idle_world)
  = lines_with [13; 10] [bytes_of "#quality:77" ++ [13]].
Proof.
  apply (printCameraInfo_copies_lines (info_camera quality_info) idle_world tt 0
           [bytes_of "#quality:77" ++ [13]]).
  - reflexivity.
  - reflexivity.
  - simpl. lia.
  - constructor; [|constructor].
    match goal with
    | |- Forall ?P ?l => let l' := eval vm_compute in l in change (Forall P l')
    end.
    repeat (constructor; [unfold is_byte; lia|]). constructor.
Defined.

Lemma info_scanners_drain_witness :
  rx (snd (getCameraInfoInt (info_camera wb_offset_info) (bytes_of "#wb_offset:")
             44 1 (bytes_of ",") idle_world)) = [] /\
  rx (snd (getCameraInfoString (info_camera wb_offset_info)
             (bytes_of "#wb_offset:") 44 1 (bytes_of ",") idle_world)) = [].
Proof.
  apply (info_scanners_drain (info_camera wb_offset_info)
           (bytes_of "#wb_offset:") 44 1 (bytes_of ",") idle_world
           (snd (find (bytes_of "#wb_offset:")
                   (wait_for 1 0 5000
                      (sendCommand (info_camera wb_offset_info) get_info
                         idle_world))))).
  - vm_compute. reflexivity.
  - vm_compute. reflexivity.
Defined.

Lemma chunk_advance_counts_header_bytes_witness :
  let '(bytes_read, s1, w') :=
    read_chunk 6 100 0 0 0 (xfer_init 100) (preloaded [7; 7; 1; 2; 3]) in
  bytes_read = 5 /\
  Z.of_nat (length (sink (end_chunk bytes_read 4 s1)))
  - Z.of_nat (length (sink (xfer_init 100)))
  < start_next_chunk (end_chunk bytes_read 4 s1)
    - start_next_chunk (xfer_init 100).
Proof.
  pose proof (chunk_advance_counts_header_bytes 6 100 0 4 (xfer_init 100)
                (preloaded [7; 7; 1; 2; 3])) as H.
  destruct (read_chunk 6 100 0 0 0 (xfer_init 100) (preloaded [7; 7; 1; 2; 3]))
    as [[bytes_read s1] w'] eqn:E.
  cbv zeta in H. destruct H as (_ & _ & _ & Hshort).
  assert (Hbr : bytes_read = 5)
    by (vm_compute in E; injection E as <- _ _; reflexivity).
  split; [exact Hbr|].
  apply Hshort; rewrite Hbr; unfold start_data_byte; lia.
Defined.

Lemma getImageChunk_ranged_witness :
  let '(count, buf, w') :=
    getImageChunk (ranged_camera 7 7 [10; 20; 30; 40]) 1 2
      (mkWorld 0 [(0, 9)] 1000 tt) in
  buf = [20; 30] /\ count = 2 /\ count = Z.min 2 (4 - 1) /\
  rx w' = [] /\ read_timeout w' = 1000.
Proof.
  apply (getImageChunk_ranged 7 7 [10; 20; 30; 40]
           ltac:(repeat constructor; unfold is_byte; lia) 1 2
           (mkWorld 0 [(0, 9)] 1000 tt)).
  - repeat constructor; simpl; lia.
  - simpl. lia.
  - reflexivity.
  - reflexivity.
  - simpl. lia.
Defined.

Lemma read_by_chunk_copies_image_witness :
  ReadByChunk.read_image (ranged_camera 7 7 [1; 2; 3]) 2 3 (mkWorld 0 [] 1000 tt)
  = (true, ReadByChunk.mkLocals 3 3 0 1 [1; 2; 3], mkWorld 25 [] 1000 tt).
Proof.
  apply (read_by_chunk_copies_image 7 7 [1; 2; 3]
           ltac:(repeat constructor; unfold is_byte; lia) 0 1000 tt 2).
  - lia.
  - simpl. lia.
  - reflexivity.
Defined.

Lemma transferImage_copies_ranged_image_witness :
  exists w',
    transferImage (ranged_camera 7 7 [255; 216; 1; 2; 255; 217]) 2 6 4
      (mkWorld 0 [] 1000 tt)
    = Some (6, [255; 216; 1; 2; 255; 217], w') /\
    elapsed w' (u32 0) <= 10.
Proof.
  apply (transferImage_copies_ranged_image 7 7 [255; 216; 1; 2; 255; 217]
           ltac:(repeat constructor; unfold is_byte; lia)
           ltac:(unfold is_byte; lia) ltac:(unfold is_byte; lia) eq_refl
           6 4 ltac:(lia) [255; 216; 1; 2] 2 0 1000 tt).
  - reflexivity.
  - reflexivity.
  - reflexivity.
  - lia.
  - vm_compute. discriminate.
  - simpl. lia.
Defined.

Lemma waitForReady_polls_until_ready_witness :
  waitForReady busy_camera 5 0 60000 (mkWorld 0 [] 1000 2%nat)
  = Some (209, OK, mkWorld 209 [] 1000 O).
Proof.
  apply (waitForReady_polls_until_ready 2 5 0 60000 0 1000).
  - lia.
  - vm_compute. reflexivity.
Defined.
